(** * PosAPP: receipt layout, cut fallback and printer routing

    A shallow embedding of the layout helpers of
    [src/services/receiptRenderer.ts], the printer matching of
    [src/screens/DrawerContent.tsx] and [src/services/prefs.ts], and the
    cut procedures of the two transports, followed by the properties
    the specification states about them.

    JavaScript strings are sequences of code units; they are modelled as
    lists of characters, so that [length], [slice] and concatenation are
    the list operations. Numbers are binary64 values, and the untyped
    receipt document is a value of a JSON-like type. Code that may throw
    or not terminate answers with an option or with an outcome. *)

From Stdlib Require Import String Ascii List ZArith Lia Bool Arith PeanoNat.
From Stdlib Require Import SpecFloat Permutation.

Set Warnings "-register-all".
Import ListNotations.

(** ** JavaScript strings *)

Module JsString.

Definition jsstring := list ascii.

(** String literals of the development are written [str "..."]. *)
Definition str (s : string) : jsstring := list_ascii_of_string s.

Definition space : ascii := " "%char.

(** Truthiness of a string: every string but the empty one. *)
Definition str_truthy (s : jsstring) : bool :=
  match s with
  | [] => false
  | _ :: _ => true
  end.

(** [s.slice(i, j)] for [0 <= i <= j]; both ends are clamped to the
    length of [s] as in JavaScript. *)
Definition slice (s : jsstring) (i j : nat) : jsstring :=
  firstn (j - i) (skipn i s).

(** [' '.repeat(n)]. *)
Definition spaces (n : nat) : jsstring := repeat space n.

(** [s.split(c)] for a one-character separator: the pieces between the
    occurrences of [c], empty pieces included; never the empty list. *)
Fixpoint split_on (c : ascii) (s : jsstring) : list jsstring :=
  match s with
  | [] => [[]]
  | a :: s' =>
      if Ascii.eqb a c then [] :: split_on c s'
      else match split_on c s' with
           | [] => [[a]]
           | w :: ws => (a :: w) :: ws
           end
  end.

(** [a === b] on strings. *)
Fixpoint str_eqb (a b : jsstring) : bool :=
  match a, b with
  | [], [] => true
  | x :: a', y :: b' => Ascii.eqb x y && str_eqb a' b'
  | _, _ => false
  end.

(** White space and line terminators, as far as one-byte code units go:
    TAB, LF, VT, FF, CR, SP and NBSP. *)
Definition is_ws (c : ascii) : bool :=
  let n := nat_of_ascii c in
  (n =? 9) || (n =? 10) || (n =? 11) || (n =? 12) || (n =? 13)
  || (n =? 32) || (n =? 160).

Fixpoint trim_start (s : jsstring) : jsstring :=
  match s with
  | c :: r => if is_ws c then trim_start r else s
  | [] => []
  end.

(** [s.trim()]. *)
Definition trim (s : jsstring) : jsstring :=
  rev (trim_start (rev (trim_start s))).

(** [new Set(l)] read back in insertion order: first occurrences only. *)
Fixpoint dedupe_strings (seen l : list jsstring) : list jsstring :=
  match l with
  | [] => []
  | x :: r =>
      if existsb (str_eqb x) seen then dedupe_strings seen r
      else x :: dedupe_strings (x :: seen) r
  end.

End JsString.

(** ** JavaScript numbers

    A JavaScript number is an IEEE 754 binary64 value. It is modelled by
    the [spec_float] of the Standard Library at precision 53 and maximal
    exponent 1024, with the library's correctly rounded operations. The
    conversions between numbers and strings follow ECMAScript
    ([Number::toString], [Number.prototype.toFixed], [StringToNumber]). *)

Module JsNumber.
Import JsString.

Definition number := spec_float.

Definition prec : Z := 53.
Definition emax : Z := 1024.

Definition NaN : number := S754_nan.
Definition pzero : number := S754_zero false.

(** The number nearest to the integer [z]. *)
Definition of_Z (z : Z) : number := binary_normalize prec emax z 0 false.

(** The number nearest to [m * 10^e10] for [0 <= m], with sign [neg]. *)
Definition of_decimal (neg : bool) (m e10 : Z) : number :=
  match m with
  | Zpos _ =>
      if (0 <=? e10)%Z then
        binary_normalize prec emax
          (if neg then - (m * 10 ^ e10) else m * 10 ^ e10)%Z 0 neg
      else
        let '(q, e, l) := SFdiv_core_binary prec emax m 0 (10 ^ (- e10))%Z 0 in
        binary_round_aux prec emax neg q e l
  | _ => S754_zero neg
  end.

(** [Number.isFinite(x)]. *)
Definition isFinite (x : number) : bool :=
  match x with
  | S754_zero _ | S754_finite _ _ _ => true
  | S754_infinity _ | S754_nan => false
  end.

(** Truthiness of a number: every number but [0], [-0] and [NaN]. *)
Definition num_truthy (x : number) : bool :=
  match x with
  | S754_zero _ | S754_nan => false
  | S754_infinity _ | S754_finite _ _ _ => true
  end.

(** [x / y], [x === y] and [x < y]. *)
Definition num_div (x y : number) : number := SFdiv prec emax x y.
Definition num_eq (x y : number) : bool := SFeqb x y.
Definition num_lt (x y : number) : bool := SFltb x y.

(** Structural identity of two numbers ([Object.is] on canonical values). *)
Definition same (x y : number) : bool :=
  match x, y with
  | S754_zero s, S754_zero t => Bool.eqb s t
  | S754_infinity s, S754_infinity t => Bool.eqb s t
  | S754_nan, S754_nan => true
  | S754_finite s m e, S754_finite t n f =>
      Bool.eqb s t && Pos.eqb m n && Z.eqb e f
  | _, _ => false
  end.

(** *** Decimal digits *)

Definition digit_char (d : Z) : ascii :=
  ascii_of_nat (48 + Z.to_nat d).

Fixpoint decimal_loop (fuel : nat) (n : Z) (acc : jsstring) : jsstring :=
  let acc' := digit_char (n mod 10) :: acc in
  match fuel with
  | 0 => acc'
  | S fuel' =>
      if (n / 10 =? 0)%Z then acc' else decimal_loop fuel' (n / 10) acc'
  end.

(** The decimal digits of [0 <= n], most significant first; ["0"] for 0. *)
Definition decimal (n : Z) : jsstring :=
  decimal_loop (Z.to_nat (Z.log2 n)) n [].

Definition zeros (n : nat) : jsstring := repeat "0"%char n.

(** *** The exact value of a finite number, as a fraction *)

Definition numerator (m : positive) (e : Z) : Z :=
  if (0 <=? e)%Z then (Zpos m * 2 ^ e)%Z else Zpos m.

Definition denominator (e : Z) : Z :=
  if (0 <=? e)%Z then 1%Z else (2 ^ (- e))%Z.

(** *** Number::toString *)

(** For [num/den < 1]: the least [j >= 1] with [10^j * num/den >= 1]. *)
Fixpoint first_digit_place (fuel : nat) (j num den : Z) : Z :=
  match fuel with
  | 0 => j
  | S fuel' =>
      if (den <=? num * 10 ^ j)%Z then j
      else first_digit_place fuel' (j + 1) num den
  end.

(** The decimal exponent [n] of [num/den > 0]:
    [10^(n-1) <= num/den < 10^n]. *)
Definition decimal_exponent (num den : Z) : Z :=
  if (den <=? num)%Z then Z.of_nat (length (decimal (num / den)))
  else (1 - first_digit_place 400 1 num den)%Z.

(** The search for the shortest digits. For [k] significant digits the
    two candidates are the [k]-digit decimals around [num/den]; a
    candidate is kept when it rounds to [x], the nearer one is preferred
    and, at equal distance, the even one. The answer is
    [(n, s)]: the digits of [s], with the decimal point after [n] of
    them. Seventeen significant digits identify any binary64 value. *)
Fixpoint shortest_digits (fuel : nat) (k : Z) (x : number) (num den n : Z)
  : Z * Z :=
  let p := (n - k)%Z in
  let N := if (0 <=? p)%Z then num else (num * 10 ^ (- p))%Z in
  let D := if (0 <=? p)%Z then (den * 10 ^ p)%Z else den in
  let s_lo := (N / D)%Z in
  let s_hi := (s_lo + 1)%Z in
  let ok_lo := same (of_decimal false s_lo p) x in
  let ok_hi := same (of_decimal false s_hi p) x in
  let lower := (n, s_lo) in
  let upper :=
    if (s_hi =? 10 ^ k)%Z then ((n + 1)%Z, (10 ^ (k - 1))%Z) else (n, s_hi) in
  let d_lo := (N - s_lo * D)%Z in
  let d_hi := (s_hi * D - N)%Z in
  if ok_lo && ok_hi then
    if (d_lo <? d_hi)%Z then lower
    else if (d_hi <? d_lo)%Z then upper
    else if Z.even s_lo then lower else upper
  else if ok_lo then lower
  else if ok_hi then upper
  else
    match fuel with
    | 0 => lower
    | S fuel' => shortest_digits fuel' (k + 1) x num den n
    end.

(** [Number::toString] of the positive finite number [m * 2^e]. *)
Definition positive_toString (m : positive) (e : Z) : jsstring :=
  let num := numerator m e in
  let den := denominator e in
  let '(n, s) :=
    shortest_digits 16 1 (S754_finite false m e) num den
                    (decimal_exponent num den) in
  let ds := decimal s in
  let k := Z.of_nat (length ds) in
  if ((k <=? n) && (n <=? 21))%Z then ds ++ zeros (Z.to_nat (n - k))
  else if ((0 <? n) && (n <=? 21))%Z then
    firstn (Z.to_nat n) ds ++ str "." ++ skipn (Z.to_nat n) ds
  else if ((-6 <? n) && (n <=? 0))%Z then
    str "0." ++ zeros (Z.to_nat (- n)) ++ ds
  else
    let ex := (n - 1)%Z in
    let sign := if (ex <? 0)%Z then str "-" else str "+" in
    (if (k =? 1)%Z then ds else firstn 1 ds ++ str "." ++ skipn 1 ds)
      ++ str "e" ++ sign ++ decimal (Z.abs ex).

Definition Number_toString (x : number) : jsstring :=
  match x with
  | S754_nan => str "NaN"
  | S754_zero _ => str "0"
  | S754_infinity s => (if s then str "-" else []) ++ str "Infinity"
  | S754_finite s m e => (if s then str "-" else []) ++ positive_toString m e
  end.

(** *** Number.prototype.toFixed(2) *)

(** [z <= |x|] on the exact value of the finite number [m * 2^e]. *)
Definition magnitude_ge (m : positive) (e : Z) (z : Z) : bool :=
  (z * denominator e <=? numerator m e)%Z.

(** [x.toFixed(2)]: the sign, then for a magnitude below [10^21] the
    integer [n] nearest to [100 * |x|] (the larger one at a tie) printed
    with a point before its last two digits, and [Number::toString]
    from [10^21] on. *)
Definition toFixed2 (x : number) : jsstring :=
  match x with
  | S754_nan | S754_infinity _ => Number_toString x
  | S754_zero _ => str "0.00"
  | S754_finite s m e =>
      let sign := if s then str "-" else [] in
      if magnitude_ge m e (10 ^ 21) then sign ++ positive_toString m e
      else
        let num := numerator m e in
        let den := denominator e in
        let n := ((200 * num + den) / (2 * den))%Z in
        let ds := decimal n in
        let ds := if length ds <=? 2 then zeros (3 - length ds) ++ ds else ds in
        let k := length ds in
        sign ++ firstn (k - 2) ds ++ str "." ++ skipn (k - 2) ds
  end.

(** *** StringToNumber *)

Definition digit_value (c : ascii) : option Z :=
  let n := nat_of_ascii c in
  if (48 <=? n) && (n <=? 57) then Some (Z.of_nat (n - 48)) else None.

Definition hex_value (c : ascii) : option Z :=
  let n := nat_of_ascii c in
  if (48 <=? n) && (n <=? 57) then Some (Z.of_nat (n - 48))
  else if (97 <=? n) && (n <=? 102) then Some (Z.of_nat (n - 87))
  else if (65 <=? n) && (n <=? 70) then Some (Z.of_nat (n - 55))
  else None.

(** The leading decimal digits of [s]: their value on top of [acc], how
    many they are on top of [cnt], and what follows them. *)
Fixpoint take_digits (s : jsstring) (acc : Z) (cnt : Z) : Z * Z * jsstring :=
  match s with
  | c :: r =>
      match digit_value c with
      | Some d => take_digits r (acc * 10 + d)%Z (cnt + 1)%Z
      | None => (acc, cnt, s)
      end
  | [] => (acc, cnt, [])
  end.

(** A string made of digits of the given radix only, at least one. *)
Fixpoint radix_digits (radix : Z) (s : jsstring) (acc : Z) : option Z :=
  match s with
  | [] => Some acc
  | c :: r =>
      match hex_value c with
      | Some d =>
          if (d <? radix)%Z then radix_digits radix r (acc * radix + d)%Z
          else None
      | None => None
      end
  end.

Definition radix_literal (radix : Z) (s : jsstring) : number :=
  match s with
  | [] => NaN
  | _ :: _ =>
      match radix_digits radix s 0 with
      | Some v => of_Z v
      | None => NaN
      end
  end.

(** The optional exponent part, which must end the literal. *)
Definition parse_exponent (s : jsstring) : option Z :=
  match s with
  | [] => Some 0%Z
  | c :: r =>
      if Ascii.eqb c "e" || Ascii.eqb c "E" then
        let '(neg, r') :=
          match r with
          | "+"%char :: r' => (false, r')
          | "-"%char :: r' => (true, r')
          | _ => (false, r)
          end in
        let '(v, cnt, rest) := take_digits r' 0 0 in
        match rest with
        | [] => if (0 <? cnt)%Z then Some (if neg then - v else v)%Z else None
        | _ :: _ => None
        end
      else None
  end.

(** [Infinity], or digits with an optional fraction and exponent. *)
Definition unsigned_decimal (neg : bool) (s : jsstring) : number :=
  if str_eqb s (str "Infinity") then S754_infinity neg
  else
    let '(ip, n1, r1) := take_digits s 0 0 in
    let '(m, n2, r2) :=
      match r1 with
      | "."%char :: r => take_digits r ip 0
      | _ => (ip, 0%Z, r1)
      end in
    if (n1 + n2 =? 0)%Z then NaN
    else
      match parse_exponent r2 with
      | Some ex => of_decimal neg m (ex - n2)
      | None => NaN
      end.

(** [Number(s)] for a string [s]. *)
Definition StringToNumber (s : jsstring) : number :=
  match trim s with
  | [] => pzero
  | "0"%char :: c :: r =>
      if Ascii.eqb c "x" || Ascii.eqb c "X" then radix_literal 16 r
      else if Ascii.eqb c "o" || Ascii.eqb c "O" then radix_literal 8 r
      else if Ascii.eqb c "b" || Ascii.eqb c "B" then radix_literal 2 r
      else unsigned_decimal false (trim s)
  | "+"%char :: r => unsigned_decimal false r
  | "-"%char :: r => unsigned_decimal true r
  | t => unsigned_decimal false t
  end.

End JsNumber.

(** ** JavaScript values

    The receipt document is untyped JSON ([any] in the source); it is
    modelled by a value type with the coercions the source applies to
    it. An object is the list of its properties, in insertion order. *)

Module JsValue.
Import JsString JsNumber.

Inductive value : Type :=
| VUndefined
| VNull
| VBool (b : bool)
| VNum (x : number)
| VStr (s : jsstring)
| VArr (l : list value)
| VObj (fields : list (jsstring * value)).

Fixpoint lookup (k : jsstring) (fields : list (jsstring * value)) : value :=
  match fields with
  | [] => VUndefined
  | (k', v) :: r => if str_eqb k' k then v else lookup k r
  end.

(** [v?.[k]] for a data property [k]: only objects carry one. *)
Definition get_prop (v : value) (k : jsstring) : value :=
  match v with
  | VObj fields => lookup k fields
  | _ => VUndefined
  end.

(** [v == null]. *)
Definition nullish (v : value) : bool :=
  match v with
  | VUndefined | VNull => true
  | _ => false
  end.

(** [a ?? b]. *)
Definition coalesce (a b : value) : value := if nullish a then b else a.

Definition truthy (v : value) : bool :=
  match v with
  | VUndefined | VNull => false
  | VBool b => b
  | VNum x => num_truthy x
  | VStr s => str_truthy s
  | VArr _ | VObj _ => true
  end.

(** [a || b]. *)
Definition or_else (a b : value) : value := if truthy a then a else b.

(** Whether an object has a property [k] of its own. *)
Definition has_own (k : jsstring) (fields : list (jsstring * value)) : bool :=
  existsb (fun kv => str_eqb (fst kv) k) fields.

(** [l.join(',')] with [conv] for the conversion of an element to a
    string: [null] and [undefined] elements count as empty, and the
    first conversion that throws ends the call. *)
Definition join_elements (conv : value -> option jsstring)
  : list value -> option jsstring :=
  fix join (l : list value) : option jsstring :=
    match l with
    | [] => Some []
    | x :: r =>
        match (if nullish x then Some [] else conv x) with
        | None => None
        | Some s =>
            match r with
            | [] => Some s
            | _ :: _ =>
                match join r with
                | None => None
                | Some t => Some (s ++ str "," ++ t)
                end
            end
        end
    end.

(** [String(v)], also the conversion inside a template literal. An array
    joins its elements with commas. An object is converted by its
    [toString] method, which is the one of [Object.prototype] unless the
    object has a property of that name of its own; such a property of a
    document is data, not a function, and the conversion then throws a
    [TypeError] ([None]), whether [valueOf] is inherited or not. *)
Fixpoint ToString (v : value) : option jsstring :=
  match v with
  | VUndefined => Some (str "undefined")
  | VNull => Some (str "null")
  | VBool true => Some (str "true")
  | VBool false => Some (str "false")
  | VNum x => Some (Number_toString x)
  | VStr s => Some s
  | VArr l => join_elements ToString l
  | VObj fields =>
      if has_own (str "toString") fields then None
      else Some (str "[object Object]")
  end.

(** [Number(v)]; an array or an object is converted to a string first,
    its [valueOf] giving no primitive value. *)
Definition ToNumber (v : value) : option number :=
  match v with
  | VUndefined => Some NaN
  | VNull => Some pzero
  | VBool true => Some (of_Z 1)
  | VBool false => Some pzero
  | VNum x => Some x
  | VStr s => Some (StringToNumber s)
  | VArr _ | VObj _ => option_map StringToNumber (ToString v)
  end.

End JsValue.

(** ** Layout helpers of the receipt renderer *)

Module Renderer.
Import JsString JsNumber JsValue.

(** The inner loop of [wrap]:
    [for (let i = 0; i < w.length; i += width) out.push(w.slice(i, i + width))].
    The loop does not terminate for [width = 0]; the model counts its
    iterations with [fuel] and answers [None] when the fuel is used up
    before the loop condition fails. *)
Fixpoint hard_split (fuel i : nat) (w : jsstring) (width : nat)
  : option (list jsstring) :=
  if i <? length w then
    match fuel with
    | 0 => None
    | S fuel' =>
        option_map (cons (slice w i (i + width)))
                   (hard_split fuel' (i + width) w width)
    end
  else Some [].

(** The loop state of [wrap]: the lines pushed so far and the current line. *)
Definition wrap_state : Type := (list jsstring * jsstring)%type.

(** One iteration of [for (const w of words)]. *)
Definition wrap_word (width : nat) (st : wrap_state) (w : jsstring)
  : option wrap_state :=
  let '(out, line) := st in
  let test := if str_truthy line then line ++ [space] ++ w else w in
  if length test <=? width then Some (out, test)
  else
    let out1 := if str_truthy line then out ++ [line] else out in
    if width <? length w then
      match hard_split (length w) 0 w width with
      | Some chunks => Some (out1 ++ chunks, [])
      | None => None
      end
    else Some (out1, w).

Fixpoint wrap_loop (width : nat) (st : wrap_state) (words : list jsstring)
  : option wrap_state :=
  match words with
  | [] => Some st
  | w :: ws =>
      match wrap_word width st w with
      | Some st' => wrap_loop width st' ws
      | None => None
      end
  end.

(** [wrap(text, width)]. *)
Definition wrap (text : jsstring) (width : nat) : option (list jsstring) :=
  match wrap_loop width ([], []) (split_on space text) with
  | Some (out, line) => Some (if str_truthy line then out ++ [line] else out)
  | None => None
  end.

(** [rpad] and [lpad]: pad with spaces, or clip; [lpad] keeps the END of a
    string that is too long. *)
Definition rpad (s : jsstring) (len : nat) : jsstring :=
  if len <=? length s then slice s 0 len
  else s ++ spaces (len - length s).

Definition lpad (s : jsstring) (len : nat) : jsstring :=
  if len <=? length s then slice s (length s - len) (length s)
  else spaces (len - length s) ++ s.

Definition rAlign (s : jsstring) (width : nat) : jsstring := lpad s width.

(** [computeCols(total)]: Item takes what Qty, Price, Amount and the gaps
    leave, at least 8. The subtraction is on integers, as [total] may be
    smaller than the fixed part. *)
Record cols := { item : Z; qty : Z; price : Z; amount : Z }.

Definition computeCols (total : Z) : cols :=
  let qty := 4%Z in
  let price := 7%Z in
  let amount := 8%Z in
  let gaps := 3%Z in
  {| item := Z.max 8 (total - (qty + price + amount + gaps));
     qty := qty; price := price; amount := amount |}.

Definition AMOUNT_GAP : Z := 1.

(** [amountAlignedRow(label, value, width)]; every call site passes
    [String(...)] of the label and of the value, so both are strings. *)
Definition amountAlignedRow (label value : jsstring) (width : Z) : jsstring :=
  let c := computeCols width in
  let gap := AMOUNT_GAP in
  let leftW := Z.max 1 (width - amount c - gap) in
  rpad label (Z.to_nat leftW) ++ spaces (Z.to_nat gap)
    ++ rAlign value (Z.to_nat (amount c)).

(** [formatMoney(n)]. *)
Definition formatMoney (n : number) : jsstring :=
  toFixed2 (if isFinite n then n else pzero).

(** [toInt(v, d)]; [Number(v)] may throw ([None]). *)
Definition toInt (v : value) (d : number) : option number :=
  match ToNumber v with
  | Some n => Some (if isFinite n then n else d)
  | None => None
  end.

(** The numbers of one row of the item table, for the item [it] of
    [data.itemdata]. Reading a property of [null] or [undefined] throws,
    so such an item has no row ([None]); nor has an item with a field
    that [Number] cannot convert. *)
Definition qtyN (it : value) : option number :=
  toInt (get_prop it (str "quantity")) (of_Z 1).

Definition lineTotal (it : value) : option number :=
  ToNumber (coalesce (coalesce (get_prop it (str "item_amount"))
                               (get_prop it (str "price")))
                     (VNum pzero)).

Definition unitPrice (it : value) : option number :=
  if nullish it then None
  else
    match qtyN it, lineTotal it with
    | Some q, Some t => Some (if num_truthy q then num_div t q else t)
    | _, _ => None
    end.

(** The Price cell of the row: [rAlign(formatMoney(unitPrice), cols.price)]. *)
Definition price_cell (total : Z) (u : number) : jsstring :=
  rAlign (formatMoney u) (Z.to_nat (price (computeCols total))).

End Renderer.

(** ** Stored printer profiles ([src/services/prefs.ts]) *)

Module Prefs.
Import JsString JsNumber JsValue.

Definition DEFAULT_NET_PORT : number := of_Z 9100.
Definition DEFAULT_WIDTH_DOTS : number := of_Z 576.

(** [NetPrinterProfile]: [host] is required, the other fields may be
    absent ([None]); [normalizeProfile] also guards an absent [name]. *)
Record NetPrinterProfile : Type := {
  name : option jsstring;
  host : jsstring;
  port : option number;
  widthDots : option number;
  enabled : option bool;
  copies : option number;
  isDefault : option bool
}.

(** [typeof p === 'number' && p > 0 ? p : d]. *)
Definition positive_or (p : option number) (d : number) : number :=
  match p with
  | Some x => if num_lt pzero x then x else d
  | None => d
  end.

(** [normalizeProfile(p)]: the profile with every default filled in. *)
Definition normalizeProfile (p : NetPrinterProfile) : NetPrinterProfile :=
  {| name := Some match name p with
                  | Some n => n
                  | None => host p
                  end;
     host := host p;
     port := Some (positive_or (port p) DEFAULT_NET_PORT);
     widthDots :=
       Some match widthDots p with
            | Some w =>
                if num_eq w (of_Z 384) || num_eq w (of_Z 576) then w
                else DEFAULT_WIDTH_DOTS
            | None => DEFAULT_WIDTH_DOTS
            end;
     enabled := Some match enabled p with
                     | Some b => b
                     | None => true
                     end;
     copies := Some (positive_or (copies p) (of_Z 1));
     isDefault := Some match isDefault p with
                       | Some b => b
                       | None => false
                       end |}.

(** The longest run of decimal digits at the head of [s], and the rest. *)
Fixpoint span_digits (s : jsstring) : jsstring * jsstring :=
  match s with
  | c :: r =>
      match digit_value c with
      | Some _ => let '(ds, rest) := span_digits r in (c :: ds, rest)
      | None => ([], s)
      end
  | [] => ([], [])
  end.

(** [parseInt(ds, 10)] for a string of decimal digits. *)
Definition parseInt_digits (ds : jsstring) : number :=
  let '(v, _, _) := take_digits ds 0 0 in of_Z v.

(** [parseIpToken(ipToken)] of prefs.ts. The pattern [/:(\d{2,5})$/]
    matches when the digits that end the token are two to five and
    follow a colon; the host is what precedes that colon. [None] is the
    [null] answer. *)
Definition parseIpToken (ipToken : jsstring)
  : option (jsstring * option number) :=
  let token := trim ipToken in
  match token with
  | [] => None
  | _ :: _ =>
      let '(ds_rev, rest_rev) := span_digits (rev token) in
      match rest_rev with
      | ":"%char :: host_rev =>
          if (2 <=? length ds_rev) && (length ds_rev <=? 5) then
            match rev host_rev with
            | [] => None
            | h => Some (h, Some (parseInt_digits (rev ds_rev)))
            end
          else Some (token, None)
      | _ => Some (token, None)
      end
  end.

(** The predicate of [normalizedList.find(...)]. *)
Definition token_matches (h : jsstring) (port_opt : option number)
           (p : NetPrinterProfile) : bool :=
  match enabled p with
  | Some true =>
      if str_eqb (host p) h then
        match port_opt with
        | Some tport =>
            num_eq (positive_or (port p) DEFAULT_NET_PORT) tport
        | None => true
        end
      else false
  | _ => false
  end.

(** [resolveSavedPrinterByIpTokenInList(ipToken, list)], with [saved]
    for the list; [None] is [undefined]. *)
Definition resolveSavedPrinterByIpTokenInList
           (ipToken : jsstring) (saved : list NetPrinterProfile)
  : option NetPrinterProfile :=
  match parseIpToken ipToken with
  | None => None
  | Some (h, port_opt) =>
      find (token_matches h port_opt) (map normalizeProfile saved)
  end.

End Prefs.

(** ** Routing to the stored printers ([src/screens/DrawerContent.tsx]) *)

Module Routing.
Import JsString JsNumber JsValue Prefs.

(** *** Hint tokens *)

Record ip_token : Type := {
  t_host : jsstring;
  t_port : number;
  hasPort : bool
}.

(** [parseIpToken(token)] of DrawerContent.tsx: the first two pieces
    between colons, trimmed; a port piece that is empty, or that
    [Number] reads as [0] or [NaN], yields the default port. *)
Definition parseIpToken (token : jsstring) : ip_token :=
  let raw := trim token in
  let parts := map trim (split_on ":" raw) in
  let h := nth 0 parts [] in
  match nth_error parts 1 with
  | Some p =>
      if str_truthy p then
        {| t_host := h;
           t_port := let n := StringToNumber p in
                     if num_truthy n then n else DEFAULT_NET_PORT;
           hasPort := true |}
      else {| t_host := h; t_port := DEFAULT_NET_PORT; hasPort := false |}
  | None => {| t_host := h; t_port := DEFAULT_NET_PORT; hasPort := false |}
  end.

Definition normalizeHost (h : jsstring) : jsstring := trim h.

(** [normalizePort(p)]; an absent port converts to [NaN]. *)
Definition normalizePort (p : option number) : number :=
  let n := match p with
           | Some x => x
           | None => NaN
           end in
  if isFinite n && num_lt pzero n then n else DEFAULT_NET_PORT.

(** The score [findSavedByIpToken] gives a profile, if it pushes it. *)
Definition score_of (t : ip_token) (prof : NetPrinterProfile) : option Z :=
  let pHost := normalizeHost (host prof) in
  let pPort := normalizePort (port prof) in
  if negb (str_truthy pHost) then None
  else if hasPort t then
    if str_eqb pHost (t_host t) && num_eq pPort (t_port t) then Some 100%Z
    else None
  else
    if str_eqb pHost (t_host t) then
      Some (if num_eq pPort DEFAULT_NET_PORT then 55 else 50)%Z
    else None.

Fixpoint scored_of (t : ip_token) (saved : list NetPrinterProfile)
  : list (Z * NetPrinterProfile) :=
  match saved with
  | [] => []
  | prof :: r =>
      match score_of t prof with
      | Some sc => (sc, prof) :: scored_of t r
      | None => scored_of t r
      end
  end.

(** [scored.sort((a, b) => b.score - a.score)]: the sort of an array is
    stable, so entries of equal score keep their order. *)
Fixpoint insert_by_score (x : Z * NetPrinterProfile)
         (l : list (Z * NetPrinterProfile)) : list (Z * NetPrinterProfile) :=
  match l with
  | [] => [x]
  | y :: r =>
      if (fst x <? fst y)%Z then y :: insert_by_score x r else x :: l
  end.

Definition sort_by_score (l : list (Z * NetPrinterProfile))
  : list (Z * NetPrinterProfile) :=
  fold_right insert_by_score [] l.

(** [findSavedByIpToken(ipToken, list)]; [None] is [null]. *)
Definition findSavedByIpToken (ipToken : jsstring)
           (saved : list NetPrinterProfile) : option NetPrinterProfile :=
  let t := parseIpToken ipToken in
  if negb (str_truthy (t_host t)) then None
  else
    match sort_by_score (scored_of t saved) with
    | [] => None
    | (_, prof) :: _ => Some prof
    end.

(** *** The hints of a document *)

(** A string element that is not blank, as the array filters keep it. *)
Definition nonblank_string (trimmed : bool) (x : value) : list jsstring :=
  match x with
  | VStr s =>
      if str_truthy (trim s) then [if trimmed then trim s else s] else []
  | _ => []
  end.

(** [asStrArray(v)]: the non-blank strings of an array, as they are, or
    the trimmed string, or nothing. *)
Definition asStrArray (v : value) : list jsstring :=
  match v with
  | VArr l => flat_map (nonblank_string false) l
  | VStr s => if str_truthy (trim s) then [trim s] else []
  | _ => []
  end.

Definition ip_keys : list jsstring :=
  [str "ip_address"; str "Ip_address"; str "IP_ADDRESS"; str "ipAddress";
   str "IpAddress"].

(** The values [v] with [v != null]. *)
Definition present (vs : list value) : list value :=
  filter (fun v => negb (nullish v)) vs.

(** The tokens one hint value contributes in [getKitchenIpsFromBlock]. *)
Definition tokens_of_hint (v : value) : list jsstring :=
  match v with
  | VArr l => flat_map (nonblank_string true) l
  | VStr s => filter str_truthy (map trim (split_on ","%char s))
  | _ => []
  end.

(** [getKitchenIpsFromBlock(k)]. *)
Definition getKitchenIpsFromBlock (k : value) : list jsstring :=
  let vals :=
    present (map (get_prop k) ip_keys)
    ++ present (map (get_prop (get_prop k (str "data"))) ip_keys) in
  dedupe_strings [] (flat_map tokens_of_hint vals).

(** [b?.type === ty]. *)
Definition has_type (ty : jsstring) (b : value) : bool :=
  match get_prop b (str "type") with
  | VStr s => str_eqb s ty
  | _ => false
  end.

(** [json?.data || []], on which [find] and [filter] are then called:
    a truthy [data] that is not an array has no such method, and the
    call throws ([None]). *)
Definition data_blocks (json : value) : option (list value) :=
  let d := get_prop json (str "data") in
  if truthy d then
    match d with
    | VArr l => Some l
    | _ => None
    end
  else Some [].

(** The cashier hints: [data.ip_address] of the first [setting] block. *)
Definition cashier_ips (blocks : list value) : list jsstring :=
  let settingBlock :=
    match find (has_type (str "setting")) blocks with
    | Some b => b
    | None => VUndefined
    end in
  asStrArray (get_prop (get_prop settingBlock (str "data")) (str "ip_address")).

Record KitchenEntry : Type := {
  block : value;
  ips : list jsstring;
  individual : bool;
  idx : nat
}.

Definition kitchen_blocks (blocks : list value) : list value :=
  filter (has_type (str "kitchen_print")) blocks.

(** [kitchenBlocks.map((block, idx) => ...)], from index [i] on;
    [String(block?.individual_print ?? '0')] may throw ([None]). *)
Fixpoint kitchen_entries (i : nat) (kblocks : list value)
  : option (list KitchenEntry) :=
  match kblocks with
  | [] => Some []
  | b :: r =>
      match ToString (coalesce (get_prop b (str "individual_print"))
                               (VStr (str "0"))) with
      | None => None
      | Some flag =>
          match kitchen_entries (S i) r with
          | None => None
          | Some entries =>
              Some ({| block := b;
                       ips := getKitchenIpsFromBlock b;
                       individual := str_eqb flag (str "1");
                       idx := i |} :: entries)
          end
      end
  end.

(** The test that sends the caller to the legacy path:
    [cashierIps.length === 0 && !hasAnyKitchenIp]. *)
Definition no_hints (cashierIps : list jsstring)
           (kitchenEntries : list KitchenEntry) : bool :=
  match cashierIps with
  | [] =>
      negb (existsb (fun k => match ips k with
                              | [] => false
                              | _ :: _ => true
                              end)
                    kitchenEntries)
  | _ :: _ => false
  end.

(** *** Targets *)

Inductive target_type : Type := cashier | kitchen.

(** A target; [blockIdx] is absent for a cashier target, and [item] is
    [VUndefined] unless the target is one item of a block. *)
Record target : Type := {
  profile : NetPrinterProfile;
  ttype : target_type;
  blockIdx : option nat;
  item : value
}.

(** What [for (const it of items)] runs through, for
    [items = block?.data?.itemdata || []]: the elements of an array, the
    characters of a string; any other truthy value is not iterable and
    the loop throws ([None]). *)
Definition iter_items (b : value) : option (list value) :=
  let v := get_prop (get_prop b (str "data")) (str "itemdata") in
  if truthy v then
    match v with
    | VArr l => Some l
    | VStr s => Some (map (fun c => VStr [c]) s)
    | _ => None
    end
  else Some [].

Definition cashier_targets (saved : list NetPrinterProfile)
           (tokens : list jsstring) : list target :=
  flat_map (fun ip =>
              match findSavedByIpToken ip saved with
              | Some prof =>
                  [{| profile := prof; ttype := cashier; blockIdx := None;
                      item := VUndefined |}]
              | None => []
              end) tokens.

(** The targets of one hint token of a kitchen entry. *)
Definition token_targets (saved : list NetPrinterProfile) (e : KitchenEntry)
           (ip : jsstring) : option (list target) :=
  match findSavedByIpToken ip saved with
  | None => Some []
  | Some prof =>
      if individual e then
        match iter_items (block e) with
        | Some items =>
            Some (map (fun it => {| profile := prof; ttype := kitchen;
                                    blockIdx := Some (idx e); item := it |})
                      items)
        | None => None
        end
      else Some [{| profile := prof; ttype := kitchen;
                    blockIdx := Some (idx e); item := VUndefined |}]
  end.

(** Running a loop body that may throw over a list, collecting what it
    pushes. *)
Fixpoint collect {A B : Type} (f : A -> option (list B)) (l : list A)
  : option (list B) :=
  match l with
  | [] => Some []
  | a :: r =>
      match f a with
      | Some bs =>
          match collect f r with
          | Some rest => Some (bs ++ rest)
          | None => None
          end
      | None => None
      end
  end.

Definition kitchen_targets (saved : list NetPrinterProfile)
           (entries : list KitchenEntry) : option (list target) :=
  collect (fun e => collect (token_targets saved e) (ips e)) entries.

(** All targets of a document, cashier first, before deduplication. *)
Definition resolve_targets (saved : list NetPrinterProfile)
           (cashierIps : list jsstring) (kitchenEntries : list KitchenEntry)
  : option (list target) :=
  match kitchen_targets saved kitchenEntries with
  | Some ks => Some (cashier_targets saved cashierIps ++ ks)
  | None => None
  end.

(** *** Deduplication *)

(** [`${t.item.item_name || ''}#${t.item.display_index || ''}`], or the
    empty string for a target without (truthy) item; the conversion of a
    name or an index may throw ([None]). *)
Definition item_key (it : value) : option jsstring :=
  if truthy it then
    match ToString (or_else (get_prop it (str "item_name")) (VStr [])),
          ToString (or_else (get_prop it (str "display_index")) (VStr []))
    with
    | Some n, Some d => Some (n ++ str "#" ++ d)
    | _, _ => None
    end
  else Some [].

Definition type_name (ty : target_type) : jsstring :=
  match ty with
  | cashier => str "cashier"
  | kitchen => str "kitchen"
  end.

(** [t.profile.port || DEFAULT_NET_PORT]. *)
Definition port_or_default (p : NetPrinterProfile) : number :=
  match port p with
  | Some x => if num_truthy x then x else DEFAULT_NET_PORT
  | None => DEFAULT_NET_PORT
  end.

(** The part of the key that names the printer, the kind and the block. *)
Definition slice_key (p : NetPrinterProfile) (ty : target_type)
           (b : option nat) : jsstring :=
  host p ++ str ":" ++ Number_toString (port_or_default p) ++ str "|"
    ++ type_name ty ++ str "|b"
    ++ Number_toString (match b with
                        | Some i => of_Z (Z.of_nat i)
                        | None => of_Z (-1)
                        end)
    ++ str "|".

(** [`${host}:${port}|${t.type}|b${t.blockIdx ?? -1}|${itemKey}`]. *)
Definition target_key (t : target) : option jsstring :=
  match item_key (item t) with
  | Some itemKey =>
      Some (slice_key (profile t) (ttype t) (blockIdx t) ++ itemKey)
  | None => None
  end.

(** [targets.filter(...)] with the set [seen] of keys met so far; the
    callback throws when it cannot build the key of a target. *)
Fixpoint dedupe (seen : list jsstring) (ts : list target)
  : option (list target) :=
  match ts with
  | [] => Some []
  | t :: r =>
      match target_key t with
      | None => None
      | Some key =>
          if existsb (str_eqb key) seen then dedupe seen r
          else
            match dedupe (key :: seen) r with
            | Some us => Some (t :: us)
            | None => None
            end
      end
  end.

Definition uniqueTargets (ts : list target) : option (list target) :=
  dedupe [] ts.

(** *** Payloads *)

(** The own enumerable properties that [{...v}] copies. *)
Fixpoint indexed (i : nat) (l : list value) : list (jsstring * value) :=
  match l with
  | [] => []
  | v :: r => (Number_toString (of_Z (Z.of_nat i)), v) :: indexed (S i) r
  end.

Definition spread (v : value) : list (jsstring * value) :=
  match v with
  | VObj fields => fields
  | VArr l => indexed 0 l
  | VStr s => indexed 0 (map (fun c => VStr [c]) s)
  | _ => []
  end.

(** Writing property [k]: in place when the object has it, else last. *)
Fixpoint set_field (k : jsstring) (v : value)
         (fields : list (jsstring * value)) : list (jsstring * value) :=
  match fields with
  | [] => [(k, v)]
  | (k', v') :: r =>
      if str_eqb k' k then (k, v) :: r else (k', v') :: set_field k v r
  end.

(** [JSON.parse(JSON.stringify(v))] for a value that is not [undefined]:
    [undefined] properties disappear, [undefined] elements and numbers
    that are not finite become [null], and [-0] becomes [0]. *)
Fixpoint json_clone (v : value) : value :=
  match v with
  | VUndefined => VNull
  | VNum x =>
      match x with
      | S754_zero _ => VNum pzero
      | S754_finite _ _ _ => VNum x
      | S754_infinity _ | S754_nan => VNull
      end
  | VArr l => VArr (map json_clone l)
  | VObj fields =>
      VObj ((fix go (fs : list (jsstring * value)) :=
               match fs with
               | [] => []
               | (k, VUndefined) :: r => go r
               | (k, x) :: r => (k, json_clone x) :: go r
               end) fields)
  | _ => v
  end.

(** [buildKitchenPayload(payload, kitchenBlock)]. *)
Definition buildKitchenPayload (payload kitchenBlock : value) : value :=
  VObj (set_field (str "data") (VArr [kitchenBlock]) (spread payload)).

(** [buildSingleKitchenItemPayload(payload, kitchenBlock, item)]. *)
Definition buildSingleKitchenItemPayload
           (payload kitchenBlock it : value) : value :=
  let single := json_clone kitchenBlock in
  let data :=
    VObj (set_field (str "itemdata") (VArr [it])
            (spread (or_else (get_prop single (str "data")) (VObj [])))) in
  let single := VObj (set_field (str "data") data (spread single)) in
  VObj (set_field (str "data") (VArr [single]) (spread payload)).

(** The payload a target is printed with; a kitchen target whose block
    is missing is skipped ([None]). *)
Definition payload_of (json : value) (kblocks : list value) (t : target)
  : option value :=
  match ttype t with
  | cashier => Some json
  | kitchen =>
      let i := match blockIdx t with
               | Some i => i
               | None => 0
               end in
      match nth_error kblocks i with
      | Some b =>
          if truthy b then
            Some (if truthy (item t)
                  then buildSingleKitchenItemPayload json b (item t)
                  else buildKitchenPayload json b)
          else None
      | None => None
      end
  end.

(** *** Execution *)

(** How a call ends: with a value, with an exception, or not at all. *)
Inductive outcome (A : Type) : Type :=
| Returned (a : A)
| Threw
| Diverged.
Arguments Returned {A} a.
Arguments Threw {A}.
Arguments Diverged {A}.

(** One call of [printToSingleNetProfile(profile, payload, tag)]. *)
Definition print_job : Type := (NetPrinterProfile * value)%type.

(** [copies] of the execution loop. *)
Definition copies_of (p : NetPrinterProfile) : number :=
  positive_or (copies p) (of_Z 1).

(** The number of rounds of [for (let i = 0; i < copies; i++)] for
    [copies > 0]: the least integer that is not below [copies]. The
    counter cannot pass [2^53], so the loop has no end ([None]) for a
    larger or infinite [copies]. *)
Definition rounds (c : number) : option nat :=
  match c with
  | S754_finite false m e =>
      let n := ((numerator m e + denominator e - 1) / denominator e)%Z in
      if (n <=? 2 ^ 53)%Z then Some (Z.to_nat n) else None
  | S754_infinity false => None
  | _ => Some 0
  end.

Record result : Type := { handled : bool; matched : bool }.

Section Execution.

(** The printers: whether a print call completes, given the calls made
    before it in the job; it throws otherwise. *)
Variable printer : list print_job -> print_job -> bool.

(** For how many rounds a loop that has no end is followed. *)
Variable observed : nat.

(** [n] rounds of one print call. The trace lists the calls made. *)
Fixpoint print_copies (n : nat) (job : print_job) (tr : list print_job)
  : list print_job * outcome unit :=
  match n with
  | 0 => (tr, Returned tt)
  | S n' =>
      if printer tr job then print_copies n' job (tr ++ [job])
      else (tr ++ [job], Threw)
  end.

(** The same loop when it has no end: it prints until a call throws, and
    is still printing after the [n] rounds that are followed. *)
Fixpoint print_forever (n : nat) (job : print_job) (tr : list print_job)
  : list print_job * outcome unit :=
  match n with
  | 0 => (tr, Diverged)
  | S n' =>
      if printer tr job then print_forever n' job (tr ++ [job])
      else (tr ++ [job], Threw)
  end.

(** [for (const t of uniqueTargets) ...]. *)
Fixpoint exec_targets (json : value) (kblocks : list value)
         (ts : list target) (tr : list print_job)
  : list print_job * outcome unit :=
  match ts with
  | [] => (tr, Returned tt)
  | t :: r =>
      match payload_of json kblocks t with
      | None => exec_targets json kblocks r tr
      | Some payload =>
          match rounds (copies_of (profile t)) with
          | None => print_forever observed (profile t, payload) tr
          | Some n =>
              match print_copies n (profile t, payload) tr with
              | (tr', Returned _) => exec_targets json kblocks r tr'
              | (tr', Threw) => (tr', Threw)
              | (tr', Diverged) => (tr', Diverged)
              end
          end
      end
  end.

(** [handleMultiLanPrint(json, tag)] with [saved] for [savedPrinters]:
    the print calls made, and how the call ends. *)
Definition handleMultiLanPrint (json : value)
           (saved : list NetPrinterProfile)
  : list print_job * outcome result :=
  match data_blocks json with
  | None => ([], Threw)
  | Some blocks =>
      let cashierIps := cashier_ips blocks in
      let kitchenBlocks := kitchen_blocks blocks in
      match kitchen_entries 0 kitchenBlocks with
      | None => ([], Threw)
      | Some kitchenEntries =>
          if no_hints cashierIps kitchenEntries then
            ([], Returned {| handled := false; matched := false |})
          else
            match resolve_targets saved cashierIps kitchenEntries with
            | None => ([], Threw)
            | Some [] =>
                ([], Returned {| handled := true; matched := false |})
            | Some targets =>
                match uniqueTargets targets with
                | None => ([], Threw)
                | Some unique =>
                    match exec_targets json kitchenBlocks unique [] with
                    | (tr, Returned _) =>
                        (tr, Returned {| handled := true; matched := true |})
                    | (tr, Threw) => (tr, Threw)
                    | (tr, Diverged) => (tr, Diverged)
                    end
                end
            end
      end
  end.

End Execution.

End Routing.

(** ** The cut procedures of the transports

    [src/transports/blePrinter.ts] and the network transport. The vendor
    libraries are the environment: which optional methods a build has,
    and how each call ends. A procedure is a computation that extends the
    list of library calls made and either completes or throws. Delays
    ([sleep]) and logging are left out. *)

Module Transport.
Import JsString.

Definition bytes : Type := list Z.

Inductive cut_mode : Type := full | partial.

(** The calls into the vendor libraries. *)
Inductive call : Type :=
| PrintRawBase64 (b : bytes)
| PrintRawArray (b : bytes)
| PrintText (text : jsstring)
| CutPaper
| ClassicConnect (secure : bool)
| ClassicWrite (b : bytes)
| ClassicDisconnect.

(** A call resolves, with a truthy or a falsy value, or rejects. *)
Inductive reply : Type :=
| Resolved (truthy : bool)
| Rejected.

Record library : Type := {
  has_printRawData : bool;
  has_printText : bool;
  has_cutPaper : bool;
  has_disconnectFromDevice : bool;
  reply_to : list call -> call -> reply
}.

Inductive completion (A : Type) : Type :=
| Normal (a : A)
| Throw.
Arguments Normal {A} a.
Arguments Throw {A}.

Definition M (A : Type) : Type := list call -> list call * completion A.

Definition ret {A : Type} (a : A) : M A := fun tr => (tr, Normal a).

Definition throw {A : Type} : M A := fun tr => (tr, Throw).

Definition bind {A B : Type} (m : M A) (k : A -> M B) : M B :=
  fun tr =>
    match m tr with
    | (tr', Normal a) => k a tr'
    | (tr', Throw) => (tr', Throw)
    end.

(** [try { m } catch { h }]. *)
Definition try_catch {A : Type} (m h : M A) : M A :=
  fun tr =>
    match m tr with
    | (tr', Normal a) => (tr', Normal a)
    | (tr', Throw) => h tr'
    end.

Notation "x <- m ;; k" := (bind m (fun x => k))
  (at level 61, m at next level, right associativity).
Notation "m ;;; k" := (bind m (fun _ => k))
  (at level 61, right associativity).

Definition newline : ascii := "010"%char.

Section Procedures.

Variable lib : library.

(** [await lib.method(...)]. *)
Definition invoke (c : call) : M bool :=
  fun tr =>
    match reply_to lib tr c with
    | Resolved v => (tr ++ [c], Normal v)
    | Rejected => (tr ++ [c], Throw)
    end.

(** [lib.printText(...)] inside a [try] whose handler is empty; a build
    without the method makes the call a [TypeError] (or skips it, for
    the optional call), which the handler absorbs likewise. *)
Definition feed_text (n : nat) : M unit :=
  try_catch
    (if has_printText lib
     then invoke (PrintText (repeat newline n)) ;;; ret tt
     else ret tt)
    (ret tt).

(** The cutter sequences both transports hold, by mode. *)
Definition GS_V (mode : cut_mode) : bytes :=
  match mode with
  | full => [0x1D; 0x56; 0x00]
  | partial => [0x1D; 0x56; 0x01]
  end%Z.

Definition GS_V_A : bytes := [0x1D; 0x56; 0x41; 0x00]%Z.
Definition GS_V_B : bytes := [0x1D; 0x56; 0x42; 0x03]%Z.

Definition ESC_i_m (mode : cut_mode) : bytes :=
  match mode with
  | full => [0x1B; 0x69]
  | partial => [0x1B; 0x6D]
  end%Z.

(** *** The network transport *)

(** [NetPrinterService.printRaw(bytes)]: base64 first, then the array;
    it absorbs every failure. *)
Definition net_printRaw (b : bytes) : M unit :=
  if negb (has_printRawData lib) then ret tt
  else
    try_catch (invoke (PrintRawBase64 b) ;;; ret tt)
              (try_catch (invoke (PrintRawArray b) ;;; ret tt) (ret tt)).

(** [for (const seq of tries) { try { await this.printRaw(seq); return; } catch {} }];
    the answer tells whether the loop returned from [cut]. *)
Fixpoint net_try_sequences (tries : list bytes) : M unit :=
  match tries with
  | [] => ret tt
  | seq :: r =>
      returned <- try_catch (net_printRaw seq ;;; ret true) (ret false) ;;
      if returned then ret tt else net_try_sequences r
  end.

Definition net_tries (mode : cut_mode) : list bytes :=
  [GS_V mode; GS_V_B; ESC_i_m mode].

(** [NetPrinterService.cut(mode)]. *)
Definition net_cut (mode : cut_mode) : M unit :=
  try_catch (net_printRaw [0x1B; 0x64; 0x03]%Z) (ret tt) ;;;
  feed_text 3 ;;;
  returned <-
    (if has_cutPaper lib
     then try_catch (invoke CutPaper ;;; ret true) (ret false)
     else ret false) ;;
  if returned then ret tt else net_try_sequences (net_tries mode).

(** *** The Bluetooth transport *)

(** [tryBleRaw(bytes)]: whether one of the two forms was sent. *)
Definition tryBleRaw (b : bytes) : M bool :=
  if negb (has_printRawData lib) then ret false
  else
    try_catch (invoke (PrintRawBase64 b) ;;; ret true)
              (try_catch (invoke (PrintRawArray b) ;;; ret true) (ret false)).

(** [sendClassicOnce(bytes)] for the address [mac] the service holds:
    connect (secure, then insecure), write, and disconnect in any case. *)
Definition sendClassicOnce (mac : option jsstring) (b : bytes) : M bool :=
  match mac with
  | Some (_ :: _) =>
      ok <- try_catch
              (conn <- try_catch (invoke (ClassicConnect true)) (ret false) ;;
               conn <- (if conn then ret true
                        else invoke (ClassicConnect false)) ;;
               if conn then invoke (ClassicWrite b) ;;; ret true
               else throw)
              (ret false) ;;
      try_catch (if has_disconnectFromDevice lib
                 then invoke ClassicDisconnect ;;; ret tt
                 else ret tt)
                (ret tt) ;;;
      ret ok
  | _ => ret false
  end.

(** A loop that returns from [cut] at the first sequence sent. *)
Fixpoint first_sent (send : bytes -> M bool) (sequences : list bytes)
  : M bool :=
  match sequences with
  | [] => ret false
  | seq :: r =>
      ok <- send seq ;;
      if ok then ret true else first_sent send r
  end.

Definition ble_sequences (mode : cut_mode) : list bytes :=
  [GS_V mode; GS_V_A; GS_V_B; ESC_i_m mode].

(** [BLEPrinterService.cut(mode)]. *)
Definition ble_cut (mac : option jsstring) (mode : cut_mode) : M unit :=
  fed <- tryBleRaw [0x1B; 0x64; 0x05]%Z ;;
  (if fed then ret tt else feed_text 5) ;;;
  sent <- first_sent tryBleRaw (ble_sequences mode) ;;
  if sent then ret tt
  else first_sent (sendClassicOnce mac) (ble_sequences mode) ;;; ret tt.

End Procedures.

End Transport.

(** ** The [Math] functions and integer conversions the code applies *)

Module JsMath.
Import JsString JsNumber.

(** [a <= b] on numbers. *)
Definition num_le (a b : number) : bool := SFleb a b.

(** [Math.max(a, b)]: [NaN] if either is; [+0] counts as larger than [-0]. *)
Definition Math_max (a b : number) : number :=
  match a, b with
  | S754_nan, _ | _, S754_nan => NaN
  | _, _ =>
      match SFcompare a b with
      | Some Lt => b
      | Some Gt => a
      | _ => match a with
             | S754_zero true => b
             | _ => a
             end
      end
  end.

(** [Math.min(a, b)]. *)
Definition Math_min (a b : number) : number :=
  match a, b with
  | S754_nan, _ | _, S754_nan => NaN
  | _, _ =>
      match SFcompare a b with
      | Some Lt => a
      | Some Gt => b
      | _ => match a with
             | S754_zero false => b
             | _ => a
             end
      end
  end.

(** [Math.round(x)]: the nearest integer, a tie going up; a result that
    is zero keeps the sign of [x]. *)
Definition Math_round (x : number) : number :=
  match x with
  | S754_finite s m e =>
      if (0 <=? e)%Z then x
      else
        let n := (if s then Zneg m else Zpos m) in
        let d := (2 ^ (- e))%Z in
        let r := ((2 * n + d) / (2 * d))%Z in
        if (r =? 0)%Z then S754_zero s else of_Z r
  | _ => x
  end.

(** The integer part of a finite number, and [0] for the others. *)
Definition truncate (x : number) : Z :=
  match x with
  | S754_finite s m e =>
      let q := (numerator m e / denominator e)%Z in
      if s then (- q)%Z else q
  | _ => 0%Z
  end.

(** [ToInt32(x)], the conversion the bit operators apply. *)
Definition ToInt32 (x : number) : Z :=
  ((truncate x + 2 ^ 31) mod 2 ^ 32 - 2 ^ 31)%Z.

(** [clamp(n, lo, hi)]. *)
Definition clamp (n lo hi : number) : number :=
  Math_max lo (Math_min hi n).

End JsMath.

(** ** More of the receipt renderer: rows, tables and line blocks *)

Module Layout.
Import JsString JsNumber JsValue JsMath Renderer.

(** [s.slice(0, e)] for any integer [e]: a negative end counts from the
    end of [s]. *)
Definition slice_to (s : jsstring) (e : Z) : jsstring :=
  if (e <? 0)%Z
  then firstn (Z.to_nat (Z.max 0 (Z.of_nat (length s) + e))) s
  else firstn (Z.to_nat e) s.

(** [cpad(s, len)]: centre [s] in [len] columns, or clip it. *)
Definition cpad (s : jsstring) (len : Z) : jsstring :=
  if (len <=? Z.of_nat (length s))%Z then slice_to s len
  else
    let total := (len - Z.of_nat (length s))%Z in
    let left := (total / 2)%Z in
    let right := (total - left)%Z in
    spaces (Z.to_nat left) ++ s ++ spaces (Z.to_nat right).

(** [twoCols(left, right, width)]. *)
Definition twoCols (left right : jsstring) (width : Z) : jsstring :=
  let rightLen := Z.of_nat (length right) in
  let maxLeft := Z.max 0 (width - rightLen - 1) in
  let lt := slice left 0 (Z.to_nat (Z.max 0 maxLeft)) in
  let lt :=
    if (maxLeft <? Z.of_nat (length left))%Z && (3 <? maxLeft)%Z
    then slice left 0 (Z.to_nat (maxLeft - 3)) ++ str "..."
    else lt in
  let n := Z.max 1 (width - Z.of_nat (length lt) - rightLen) in
  lt ++ spaces (Z.to_nat n) ++ right.

(** [twoColsCentered(left, right, width)]. *)
Definition twoColsCentered (left right : jsstring) (width : Z) : jsstring :=
  let gap := 1%Z in
  let leftW := ((width - gap) / 2)%Z in
  let rightW := (width - gap - leftW)%Z in
  cpad left leftW ++ spaces (Z.to_nat gap) ++ cpad right rightW.

(** [hr(w)]; [repeat] takes the integer part of its count, and [0] for
    [NaN]. *)
Definition hr (w : number) : jsstring :=
  repeat "-"%char (Z.to_nat (truncate (clamp w (of_Z 8) (of_Z 64)))).

(** *** The width of a line in characters *)

(** [data.find((b) => b.type === 'setting')]: reading [type] of a [null]
    or [undefined] element throws ([None]); [Some VUndefined] when no
    element passes. *)
Fixpoint find_setting (l : list value) : option value :=
  match l with
  | [] => Some VUndefined
  | b :: r =>
      if nullish b then None
      else if Routing.has_type (str "setting") b then Some b
      else find_setting r
  end.

(** [json?.data?.find(...)?.data ?? {}]: a [data] that is neither absent
    nor an array has no [find], and the call throws. *)
Definition setting_of (json : value) : option value :=
  match get_prop json (str "data") with
  | VUndefined | VNull => Some (VObj [])
  | VArr l =>
      match find_setting l with
      | Some b => Some (coalesce (get_prop b (str "data")) (VObj []))
      | None => None
      end
  | _ => None
  end.

(** [json?.item_length ?? setting.item_length]. *)
Definition item_length_of (json setting : value) : value :=
  coalesce (get_prop json (str "item_length"))
           (get_prop setting (str "item_length")).

(** [bestCharsPerLine(widthDots, json)]. *)
Definition bestCharsPerLine (widthDots : number) (json : value)
  : option number :=
  match setting_of json with
  | None => None
  | Some setting =>
      match toInt (item_length_of json setting) pzero with
      | None => None
      | Some fromJson =>
          if num_lt pzero fromJson
          then Some (clamp fromJson (of_Z 24) (of_Z 64))
          else
            let byDots :=
              Math_round (num_div (if num_truthy widthDots then widthDots
                                   else of_Z 576)
                                  (of_Z 12)) in
            Some (clamp byDots (of_Z 24) (of_Z 64))
      end
  end.

(** [getCharWidth(json)]. *)
Definition getCharWidth (json : value) : option number :=
  match setting_of json with
  | None => None
  | Some setting =>
      match toInt (item_length_of json setting) (of_Z 35) with
      | None => None
      | Some w => Some (clamp w (of_Z 24) (of_Z 64))
      end
  end.

(** *** The item table *)

Definition ITEM_NAME_WRAP : Z := 30.

(** The empty Qty, Price and Amount cells of a continuation row. *)
Definition blank_cells (c : cols) : jsstring :=
  [space] ++ spaces (Z.to_nat (qty c))
    ++ [space] ++ spaces (Z.to_nat (price c))
    ++ [space] ++ spaces (Z.to_nat (amount c)).

(** The header row of the table. *)
Definition header_row (c : cols) : jsstring :=
  rpad (str "Item") (Z.to_nat (item c))
    ++ [space] ++ rAlign (str "Qty") (Z.to_nat (qty c))
    ++ [space] ++ rAlign (str "Price") (Z.to_nat (price c))
    ++ [space] ++ rAlign (str "Amount") (Z.to_nat (amount c)).

(** The first row of an item: name, quantity, unit price and amount. *)
Definition main_row (c : cols) (first : jsstring) (q u t : number)
  : jsstring :=
  rpad first (Z.to_nat (item c))
    ++ [space] ++ rAlign (Number_toString q) (Z.to_nat (qty c))
    ++ [space] ++ rAlign (formatMoney u) (Z.to_nat (price c))
    ++ [space] ++ rAlign (formatMoney t) (Z.to_nat (amount c)).

(** [wrap(String(v), width)]; the conversion may throw. *)
Definition wrap_value (v : value) (width : nat) : option (list jsstring) :=
  match ToString v with
  | Some text => wrap text width
  | None => None
  end.

(** The rows one iteration of [for (const it of items)] pushes. Reading
    a property of a [null] or [undefined] item throws ([None]), and so
    do the conversion of a field that [String] or [Number] cannot
    convert and a [wrap] that does not return. *)
Definition item_rows (c : cols) (it : value) : option (list jsstring) :=
  if nullish it then None
  else
    match ToString (coalesce (get_prop it (str "item_name")) (VStr [])),
          qtyN it, lineTotal it, unitPrice it with
    | Some name, Some q, Some t, Some u =>
        let nameWrap := Z.min (item c) ITEM_NAME_WRAP in
        match wrap name (Z.to_nat nameWrap) with
        | None => None
        | Some lines =>
            let first := match lines with
                         | l :: _ => if str_truthy l then l else []
                         | [] => []
                         end in
            let rows :=
              main_row c first q u t
                :: map (fun tail => rpad tail (Z.to_nat (item c))
                                      ++ blank_cells c)
                       (tl lines) in
            let sub := get_prop it (str "item_subLine") in
            if truthy sub then
              match wrap_value sub (Z.to_nat (Z.max 4 (item c - 2))) with
              | None => None
              | Some ss =>
                  Some (rows
                          ++ map (fun s => rpad (str "  " ++ s)
                                                (Z.to_nat (item c))
                                             ++ blank_cells c)
                                 ss)
              end
            else Some rows
        end
    | _, _, _, _ => None
    end.

(** [Array.isArray(data?.itemdata) ? data.itemdata : []] for
    [data = block?.data ?? {}]. *)
Definition table_items (block : value) : list value :=
  let data := coalesce (get_prop block (str "data")) (VObj []) in
  match get_prop data (str "itemdata") with
  | VArr l => l
  | _ => []
  end.

(** The lines [buf] holds when an [item] block has been laid out for a
    line of [total] characters. *)
Definition item_table (block : value) (total : Z)
  : option (list jsstring) :=
  let c := computeCols total in
  match Routing.collect (item_rows c) (table_items block) with
  | Some rows => Some (header_row c :: rows)
  | None => None
  end.

(** *** Blocks of lines *)

Definition newline : ascii := "010"%char.

(** [ls.join('\n')]. *)
Fixpoint join_lines (ls : list jsstring) : jsstring :=
  match ls with
  | [] => []
  | l :: r =>
      match r with
      | [] => l
      | _ :: _ => l ++ newline :: join_lines r
      end
  end.

(** [s.startsWith(p)]. *)
Fixpoint starts_with (p s : jsstring) : bool :=
  match p, s with
  | [], _ => true
  | a :: p', b :: s' => Ascii.eqb a b && starts_with p' s'
  | _ :: _, [] => false
  end.

Section Alignment.

(** The inline alignment tokens of the printer library. *)
Variables CENTER LEFT RIGHT : jsstring.

(** [centerBlock(text)]. *)
Definition centerBlock (text : jsstring) : jsstring :=
  join_lines (map (fun l => if str_truthy l then CENTER ++ l else [])
                  (split_on newline text)).

Definition SOFT_MARGIN_CH : nat := 2.

(** The callback of [padLines]. *)
Definition pad_line (l : jsstring) : jsstring :=
  let pad := spaces SOFT_MARGIN_CH in
  if negb (str_truthy l) then l
  else if starts_with CENTER l then CENTER ++ pad ++ skipn (length CENTER) l
  else if starts_with RIGHT l then RIGHT ++ pad ++ skipn (length RIGHT) l
  else if starts_with LEFT l then LEFT ++ pad ++ skipn (length LEFT) l
  else pad ++ l.

(** [padLines(text)]. *)
Definition padLines (text : jsstring) : jsstring :=
  join_lines (map pad_line (split_on newline text)).

End Alignment.

(** *** Kitchen-only payloads *)

(** [getKitchenBlockIfOnly(payload)]; [VNull] is the [null] answer. *)
Definition getKitchenBlockIfOnly (payload : value) : value :=
  match get_prop payload (str "data") with
  | VArr [b] =>
      if Routing.has_type (str "kitchen_print") b then b else VNull
  | _ => VNull
  end.

(** [asKitchenItems(kb)]. *)
Definition asKitchenItems (kb : value) : list value :=
  match get_prop (get_prop kb (str "data")) (str "itemdata") with
  | VArr l => l
  | _ => []
  end.

End Layout.

(** ** Procedures over other environments

    The same computations as in [Transport], for any type of calls: a
    procedure extends the list of calls made and completes or throws. *)

Module Effect.

Definition M (E A : Type) : Type := list E -> list E * Transport.completion A.

Definition ret {E A : Type} (a : A) : M E A :=
  fun tr => (tr, Transport.Normal a).

Definition throw {E A : Type} : M E A := fun tr => (tr, Transport.Throw).

Definition bind {E A B : Type} (m : M E A) (k : A -> M E B) : M E B :=
  fun tr =>
    match m tr with
    | (tr', Transport.Normal a) => k a tr'
    | (tr', Transport.Throw) => (tr', Transport.Throw)
    end.

(** [try { m } catch { h }]. *)
Definition try_catch {E A : Type} (m h : M E A) : M E A :=
  fun tr =>
    match m tr with
    | (tr', Transport.Normal a) => (tr', Transport.Normal a)
    | (tr', Transport.Throw) => h tr'
    end.

(** [await f(...)] for a call [c] that the environment [ok] lets resolve
    or reject, given the calls made before. *)
Definition call {E : Type} (ok : list E -> E -> bool) (c : E) : M E unit :=
  fun tr =>
    (tr ++ [c], if ok tr c then Transport.Normal tt else Transport.Throw).

Module Notations.
Notation "x <- m ;; k" := (bind m (fun x => k))
  (at level 61, m at next level, right associativity).
Notation "m ;;; k" := (bind m (fun _ => k))
  (at level 61, right associativity).
End Notations.

End Effect.

(** ** The cut helpers of the renderer ([src/services/image.ts]) *)

Module Cutting.
Import Effect Effect.Notations.

(** The calls on the transport [p] handed to the helpers. *)
Inductive op : Type :=
| Cut
| PrintRaw (b : Transport.bytes).

(** The transport: which of the optional methods it has, and whether a
    call resolves. *)
Record device : Type := {
  has_cut : bool;
  has_printRaw : bool;
  accepts : list op -> op -> bool
}.

Section Helpers.

Variable p : device.

(** The loop of [cutWithFallback]:
    [for (const seq of tries)
       { try { await p.printRaw?.(seq); return; } catch {} }]. *)
Fixpoint try_raw (tries : list Transport.bytes) : M op unit :=
  match tries with
  | [] => ret tt
  | seq :: r =>
      returned <- try_catch (call (accepts p) (PrintRaw seq) ;;; ret true)
                            (ret false) ;;
      if returned then ret tt else try_raw r
  end.

Definition tries : list Transport.bytes :=
  [[0x1B; 0x69]; [0x1B; 0x6D]; [0x1D; 0x56; 0x00]; [0x1D; 0x56; 0x01];
   [0x1D; 0x56; 0x42; 0x03]]%Z.

(** [cutWithFallback(p)]. *)
Definition cutWithFallback : M op unit :=
  returned <-
    (if has_cut p
     then try_catch (call (accepts p) Cut ;;; ret true) (ret false)
     else ret false) ;;
  if returned then ret tt
  else if negb (has_printRaw p) then ret tt
  else try_raw tries.

End Helpers.

End Cutting.

(** ** One print job on a stored printer ([printToSingleNetProfile]) *)

Module NetJob.
Import JsString JsNumber JsValue Prefs Effect Effect.Notations.

(** The calls of a job: on the vendor library, through
    [NetPrinterService], and the rendering of the receipt. *)
Inductive step : Type :=
| Init
| Connect (host : jsstring) (port : number)
| Render (payload : value) (widthDots : number)
| CloseConn.

(** The library build and the network: which methods exist, and
    whether a call resolves. *)
Record network : Type := {
  has_init : bool;
  has_connectPrinter : bool;
  has_closeConn : bool;
  answers : list step -> step -> bool
}.

Section Job.

Variable net : network.

(** [lan.init()]. *)
Definition lan_init : M step unit :=
  if has_init net then call (answers net) Init else ret tt.

(** [lan.connect({ host, port })]. *)
Definition lan_connect (h : jsstring) (p : number) : M step unit :=
  if negb (has_connectPrinter net) then throw
  else call (answers net) (Connect h p).

(** [lan.disconnect()]. *)
Definition lan_disconnect : M step unit :=
  if has_closeConn net
  then try_catch (call (answers net) CloseConn) (ret tt)
  else ret tt.

(** [printToSingleNetProfile(profile, payload, tag)]. *)
Definition printToSingleNetProfile (profile : NetPrinterProfile)
           (payload : value) : M step unit :=
  let h := host profile in
  let p := positive_or (port profile) DEFAULT_NET_PORT in
  let w := match widthDots profile with
           | Some w =>
               if num_eq w (of_Z 384) || num_eq w (of_Z 576) then w
               else DEFAULT_WIDTH_DOTS
           | None => DEFAULT_WIDTH_DOTS
           end in
  lan_init ;;;
  lan_connect h p ;;;
  try_catch (call (answers net) (Render payload w))
            (lan_init ;;;
             lan_connect h p ;;;
             call (answers net) (Render payload w)) ;;;
  lan_disconnect.

End Job.

End NetJob.

(** ** The network transport over its own socket
    ([src/transports/netPrinter.ts]) *)

Module NetTcp.
Import JsString JsNumber Effect Effect.Notations.

Inductive io : Type :=
| SdkCloseConn
| TcpSend (host : jsstring) (port : number) (b : Transport.bytes)
| SdkRawBase64 (b : Transport.bytes)
| SdkRawArray (b : Transport.bytes).

Record environment : Type := {
  has_closeConn : bool;
  has_printRawData : bool;
  resolves : list io -> io -> bool
}.

Section Service.

Variable env : environment.

(** The fields [_host] and [_port] of the service. *)
Variable _host : option jsstring.
Variable _port : number.

(** [sendTcpBytes(bytes)]: nothing is sent while no host or port is set. *)
Definition sendTcpBytes (b : Transport.bytes) : M io unit :=
  match _host with
  | Some (c :: h) =>
      if num_truthy _port then call (resolves env) (TcpSend (c :: h) _port b)
      else ret tt
  | _ => ret tt
  end.

(** [printRaw(bytes)]. *)
Definition printRaw (b : Transport.bytes) : M io unit :=
  if negb (has_printRawData env) then ret tt
  else
    try_catch (call (resolves env) (SdkRawBase64 b))
              (try_catch (call (resolves env) (SdkRawArray b)) (ret tt)).

(** [cut(mode)]. *)
Definition cut (mode : Transport.cut_mode) : M io unit :=
  try_catch (if has_closeConn env then call (resolves env) SdkCloseConn
             else ret tt)
            (ret tt) ;;;
  try_catch (sendTcpBytes [0x0a; 0x0a; 0x0a; 0x0a; 0x0a]%Z) (ret tt) ;;;
  let cmd := Transport.GS_V mode in
  try_catch (sendTcpBytes cmd) (try_catch (printRaw cmd) (ret tt)).

End Service.

End NetTcp.

(** ** The image width of the Bluetooth transport *)

Module BleImage.
Import JsNumber JsMath.

(** The width [printImageBase64] passes on:
    [Math.max(8, (opts?.imageWidth ?? 0) & ~7)]. *)
Definition image_width (imageWidth : option number) : Z :=
  Z.max 8 (Z.land (ToInt32 match imageWidth with
                           | Some w => w
                           | None => pzero
                           end)
                  (Z.lnot 7)).

End BleImage.

(** ** The stored preferences ([src/services/prefs.ts]) *)

Module PrefsFile.
Import JsString JsNumber JsValue.

(** [Prefs]; every field may be absent. *)
Record Prefs : Type := {
  btAddress : option jsstring;
  btName : option jsstring;
  ip : option jsstring;
  port : option number;
  webUrl : option jsstring;
  netPrinters : option (list Prefs.NetPrinterProfile);
  enableMultiNet : option bool
}.

(** The object [{}]. *)
Definition no_prefs : Prefs :=
  {| btAddress := None; btName := None; ip := None; port := None;
     webUrl := None; netPrinters := None; enableMultiNet := None |}.

(** The profile the migration seeds from the legacy [ip] and [port]. *)
Definition seeded (h : jsstring) (p : option number)
  : Prefs.NetPrinterProfile :=
  {| Prefs.name := Some (str "Default");
     Prefs.host := h;
     Prefs.port := Some (Prefs.positive_or p Prefs.DEFAULT_NET_PORT);
     Prefs.widthDots := Some Prefs.DEFAULT_WIDTH_DOTS;
     Prefs.enabled := Some true;
     Prefs.copies := Some (of_Z 1);
     Prefs.isDefault := Some true |}.

(** [normalizePrefs(raw)]; [None] stands for a [raw] that is not an
    object. *)
Definition normalizePrefs (raw : option Prefs) : Prefs :=
  let prefs := match raw with
               | Some r => r
               | None => no_prefs
               end in
  let flag := match enableMultiNet prefs with
              | Some b => b
              | None => false
              end in
  let printers := match netPrinters prefs with
                  | Some l => l
                  | None => []
                  end in
  let printers :=
    match printers, ip prefs with
    | [], Some (c :: h) => [seeded (c :: h) (port prefs)]
    | _, _ => printers
    end in
  {| btAddress := btAddress prefs;
     btName := btName prefs;
     ip := ip prefs;
     port := port prefs;
     webUrl := webUrl prefs;
     netPrinters := Some (map Prefs.normalizeProfile printers);
     enableMultiNet := Some flag |}.

(** [getNetPrinters()], for the preferences [raw] that [readPrefs]
    parses from the file ([None] when there is no readable object). *)
Definition getNetPrinters (raw : option Prefs)
  : list Prefs.NetPrinterProfile :=
  match netPrinters (normalizePrefs raw) with
  | Some l => l
  | None => []
  end.

(** [setNetPrinters(list)]: the object that [writePrefs] then hands to
    the file, the preferences read being [raw]. *)
Definition setNetPrinters (saved : list Prefs.NetPrinterProfile)
           (raw : option Prefs) : Prefs :=
  let curr := normalizePrefs raw in
  normalizePrefs
    (Some {| btAddress := btAddress curr;
             btName := btName curr;
             ip := ip curr;
             port := port curr;
             webUrl := webUrl curr;
             netPrinters := Some (map Prefs.normalizeProfile saved);
             enableMultiNet := enableMultiNet curr |}).

(** [resolveSavedPrinterByIpToken(ipToken)] on the stored preferences. *)
Definition resolveSavedPrinterByIpToken (ipToken : jsstring)
           (raw : option Prefs) : option Prefs.NetPrinterProfile :=
  match Prefs.parseIpToken ipToken with
  | None => None
  | Some (h, port_opt) =>
      find (Prefs.token_matches h port_opt) (getNetPrinters raw)
  end.

End PrefsFile.

(** ** The number conversions on known values *)

Module JsNumberSpec.
Import JsString JsNumber JsValue.

Example number_of_port : StringToNumber (str " 9100 ") = of_Z 9100.
Proof. vm_compute. reflexivity. Qed.

Example number_of_hex : StringToNumber (str "0x238C") = of_Z 9100.
Proof. vm_compute. reflexivity. Qed.

Example number_of_exponent : StringToNumber (str "9.1e3") = of_Z 9100.
Proof. vm_compute. reflexivity. Qed.

Example number_of_empty : StringToNumber (str "") = pzero.
Proof. vm_compute. reflexivity. Qed.

Example number_of_text : StringToNumber (str "12px") = NaN.
Proof. vm_compute. reflexivity. Qed.

Example number_of_tenth :
  StringToNumber (str "0.1") = S754_finite false 7205759403792794 (-56).
Proof. vm_compute. reflexivity. Qed.

Example number_of_tie :
  StringToNumber (str "9007199254740993") = of_Z 9007199254740992.
Proof. vm_compute. reflexivity. Qed.

Example number_overflows :
  StringToNumber (str "1.7976931348623159e308") = S754_infinity false.
Proof. vm_compute. reflexivity. Qed.

Example string_of_port : Number_toString (of_Z 9100) = str "9100".
Proof. vm_compute. reflexivity. Qed.

Example string_of_third :
  Number_toString (num_div (of_Z 1) (of_Z 3)) = str "0.3333333333333333".
Proof. vm_compute. reflexivity. Qed.

Example string_of_sum :
  Number_toString (StringToNumber (str "0.30000000000000004"))
  = str "0.30000000000000004".
Proof. vm_compute. reflexivity. Qed.

Example string_of_small :
  Number_toString (StringToNumber (str "0.0000001")) = str "1e-7".
Proof. vm_compute. reflexivity. Qed.

Example string_of_least :
  Number_toString (S754_finite false 1 (-1074)) = str "5e-324".
Proof. vm_compute. reflexivity. Qed.

Example string_of_large :
  Number_toString (StringToNumber (str "123456789012345678901234567890"))
  = str "1.2345678901234568e+29".
Proof. vm_compute. reflexivity. Qed.

Example string_of_1e21 : Number_toString (of_Z (10 ^ 21)) = str "1e+21".
Proof. vm_compute. reflexivity. Qed.

Example string_of_negative :
  Number_toString (StringToNumber (str "-3.14159")) = str "-3.14159".
Proof. vm_compute. reflexivity. Qed.

Example fixed_rounds_exact_value_down :
  toFixed2 (StringToNumber (str "1.005")) = str "1.00".
Proof. vm_compute. reflexivity. Qed.

Example fixed_rounds_exact_value_up :
  toFixed2 (StringToNumber (str "8.345")) = str "8.35".
Proof. vm_compute. reflexivity. Qed.

Example fixed_keeps_sign_of_small :
  toFixed2 (StringToNumber (str "-0.001")) = str "-0.00".
Proof. vm_compute. reflexivity. Qed.

Example fixed_below_1e21 :
  toFixed2 (of_Z (10 ^ 20)) = str "100000000000000000000.00".
Proof. vm_compute. reflexivity. Qed.

End JsNumberSpec.

(** ** The conversions of a document value *)

Module JsValueSpec.
Import JsString JsNumber JsValue.

(** *** Vocabulary *)

(** The values that [String] and [Number] cannot convert: an object that
    has a property [toString] of its own, and an array with such an
    element, at any depth. *)
Fixpoint raises (v : value) : bool :=
  match v with
  | VObj fields => has_own (str "toString") fields
  | VArr l => existsb raises l
  | _ => false
  end.

(** An object that hides the [toString] it would inherit. *)
Definition shadowed : value := VObj [(str "toString", VNum (of_Z 1))].

Example string_of_array :
  ToString (VArr [VNum (of_Z 1); VNull; VStr (str "a")])
  = Some (str "1,,a").
Proof. vm_compute. reflexivity. Qed.

Example string_of_object :
  ToString (VObj [(str "valueOf", VNum (of_Z 1))])
  = Some (str "[object Object]").
Proof. vm_compute. reflexivity. Qed.

Example string_of_shadowed : ToString shadowed = None.
Proof. reflexivity. Qed.

Example number_of_shadowed_element :
  ToNumber (VArr [VArr [shadowed]]) = None.
Proof. reflexivity. Qed.

Example number_of_array :
  ToNumber (VArr [VStr (str "12")]) = Some (of_Z 12).
Proof. vm_compute. reflexivity. Qed.

Lemma value_induction (P : value -> Prop) :
  P VUndefined -> P VNull -> (forall b, P (VBool b)) ->
  (forall x, P (VNum x)) -> (forall s, P (VStr s)) ->
  (forall l, Forall P l -> P (VArr l)) ->
  (forall fields, P (VObj fields)) ->
  forall v, P v.
Proof.
  intros Hu Hn Hb Hx Hs Ha Ho. fix IH 1. intros v.
  destruct v as [| |b|x|s|l|fields];
    [exact Hu|exact Hn|apply Hb|apply Hx|apply Hs| |apply Ho].
  apply Ha. induction l as [|a l IHl]; constructor; [apply IH|exact IHl].
Qed.

Lemma raises_nullish v : nullish v = true -> raises v = false.
Proof. destruct v; try discriminate; reflexivity. Qed.

Lemma join_elements_none conv l :
  join_elements conv l = None
  <-> exists x, In x l /\ nullish x = false /\ conv x = None.
Proof.
  induction l as [|a l IH]; [simpl; split; [discriminate|intros (x & [] & _)]|].
  cbn [join_elements].
  destruct (if nullish a then Some [] else conv a) as [s|] eqn:Ea.
  - assert (Hrest : l <> [] \/ l = []) by (destruct l; [right|left]; congruence).
    assert (Ha : ~ (nullish a = false /\ conv a = None)).
    { intros [H1 H2]. rewrite H1, H2 in Ea. discriminate. }
    destruct l as [|b l].
    + split; [discriminate|]. intros (x & [<-|[]] & H1 & H2). tauto.
    + fold (join_elements conv (b :: l)).
      destruct (join_elements conv (b :: l)) as [t|].
      * split; [discriminate|]. intros (x & [<-|Hx] & H1 & H2); [tauto|].
        destruct IH as [_ IH]. discriminate IH. eauto.
      * split; [|reflexivity]. intros _.
        destruct IH as [IH _]. destruct (IH eq_refl) as (x & Hx & H).
        exists x. split; [now right|exact H].
  - split; [|reflexivity]. intros _. exists a.
    destruct (nullish a); [discriminate|]. split; [now left|auto].
Qed.

(** [String(v)] throws exactly for the values that [raises] describes. *)
Lemma ToString_raises v : ToString v = None <-> raises v = true.
Proof.
  induction v as [| |b|x|s|l IH|fields] using value_induction;
    try (simpl; split; discriminate).
  - destruct b; simpl; split; discriminate.
  - cbn [ToString raises]. rewrite join_elements_none, existsb_exists.
    rewrite Forall_forall in IH. split.
    + intros (x & Hx & _ & Hc). exists x. split; [exact Hx|].
      now apply IH.
    + intros (x & Hx & Hr). exists x. split; [exact Hx|]. split.
      * destruct (nullish x) eqn:E; [|reflexivity].
        rewrite (raises_nullish x E) in Hr. discriminate.
      * now apply IH.
  - cbn [ToString raises].
    destruct (has_own (str "toString") fields); split;
      try discriminate; reflexivity.
Qed.

Lemma ToString_defined v :
  raises v = false -> exists s, ToString v = Some s.
Proof.
  intros H. destruct (ToString v) as [s|] eqn:E; [eauto|].
  apply ToString_raises in E. congruence.
Qed.

(** [Number(v)] throws for the same values. *)
Lemma ToNumber_raises v : ToNumber v = None <-> raises v = true.
Proof.
  destruct v as [| |b|x|s|l|fields]; try (simpl; split; discriminate).
  - destruct b; simpl; split; discriminate.
  - rewrite <- ToString_raises. unfold ToNumber.
    destruct (ToString (VArr l)); simpl; split; try discriminate; reflexivity.
  - rewrite <- ToString_raises. unfold ToNumber.
    destruct (ToString (VObj fields)); simpl; split;
      try discriminate; reflexivity.
Qed.

Lemma ToNumber_defined v :
  raises v = false -> exists x, ToNumber v = Some x.
Proof.
  intros H. destruct (ToNumber v) as [x|] eqn:E; [eauto|].
  apply ToNumber_raises in E. congruence.
Qed.

End JsValueSpec.

(** ** Properties of the layout helpers *)

Module RendererSpec.
Import JsString JsNumber JsValue Renderer JsValueSpec.

(** *** Vocabulary *)

(** The words of a string: the non-empty pieces between spaces. *)
Definition words (s : jsstring) : list jsstring :=
  filter str_truthy (split_on space s).

(** Every pushed line and the current line fit the width. *)
Definition bounded_state (W : nat) (st : wrap_state) : Prop :=
  Forall (fun l => length l <= W) (fst st) /\ length (snd st) <= W.

(** The words held by a loop state, in output order. *)
Definition state_words (st : wrap_state) : list jsstring :=
  flat_map words (fst st) ++ words (snd st).

(** A group [p] of consecutive output words rebuilds the input word [w]:
    the group concatenates to [w], and is [w] alone when [w] fits. *)
Definition rebuilds (W : nat) (w : jsstring) (p : list jsstring) : Prop :=
  concat p = w /\ (length w <= W -> p = [w]).

Definition is_digit (c : ascii) : bool :=
  let n := nat_of_ascii c in (48 <=? n) && (n <=? 57).

(** The characters of a finite amount: digits, point, signs, exponent. *)
Definition money_char (c : ascii) : bool :=
  is_digit c || Ascii.eqb c "." || Ascii.eqb c "-" || Ascii.eqb c "+"
  || Ascii.eqb c "e".

(** An optional minus sign, at least one digit, a point, two digits. *)
Definition two_decimals (s : jsstring) : Prop :=
  exists sign ip d1 d2,
    s = sign ++ ip ++ ["."%char; d1; d2]
    /\ (sign = [] \/ sign = str "-")
    /\ ip <> []
    /\ Forall (fun c => is_digit c = true) ip
    /\ is_digit d1 = true /\ is_digit d2 = true.

Definition is_zero (x : number) : bool :=
  match x with
  | S754_zero _ => true
  | _ => false
  end.

(** A finite number of magnitude below [10^21]. *)
Definition below_1e21 (n : number) : bool :=
  match n with
  | S754_zero _ => true
  | S754_finite _ m e => negb (magnitude_ge m e (10 ^ 21))
  | S754_infinity _ | S754_nan => false
  end.

Definition coffee : value :=
  VObj [(str "item_name", VStr (str "Coffee"));
        (str "quantity", VNum (of_Z 2));
        (str "item_amount", VNum (of_Z 6))].

(** The field that the line total is read from. *)
Definition total_field (it : value) : value :=
  coalesce (coalesce (get_prop it (str "item_amount"))
                     (get_prop it (str "price")))
           (VNum pzero).

Example wrap_hello :
  wrap (str "alpha beta gamma") 10 = Some [str "alpha beta"; str "gamma"].
Proof. reflexivity. Qed.

Example wrap_long_word :
  wrap (str "ab abcdefghij c") 4
  = Some [str "ab"; str "abcd"; str "efgh"; str "ij"; str "c"].
Proof. reflexivity. Qed.

Example wrap_keeps_inner_spaces :
  wrap (str " a  b ") 8 = Some [str "a  b "].
Proof. reflexivity. Qed.

(** *** Splitting *)

Lemma split_on_not_nil c s : split_on c s <> [].
Proof.
  destruct s as [|a s]; simpl; [discriminate|].
  destruct (Ascii.eqb a c); [discriminate|].
  destruct (split_on c s); discriminate.
Qed.

Lemma split_on_sep_free c s :
  Forall (fun w => ~ In c w) (split_on c s).
Proof.
  induction s as [|a s IH]; simpl.
  - constructor; [intros []|constructor].
  - destruct (Ascii.eqb a c) eqn:E.
    + constructor; [intros []|exact IH].
    + destruct (split_on c s) as [|w ws].
      * constructor; [|constructor].
        intros [H|[]]. subst a. rewrite Ascii.eqb_refl in E. discriminate.
      * inversion IH as [|? ? Hw Hws]; subst.
        constructor; [|exact Hws].
        intros [H|H]; [|exact (Hw H)].
        subst a. rewrite Ascii.eqb_refl in E. discriminate.
Qed.

Lemma split_on_app_sep c a b :
  split_on c (a ++ c :: b) = split_on c a ++ split_on c b.
Proof.
  induction a as [|x a IH]; simpl.
  - rewrite Ascii.eqb_refl. reflexivity.
  - destruct (Ascii.eqb x c); rewrite IH; [reflexivity|].
    destruct (split_on c a) as [|w ws] eqn:E; [|reflexivity].
    exfalso. exact (split_on_not_nil c a E).
Qed.

Lemma split_on_no_sep c w : ~ In c w -> split_on c w = [w].
Proof.
  induction w as [|x w IH]; simpl; intros H; [reflexivity|].
  destruct (Ascii.eqb x c) eqn:E.
  - apply Ascii.eqb_eq in E. subst x. exfalso. apply H. now left.
  - rewrite IH; [reflexivity|]. intros Hin. apply H. now right.
Qed.

Lemma words_nil : words [] = [].
Proof. reflexivity. Qed.

Lemma words_app_space a b :
  words (a ++ [space] ++ b) = words a ++ words b.
Proof.
  unfold words. simpl. rewrite split_on_app_sep. apply filter_app.
Qed.

Lemma words_single w :
  ~ In space w -> words w = if str_truthy w then [w] else [].
Proof.
  intros H. unfold words. rewrite (split_on_no_sep _ _ H). reflexivity.
Qed.

Lemma words_falsy line : str_truthy line = false -> words line = [].
Proof. destruct line; [reflexivity|discriminate]. Qed.

Lemma flat_map_words_chunks (chunks : list jsstring) :
  Forall (fun ch => str_truthy ch = true /\ ~ In space ch) chunks ->
  flat_map words chunks = chunks.
Proof.
  induction 1 as [|ch chunks [Ht Hs] _ IH]; simpl; [reflexivity|].
  rewrite (words_single _ Hs), Ht, IH. reflexivity.
Qed.

(** *** The hard split of a long word *)

Lemma in_firstn_in {A} (a : A) n l : In a (firstn n l) -> In a l.
Proof.
  intros H. rewrite <- (firstn_skipn n l). apply in_or_app. now left.
Qed.

Lemma in_skipn_in {A} (a : A) n l : In a (skipn n l) -> In a l.
Proof.
  intros H. rewrite <- (firstn_skipn n l). apply in_or_app. now right.
Qed.

Lemma slice_length_le s i j : length (slice s i j) <= j - i.
Proof. unfold slice. apply firstn_le_length. Qed.

Lemma hard_split_total width w :
  1 <= width ->
  forall fuel i,
    length w <= i + fuel * width ->
    exists chunks,
      hard_split fuel i w width = Some chunks
      /\ concat chunks = skipn i w
      /\ Forall (fun ch => length ch <= width /\ str_truthy ch = true
                           /\ forall a, In a ch -> In a w) chunks.
Proof.
  intros Hw fuel. induction fuel as [|fuel IH]; intros i Hlen.
  - simpl in *. destruct (i <? length w) eqn:E.
    + apply Nat.ltb_lt in E. lia.
    + apply Nat.ltb_ge in E. exists []. repeat split.
      * simpl. symmetry. apply skipn_all2. exact E.
      * constructor.
  - simpl. destruct (i <? length w) eqn:E.
    + apply Nat.ltb_lt in E.
      destruct (IH (i + width)) as (chunks & Heq & Hcat & Hall);
        [simpl in Hlen; lia|].
      rewrite Heq. simpl. eexists. split; [reflexivity|].
      assert (Hsl : slice w i (i + width) = firstn width (skipn i w)).
      { unfold slice. f_equal. lia. }
      split; [|constructor; [|exact Hall]].
      * simpl. rewrite Hcat, Hsl.
        etransitivity; [|apply (firstn_skipn width)].
        f_equal. rewrite skipn_skipn. f_equal. lia.
      * rewrite Hsl. split; [apply firstn_le_length|]. split.
        -- assert (Hn : length (firstn width (skipn i w)) <> 0).
           { rewrite length_firstn, length_skipn. lia. }
           destruct (firstn width (skipn i w)); [now elim Hn|reflexivity].
        -- intros a Ha. apply in_firstn_in in Ha.
           now apply in_skipn_in in Ha.
    + apply Nat.ltb_ge in E. exists []. repeat split.
      * simpl. symmetry. apply skipn_all2. exact E.
      * constructor.
Qed.

(** *** The wrap loop *)

Lemma rebuilds_self W w : rebuilds W w [w].
Proof. split; [apply app_nil_r|reflexivity]. Qed.

Lemma words_word W w :
  ~ In space w ->
  words w = [] /\ str_truthy w = false
  \/ str_truthy w = true /\ words w = [w] /\ rebuilds W w [w].
Proof.
  intros Hs. rewrite (words_single _ Hs).
  destruct (str_truthy w); [right|left]; auto using rebuilds_self.
Qed.

Lemma wrap_word_ok W out line w :
  1 <= W ->
  ~ In space w ->
  bounded_state W (out, line) ->
  exists st' p,
    wrap_word W (out, line) w = Some st'
    /\ bounded_state W st'
    /\ state_words st' = state_words (out, line) ++ p
    /\ (if str_truthy w then rebuilds W w p else p = []).
Proof.
  intros HW Hs [Hout Hline]. simpl in Hout, Hline.
  unfold wrap_word, state_words. simpl fst. simpl snd.
  set (test := if str_truthy line then line ++ [space] ++ w else w).
  assert (Htest : words line ++ words w = words test).
  { subst test. destruct (str_truthy line) eqn:E.
    - symmetry. apply words_app_space.
    - now rewrite (words_falsy _ E). }
  assert (Hp : exists p, words w = p
                         /\ (if str_truthy w then rebuilds W w p else p = [])).
  { destruct (words_word W w Hs) as [[E1 E2]|(E1 & E2 & E3)];
      rewrite E1, E2; eauto. }
  destruct (length test <=? W) eqn:Efit.
  - (* the word joins the current line *)
    apply Nat.leb_le in Efit. destruct Hp as (p & Hp1 & Hp2).
    exists (out, test), p. repeat split; auto.
    simpl. now rewrite <- Htest, Hp1, app_assoc.
  - apply Nat.leb_gt in Efit.
    set (out1 := if str_truthy line then out ++ [line] else out).
    assert (Hout1 : Forall (fun l => length l <= W) out1).
    { subst out1. destruct (str_truthy line); auto.
      apply Forall_app. split; auto. }
    assert (Hw1 : flat_map words out1 = flat_map words out ++ words line).
    { subst out1. destruct (str_truthy line) eqn:E.
      - rewrite flat_map_app. simpl. now rewrite app_nil_r.
      - now rewrite (words_falsy _ E), app_nil_r. }
    destruct (W <? length w) eqn:Elong.
    + (* hard split *)
      apply Nat.ltb_lt in Elong.
      destruct (hard_split_total W w HW (length w) 0)
        as (chunks & Heq & Hcat & Hall); [nia|].
      rewrite Heq. exists (out1 ++ chunks, []), chunks.
      split; [reflexivity|]. split; [|split].
      * split; simpl; [|lia]. apply Forall_app. split; auto.
        eapply Forall_impl; [|exact Hall]. simpl. tauto.
      * simpl. rewrite app_nil_r, flat_map_app, Hw1. f_equal.
        apply flat_map_words_chunks.
        eapply Forall_impl; [|exact Hall]. simpl.
        intros ch (_ & Ht & Hin). split; auto.
      * assert (Ht : str_truthy w = true) by (destruct w; simpl in *; [lia|auto]).
        rewrite Ht. split; [exact Hcat|lia].
    + (* the word opens a new line *)
      apply Nat.ltb_ge in Elong. destruct Hp as (p & Hp1 & Hp2).
      exists (out1, w), p. repeat split; auto.
      simpl. now rewrite Hw1, Hp1.
Qed.

Lemma wrap_loop_ok W :
  1 <= W ->
  forall ws st,
    Forall (fun w => ~ In space w) ws ->
    bounded_state W st ->
    exists st' groups,
      wrap_loop W st ws = Some st'
      /\ bounded_state W st'
      /\ state_words st' = state_words st ++ concat groups
      /\ Forall2 (rebuilds W) (filter str_truthy ws) groups.
Proof.
  intros HW ws. induction ws as [|w ws IH]; intros st Hs Hb.
  - exists st, []. simpl. rewrite app_nil_r. auto.
  - inversion Hs as [|? ? Hw Hws]; subst. destruct st as [out line].
    destruct (wrap_word_ok W out line w HW Hw Hb)
      as (st1 & p & Hstep & Hb1 & Hwords1 & Hp).
    destruct (IH st1 Hws Hb1) as (st' & groups & Hloop & Hb' & Hwords' & Hg).
    cbn [wrap_loop filter]. rewrite Hstep.
    destruct (str_truthy w) eqn:Et.
    + exists st', (p :: groups). repeat split; auto; try apply Hb'.
      rewrite Hwords', Hwords1. simpl. now rewrite app_assoc.
    + subst p. exists st', groups. repeat split; auto; try apply Hb'.
      rewrite Hwords', Hwords1. now rewrite app_nil_r.
Qed.

(** [wrap] returns for every width of at least one character; its lines
    fit the width and hold the words of the text, in order. *)
Lemma wrap_correct text W :
  1 <= W ->
  exists out,
    wrap text W = Some out
    /\ Forall (fun l => length l <= W) out
    /\ exists groups,
         Forall2 (rebuilds W) (words text) groups
         /\ flat_map words out = concat groups.
Proof.
  intros HW.
  destruct (wrap_loop_ok W HW (split_on space text) ([], []))
    as ([out line] & groups & Hloop & [Hb1 Hb2] & Hwords & Hg).
  - apply split_on_sep_free.
  - split; simpl; [constructor|lia].
  - unfold wrap. rewrite Hloop. simpl in *.
    unfold state_words in Hwords. simpl in Hwords.
    eexists. split; [reflexivity|]. split.
    + destruct (str_truthy line); auto. apply Forall_app. split; auto.
    + exists groups. split; [exact Hg|]. rewrite <- Hwords.
      destruct (str_truthy line) eqn:E.
      * rewrite flat_map_app. simpl. now rewrite app_nil_r.
      * now rewrite (words_falsy _ E), app_nil_r.
Qed.

(** C1. For every width [W] in [24,64] and every text, [wrap text W]
    returns lines of at most [W] characters, and the words of the lines,
    read in order, regroup into the words of the text: each word of the
    text is the concatenation of its own group of consecutive output
    words (just itself when it fits the width), so no word is lost,
    dropped or duplicated. *)
Theorem wrap_lines_fit_and_keep_words (text : jsstring) (W : nat) :
  24 <= W <= 64 ->
  exists out,
    wrap text W = Some out
    /\ Forall (fun l => length l <= W) out
    /\ exists groups,
         Forall2 (rebuilds W) (words text) groups
         /\ flat_map words out = concat groups.
Proof.
  intros HW. apply wrap_correct. lia.
Qed.

Lemma wrap_lines_fit_and_keep_words_witness :
  24 <= 24 <= 64
  /\ exists out,
       wrap (str "Extra large pepperoni pizza Supercalifragilisticexpialidocious")
            24 = Some out
       /\ Forall (fun l => length l <= 24) out
       /\ exists groups,
            Forall2 (rebuilds 24)
              (words (str "Extra large pepperoni pizza Supercalifragilisticexpialidocious"))
              groups
            /\ flat_map words out = concat groups.
Proof.
  split; [lia|]. apply (wrap_lines_fit_and_keep_words _ 24). lia.
Defined.

(** *** Padding and the amount column *)

Lemma spaces_length n : length (spaces n) = n.
Proof. apply repeat_length. Qed.

Lemma rpad_length s len : length (rpad s len) = len.
Proof.
  unfold rpad, slice. destruct (len <=? length s) eqn:E.
  - apply Nat.leb_le in E. rewrite length_firstn. simpl. lia.
  - apply Nat.leb_gt in E. rewrite length_app, spaces_length. lia.
Qed.

Lemma lpad_length s len : length (lpad s len) = len.
Proof.
  unfold lpad, slice. destruct (len <=? length s) eqn:E.
  - apply Nat.leb_le in E. rewrite length_firstn, length_skipn. lia.
  - apply Nat.leb_gt in E. rewrite length_app, spaces_length. lia.
Qed.

(** What [lpad] holds: the padded string, or the end of a long one. *)
Lemma lpad_short s len :
  length s <= len -> lpad s len = spaces (len - length s) ++ s.
Proof.
  intros H. unfold lpad, slice. destruct (len <=? length s) eqn:E.
  - apply Nat.leb_le in E. assert (len = length s) by lia. subst len.
    rewrite Nat.sub_diag, Nat.sub_0_r. simpl. apply firstn_all.
  - reflexivity.
Qed.

Lemma lpad_long s len :
  len <= length s -> lpad s len = skipn (length s - len) s.
Proof.
  intros H. unfold lpad, slice. apply Nat.leb_le in H. rewrite H.
  apply firstn_all2. rewrite length_skipn. lia.
Qed.

Example amountAlignedRow_total :
  amountAlignedRow (str "Total") (str "6.00") 24
  = str "Total               6.00".
Proof. reflexivity. Qed.

Example amountAlignedRow_clips :
  amountAlignedRow (str "A very long label that overflows") (str "1234567.89") 24
  = str "A very long lab 34567.89".
Proof. reflexivity. Qed.

(** C4. For every label, every value and every width in [24,64], the row
    built by [amountAlignedRow] is exactly [width] characters long and
    its last 8 characters (the Amount column) are the value right-aligned
    in 8 characters: the value after its padding when it fits, the end of
    the value when it does not. *)
Theorem amountAlignedRow_width_and_amount_column
  (label value : jsstring) (width : Z) :
  (24 <= width <= 64)%Z ->
  let row := amountAlignedRow label value width in
  length row = Z.to_nat width
  /\ skipn (length row - 8) row = rAlign value 8
  /\ (length value <= 8 ->
      skipn (length row - 8) row = spaces (8 - length value) ++ value)
  /\ (8 <= length value ->
      skipn (length row - 8) row = skipn (length value - 8) value).
Proof.
  intros Hw row.
  assert (Hrow : row = (rpad label (Z.to_nat (width - 9)) ++ spaces 1)
                         ++ rAlign value 8).
  { subst row. unfold amountAlignedRow, AMOUNT_GAP. simpl amount.
    replace (Z.max 1 (width - 8 - 1)) with (width - 9)%Z by lia.
    now rewrite <- app_assoc. }
  assert (Hlen : length row = Z.to_nat width).
  { rewrite Hrow. unfold rAlign.
    rewrite !length_app, rpad_length, spaces_length, lpad_length. lia. }
  assert (Hlast : skipn (length row - 8) row = rAlign value 8).
  { rewrite Hlen, Hrow. rewrite skipn_app.
    rewrite length_app, rpad_length, spaces_length.
    replace (Z.to_nat width - 8 - (Z.to_nat (width - 9) + 1)) with 0 by lia.
    rewrite skipn_all2; [reflexivity|].
    rewrite length_app, rpad_length, spaces_length. lia. }
  repeat split; auto.
  - intros H. rewrite Hlast. now apply lpad_short.
  - intros H. rewrite Hlast. now apply lpad_long.
Qed.

Lemma amountAlignedRow_width_and_amount_column_witness :
  (24 <= 32 <= 64)%Z
  /\ let row := amountAlignedRow (str "Total") (str "6.00") 32 in
     length row = Z.to_nat 32
     /\ skipn (length row - 8) row = rAlign (str "6.00") 8
     /\ (length (str "6.00") <= 8 ->
         skipn (length row - 8) row
         = spaces (8 - length (str "6.00")) ++ str "6.00")
     /\ (8 <= length (str "6.00") ->
         skipn (length row - 8) row
         = skipn (length (str "6.00") - 8) (str "6.00")).
Proof.
  split; [lia|].
  apply (amountAlignedRow_width_and_amount_column (str "Total") (str "6.00") 32).
  lia.
Defined.

(** *** Money formatting *)

Example formatMoney_three : formatMoney (of_Z 3) = str "3.00".
Proof. vm_compute. reflexivity. Qed.

Example formatMoney_third :
  formatMoney (num_div (of_Z 10) (of_Z 3)) = str "3.33".
Proof. vm_compute. reflexivity. Qed.

Example formatMoney_NaN : formatMoney NaN = str "0.00".
Proof. vm_compute. reflexivity. Qed.

Example formatMoney_1e21 : formatMoney (of_Z (10 ^ 21)) = str "1e+21".
Proof. vm_compute. reflexivity. Qed.

Lemma digit_char_is_digit d :
  (0 <= d < 10)%Z -> is_digit (digit_char d) = true.
Proof.
  intros H. unfold digit_char.
  assert (Hn : Z.to_nat d < 10) by lia.
  remember (Z.to_nat d) as k eqn:Hk. clear Hk H.
  do 10 (destruct k as [|k]; [reflexivity|]). lia.
Qed.

Lemma decimal_loop_digits fuel :
  forall n acc,
    Forall (fun c => is_digit c = true) acc ->
    Forall (fun c => is_digit c = true) (decimal_loop fuel n acc).
Proof.
  induction fuel as [|fuel IH]; intros n acc Hacc; simpl.
  - constructor; [|exact Hacc]. apply digit_char_is_digit.
    apply Z.mod_pos_bound. lia.
  - assert (Hacc' : Forall (fun c => is_digit c = true)
                           (digit_char (n mod 10) :: acc)).
    { constructor; [|exact Hacc]. apply digit_char_is_digit.
      apply Z.mod_pos_bound. lia. }
    destruct (n / 10 =? 0)%Z; auto.
Qed.

Lemma decimal_loop_length fuel :
  forall n acc, length acc < length (decimal_loop fuel n acc).
Proof.
  induction fuel as [|fuel IH]; intros n acc; simpl; [lia|].
  destruct (n / 10 =? 0)%Z; simpl; [lia|].
  specialize (IH (n / 10)%Z (digit_char (n mod 10) :: acc)). simpl in IH. lia.
Qed.

Lemma decimal_digits n : Forall (fun c => is_digit c = true) (decimal n).
Proof. apply decimal_loop_digits. constructor. Qed.

Lemma decimal_length n : 1 <= length (decimal n).
Proof.
  unfold decimal.
  pose proof (decimal_loop_length (Z.to_nat (Z.log2 n)) n []) as H.
  simpl in H. lia.
Qed.

Lemma zeros_digits n : Forall (fun c => is_digit c = true) (zeros n).
Proof.
  unfold zeros. induction n; simpl; constructor; auto.
Qed.

Lemma Forall_firstn_keep {A} (P : A -> Prop) n l :
  Forall P l -> Forall P (firstn n l).
Proof.
  rewrite !Forall_forall. intros H a Ha. apply H.
  exact (in_firstn_in a n l Ha).
Qed.

Lemma Forall_skipn_keep {A} (P : A -> Prop) n l :
  Forall P l -> Forall P (skipn n l).
Proof.
  rewrite !Forall_forall. intros H a Ha. apply H.
  exact (in_skipn_in a n l Ha).
Qed.

(** The digits [toFixed] prints, padded to three at least. *)
Lemma fixed_digits n :
  let ds := decimal n in
  let ds' := if length ds <=? 2 then zeros (3 - length ds) ++ ds else ds in
  3 <= length ds' /\ Forall (fun c => is_digit c = true) ds'.
Proof.
  intros ds ds'. subst ds'.
  pose proof (decimal_length n) as Hl. pose proof (decimal_digits n) as Hd.
  fold ds in Hl, Hd.
  destruct (length ds <=? 2) eqn:E.
  - apply Nat.leb_le in E. split.
    + rewrite length_app. unfold zeros. rewrite repeat_length. lia.
    + apply Forall_app. split; [apply zeros_digits|exact Hd].
  - apply Nat.leb_gt in E. split; [lia|exact Hd].
Qed.

Lemma toFixed2_below_1e21 s m e :
  magnitude_ge m e (10 ^ 21) = false ->
  two_decimals (toFixed2 (S754_finite s m e)).
Proof.
  intros Hsmall. unfold toFixed2. rewrite Hsmall.
  set (n := ((200 * numerator m e + denominator e)
             / (2 * denominator e))%Z).
  destruct (fixed_digits n) as [Hlen Hdig].
  set (ds := if length (decimal n) <=? 2
             then zeros (3 - length (decimal n)) ++ decimal n
             else decimal n) in *.
  assert (Htail : length (skipn (length ds - 2) ds) = 2)
    by (rewrite length_skipn; lia).
  pose proof (Forall_skipn_keep _ (length ds - 2) ds Hdig) as Hdt.
  destruct (skipn (length ds - 2) ds) as [|d1 [|d2 [|? ?]]];
    try discriminate Htail.
  inversion Hdt as [|? ? H1 Hdt']; subst.
  inversion Hdt' as [|? ? H2 _]; subst.
  exists (if s then str "-" else []), (firstn (length ds - 2) ds), d1, d2.
  repeat split; auto.
  - destruct s; auto.
  - intros Hnil. apply (f_equal (@length ascii)) in Hnil.
    rewrite length_firstn in Hnil. simpl in Hnil. lia.
  - now apply Forall_firstn_keep.
Qed.

(** *** The characters of a printed amount *)

Lemma digit_money c : is_digit c = true -> money_char c = true.
Proof. intros H. unfold money_char. now rewrite H. Qed.

Lemma digits_money l :
  Forall (fun c => is_digit c = true) l ->
  Forall (fun c => money_char c = true) l.
Proof. intros H. eapply Forall_impl; [|exact H]. exact digit_money. Qed.

Create HintDb money.

#[local] Hint Resolve decimal_digits zeros_digits digits_money
  Forall_firstn_keep Forall_skipn_keep : money.

Ltac money_app :=
  repeat (apply Forall_app; split);
  first [ solve [apply digits_money; auto with money]
        | solve [repeat constructor]
        | idtac ].

Lemma positive_toString_chars m e :
  Forall (fun c => money_char c = true) (positive_toString m e).
Proof.
  unfold positive_toString.
  destruct (shortest_digits 16 1 (S754_finite false m e) (numerator m e)
              (denominator e)
              (decimal_exponent (numerator m e) (denominator e)))
    as [n s].
  set (ds := decimal s).
  assert (Hds : Forall (fun c => is_digit c = true) ds) by apply decimal_digits.
  destruct ((Z.of_nat (length ds) <=? n) && (n <=? 21))%Z; [money_app|].
  destruct ((0 <? n) && (n <=? 21))%Z; [money_app|].
  destruct ((-6 <? n) && (n <=? 0))%Z; [money_app|].
  destruct (Z.of_nat (length ds) =? 1)%Z; destruct (n - 1 <? 0)%Z; money_app.
Qed.

Lemma toFixed2_finite_chars x :
  isFinite x = true -> Forall (fun c => money_char c = true) (toFixed2 x).
Proof.
  destruct x as [s|s| |s m e]; try discriminate; intros _.
  - repeat constructor.
  - unfold toFixed2. destruct (magnitude_ge m e (10 ^ 21)).
    + apply Forall_app. split; [destruct s; repeat constructor|].
      apply positive_toString_chars.
    + set (n := ((200 * numerator m e + denominator e)
                 / (2 * denominator e))%Z).
      destruct (fixed_digits n) as [_ Hdig].
      set (ds := if length (decimal n) <=? 2
                 then zeros (3 - length (decimal n)) ++ decimal n
                 else decimal n) in *.
      apply Forall_app. split; [destruct s; repeat constructor|].
      money_app.
Qed.

Lemma formatMoney_chars n :
  Forall (fun c => money_char c = true) (formatMoney n).
Proof.
  unfold formatMoney. apply toFixed2_finite_chars.
  destruct (isFinite n) eqn:E; [exact E|reflexivity].
Qed.

(** C3, as the code has it. [formatMoney n] is an optional minus sign,
    digits, a point and exactly two digits for every finite [n] of
    magnitude below [10^21], and is ["0.00"] for every non-finite [n]
    ([NaN], [Infinity], [-Infinity]). *)
Theorem formatMoney_two_decimals (n : number) :
  (below_1e21 n = true -> two_decimals (formatMoney n))
  /\ (isFinite n = false -> formatMoney n = str "0.00").
Proof.
  split.
  - destruct n as [s|s| |s m e]; try discriminate; intros H.
    + exists [], (str "0"), "0"%char, "0"%char.
      repeat split; auto; try discriminate. repeat constructor.
    + unfold formatMoney. simpl isFinite. cbv iota.
      apply toFixed2_below_1e21. unfold below_1e21 in H.
      now apply negb_true_iff in H.
  - destruct n; try discriminate; reflexivity.
Qed.

Lemma formatMoney_two_decimals_witness :
  two_decimals (formatMoney (num_div (of_Z 10) (of_Z 3)))
  /\ formatMoney NaN = str "0.00".
Proof.
  split.
  - apply (proj1 (formatMoney_two_decimals (num_div (of_Z 10) (of_Z 3)))).
    vm_compute. reflexivity.
  - apply (proj2 (formatMoney_two_decimals NaN)). reflexivity.
Defined.

(** C3 fails as stated: [10^21] is finite and [formatMoney] prints it
    as ["1e+21"], without a decimal point. *)
Lemma formatMoney_1e21_not_two_decimals :
  isFinite (of_Z (10 ^ 21)) = true
  /\ formatMoney (of_Z (10 ^ 21)) = str "1e+21"
  /\ ~ two_decimals (formatMoney (of_Z (10 ^ 21))).
Proof.
  split; [vm_compute; reflexivity|]. split; [exact formatMoney_1e21|].
  rewrite formatMoney_1e21. intros (sign & ip & d1 & d2 & H & _).
  assert (Hin : In "."%char (str "1e+21")).
  { rewrite H. apply in_or_app. right. apply in_or_app. right. now left. }
  vm_compute in Hin. repeat (destruct Hin as [Hin|Hin]; [discriminate|]).
  exact Hin.
Qed.

(** *** The unit price of an item row *)

Example unitPrice_coffee :
  option_map formatMoney (unitPrice coffee) = Some (str "3.00").
Proof. vm_compute. reflexivity. Qed.

Example unitPrice_zero_quantity :
  unitPrice (VObj [(str "quantity", VNum pzero);
                   (str "item_amount", VNum (of_Z 6))])
  = Some (of_Z 6).
Proof. vm_compute. reflexivity. Qed.

Example unitPrice_text_fields :
  option_map formatMoney
    (unitPrice (VObj [(str "quantity", VStr (str "4"));
                      (str "price", VStr (str "10"))]))
  = Some (str "2.50").
Proof. vm_compute. reflexivity. Qed.

Lemma toInt_finite v d q :
  isFinite d = true -> toInt v d = Some q -> isFinite q = true.
Proof.
  intros Hd. unfold toInt. destruct (ToNumber v) as [n|]; [|discriminate].
  intros H. inversion H; subst. destruct (isFinite n) eqn:E; auto.
Qed.

Lemma positive_is_truthy q : num_lt pzero q = true -> num_truthy q = true.
Proof. destruct q as [s|s| |s m e]; try discriminate; reflexivity. Qed.

Lemma zero_is_falsy q : is_zero q = true -> num_truthy q = false.
Proof. destruct q; try discriminate; reflexivity. Qed.

Lemma finite_falsy_is_zero q :
  isFinite q = true -> num_truthy q = false -> is_zero q = true.
Proof. destruct q; try discriminate; reflexivity. Qed.

Lemma lpad_chars (P : ascii -> Prop) s len :
  Forall P s -> P space -> Forall P (lpad s len).
Proof.
  intros Hs Hsp. unfold lpad, slice. destruct (len <=? length s).
  - now apply Forall_firstn_keep, Forall_skipn_keep.
  - apply Forall_app. split; [|exact Hs].
    unfold spaces. clear Hs. induction (len - length s); simpl; auto.
Qed.



End RendererSpec.

(** ** Properties of the stored-profile lookup *)

Module PrefsSpec.
Import JsString JsNumber JsValue Prefs.

Definition lan_printer (h : string) (p : Z) (on : option bool)
  : NetPrinterProfile :=
  {| name := None; host := str h; port := Some (of_Z p); widthDots := None;
     enabled := on; copies := None; isDefault := None |}.

Example resolve_skips_a_disabled_twin :
  resolveSavedPrinterByIpTokenInList (str "192.168.1.10:9100")
    [lan_printer "192.168.1.10" 9100 (Some false);
     lan_printer "192.168.1.10" 9100 None]
  = Some (normalizeProfile (lan_printer "192.168.1.10" 9100 None)).
Proof. vm_compute. reflexivity. Qed.

Example resolve_finds_nothing_when_all_disabled :
  resolveSavedPrinterByIpTokenInList (str "192.168.1.10")
    [lan_printer "192.168.1.10" 9100 (Some false)]
  = None.
Proof. vm_compute. reflexivity. Qed.

Lemma token_matches_enabled h port_opt p :
  token_matches h port_opt p = true -> enabled p = Some true.
Proof.
  unfold token_matches. destruct (enabled p) as [[|]|]; auto; discriminate.
Qed.

Lemma normalizeProfile_enabled q :
  enabled (normalizeProfile q) = Some true -> enabled q <> Some false.
Proof.
  simpl. destruct (enabled q) as [[|]|]; intros H; congruence.
Qed.

(** C10. Whatever the token and the list, the profile that
    [resolveSavedPrinterByIpTokenInList] returns has its enabled flag
    set: it is the normal form of a list entry that is not disabled, and
    it is never the normal form of a disabled entry, whatever the host
    and port of that entry. *)
Theorem resolve_never_returns_disabled
  (ipToken : jsstring) (saved : list NetPrinterProfile)
  (p : NetPrinterProfile) :
  resolveSavedPrinterByIpTokenInList ipToken saved = Some p ->
  enabled p = Some true
  /\ (exists q, In q saved /\ p = normalizeProfile q
                /\ enabled q <> Some false)
  /\ (forall q, enabled q = Some false -> p <> normalizeProfile q).
Proof.
  unfold resolveSavedPrinterByIpTokenInList.
  destruct (parseIpToken ipToken) as [[h port_opt]|]; [|discriminate].
  intros Hfind. apply find_some in Hfind. destruct Hfind as [Hin Hm].
  pose proof (token_matches_enabled _ _ _ Hm) as Hen.
  split; [exact Hen|]. split.
  - apply in_map_iff in Hin. destruct Hin as (q & Hq & Hin).
    exists q. subst p. auto using normalizeProfile_enabled.
  - intros q Hq Heq. subst p. simpl in Hen. rewrite Hq in Hen. discriminate.
Qed.

Lemma resolve_never_returns_disabled_witness :
  let saved := [lan_printer "192.168.1.10" 9100 (Some false);
                lan_printer "192.168.1.10" 9100 None] in
  let p := normalizeProfile (lan_printer "192.168.1.10" 9100 None) in
  resolveSavedPrinterByIpTokenInList (str "192.168.1.10:9100") saved = Some p
  /\ enabled p = Some true
  /\ (exists q, In q saved /\ p = normalizeProfile q
                /\ enabled q <> Some false)
  /\ (forall q, enabled q = Some false -> p <> normalizeProfile q).
Proof.
  intros saved p. split; [vm_compute; reflexivity|].
  apply (resolve_never_returns_disabled (str "192.168.1.10:9100") saved p).
  vm_compute. reflexivity.
Defined.

End PrefsSpec.

(** ** Properties of the routing *)

Module RoutingSpec.
Import JsString JsNumber JsValue Prefs Routing JsValueSpec.

(** *** Vocabulary and sample data *)

Definition lan_printer (h : string) (p : Z) : NetPrinterProfile :=
  {| name := None; host := str h; port := Some (of_Z p); widthDots := None;
     enabled := None; copies := None; isDefault := None |}.

(** The first entry of the highest score. *)
Fixpoint best (l : list (Z * NetPrinterProfile))
  : option (Z * NetPrinterProfile) :=
  match l with
  | [] => None
  | x :: r =>
      match best r with
      | Some h => if (fst x <? fst h)%Z then Some h else Some x
      | None => Some x
      end
  end.

Definition item_target (prof : NetPrinterProfile) (i : nat) (it : value)
  : target :=
  {| profile := prof; ttype := kitchen; blockIdx := Some i; item := it |}.

(** Whether the key of a target is one of [keys]. *)
Definition key_in (keys : list jsstring) (u : target) : bool :=
  match target_key u with
  | Some k => existsb (str_eqb k) keys
  | None => false
  end.

(** The targets whose key is one of [keys]. *)
Definition with_key_in (keys : list jsstring) (us : list target)
  : list target :=
  filter (key_in keys) us.

(** The strings of a list, each one once. *)
Definition distinct (ks : list jsstring) : list jsstring :=
  nodup (list_eq_dec ascii_dec) ks.

(** The flag of a kitchen block that is converted to a string. *)
Definition flag_of (b : value) : value :=
  coalesce (get_prop b (str "individual_print")) (VStr (str "0")).

(** The name and the display index of an item that are converted to a
    string for its key. *)
Definition name_of (it : value) : value :=
  or_else (get_prop it (str "item_name")) (VStr []).

Definition index_of (it : value) : value :=
  or_else (get_prop it (str "display_index")) (VStr []).

Definition line_item (n : string) (fields : list (jsstring * value))
  : value :=
  VObj ((str "item_name", VStr (str n)) :: fields).

(** A kitchen block for the printer at [ip], printed item by item when
    [flag] is ["1"]. *)
Definition kitchen_block (ip flag : string) (items : list value) : value :=
  VObj [(str "type", VStr (str "kitchen_print"));
        (str "ip_address", VStr (str ip));
        (str "individual_print", VStr (str flag));
        (str "data", VObj [(str "itemdata", VArr items)])].

(** A [setting] block with the given cashier hints. *)
Definition setting_block (ips : list string) : value :=
  VObj [(str "type", VStr (str "setting"));
        (str "data",
         VObj [(str "ip_address", VArr (map (fun ip => VStr (str ip)) ips))])].

Definition document (blocks : list value) : value :=
  VObj [(str "data", VArr blocks)].

(** Two cashier hints for one printer. *)
Definition two_hints : value :=
  setting_block ["192.168.1.10"%string; "192.168.1.10:9100"%string].

Definition tea_and_scone : list value :=
  [line_item "Tea" [(str "display_index", VNum (of_Z 1))];
   line_item "Scone" [(str "display_index", VNum (of_Z 2))]].

(** Two lines of the same name, without display index. *)
Definition two_teas : list value :=
  [line_item "Tea" [(str "quantity", VNum (of_Z 1));
                    (str "remarks", VStr (str "no sugar"))];
   line_item "Tea" [(str "quantity", VNum (of_Z 2))]].

(** Every hint token of a document: the cashier's, then the kitchen's. *)
Definition all_tokens (blocks : list value) : list jsstring :=
  cashier_ips blocks
  ++ flat_map getKitchenIpsFromBlock (kitchen_blocks blocks).

(** Every print call completes. *)
Definition reliable : list print_job -> print_job -> bool :=
  fun _ _ => true.

(** The print calls of a run that serves the targets [us] in their
    order, the i-th of them [n_i] times in a row with its payload; a
    kitchen target whose block is missing is not served. *)
Fixpoint served (json : value) (kblocks : list value) (us : list target)
         (ns : list nat) : list print_job :=
  match us, ns with
  | t :: us', n :: ns' =>
      match payload_of json kblocks t with
      | Some payload => repeat (profile t, payload) n
      | None => []
      end ++ served json kblocks us' ns'
  | _, _ => []
  end.

(** No target is served more often than its profile asks for copies;
    a copy count above [2^53] sets no bound. *)
Fixpoint within_copies (us : list target) (ns : list nat) : Prop :=
  match us, ns with
  | _, [] => True
  | [], _ :: _ => False
  | t :: us', n :: ns' =>
      (forall c, rounds (copies_of (profile t)) = Some c -> n <= c)
      /\ within_copies us' ns'
  end.

(** A number above [2^53]: the positive infinite one, or a finite one
    whose value [m * 2^e] is. *)
Definition above_2_53 (c : number) : Prop :=
  match c with
  | S754_finite false m e => (2 ^ 53 * denominator e < numerator m e)%Z
  | S754_infinity false => True
  | _ => False
  end.

(** Two profiles for one printer, as the matching reads a profile: the
    same host once trimmed, and the same port, 9100 standing in for a
    stored port that is absent or not a positive finite number. *)
Definition one_printer (p q : NetPrinterProfile) : Prop :=
  trim (host p) = trim (host q)
  /\ normalizePort (port p) = normalizePort (port q).

(** Every one of the calls, made from the trace [tr] on, completes. *)
Fixpoint all_complete (printer : list print_job -> print_job -> bool)
         (tr : list print_job) (calls : list print_job) : bool :=
  match calls with
  | [] => true
  | j :: r => printer tr j && all_complete printer (tr ++ [j]) r
  end.

(** How a run that made [calls] may end: with an exception, behind a
    call that failed and was the last; or otherwise, every call having
    completed. *)
Definition ends_well (printer : list print_job -> print_job -> bool)
           (tr calls : list print_job) (A : Type) (o : outcome A) : Prop :=
  match o with
  | Threw =>
      exists pre j,
        calls = pre ++ [j]
        /\ all_complete printer tr pre = true
        /\ printer (tr ++ pre) j = false
  | _ => all_complete printer tr calls = true
  end.

(** The outcome of a job whose execution loop ended with [o]. *)
Definition job_outcome (o : outcome unit) : outcome result :=
  match o with
  | Returned _ => Returned {| handled := true; matched := true |}
  | Threw => Threw
  | Diverged => Diverged
  end.

(** A profile that asks for more copies than a loop counter can count. *)
Definition endless_printer : NetPrinterProfile :=
  {| name := None; host := str "192.168.1.10"; port := Some (of_Z 9100);
     widthDots := None; enabled := None;
     copies := Some (S754_infinity false); isDefault := None |}.

(** A printer that fails on its third job. *)
Definition third_job_fails : list print_job -> print_job -> bool :=
  fun tr _ => Nat.ltb (length tr) 2.

(** *** String equality *)

Lemma str_eqb_eq a b : str_eqb a b = true <-> a = b.
Proof.
  revert b. induction a as [|x a IH]; destruct b as [|y b]; simpl;
    try (split; [discriminate|discriminate]); [tauto|].
  rewrite andb_true_iff, Ascii.eqb_eq, IH.
  split; [intros [-> ->]; reflexivity|intros H; inversion H; auto].
Qed.

Lemma str_eqb_refl a : str_eqb a a = true.
Proof. now apply str_eqb_eq. Qed.

(** *** The best-scored profile *)

Lemma insert_head x l :
  hd_error (insert_by_score x l)
  = match hd_error l with
    | Some h => if (fst x <? fst h)%Z then Some h else Some x
    | None => Some x
    end.
Proof.
  destruct l as [|y r]; simpl; [reflexivity|].
  destruct (fst x <? fst y)%Z; reflexivity.
Qed.

Lemma sort_head_best l : hd_error (sort_by_score l) = best l.
Proof.
  unfold sort_by_score.
  induction l as [|x l IH]; [reflexivity|].
  cbn [fold_right best]. rewrite insert_head, IH. reflexivity.
Qed.

Lemma best_in l h : best l = Some h -> In h l.
Proof.
  revert h. induction l as [|x l IH]; simpl; intros h; [discriminate|].
  destruct (best l) as [h'|].
  - destruct (fst x <? fst h')%Z; intros H; inversion H; subst; auto.
  - intros H; inversion H; auto.
Qed.

Lemma best_max l h :
  best l = Some h -> forall y, In y l -> (fst y <= fst h)%Z.
Proof.
  revert h. induction l as [|x l IH]; simpl; intros h; [discriminate|].
  destruct (best l) as [h'|] eqn:E.
  - specialize (IH h' eq_refl).
    destruct (fst x <? fst h')%Z eqn:C; intros H; inversion H; subst;
      intros y [Hy|Hy]; subst.
    + apply Z.ltb_lt in C. lia.
    + auto.
    + lia.
    + apply Z.ltb_ge in C. specialize (IH y Hy). lia.
  - intros H; inversion H; subst. destruct l as [|z l].
    + intros y [Hy|[]]; subst; lia.
    + simpl in E. destruct (best l) as [h'|]; [|discriminate].
      destruct (fst z <? fst h')%Z; discriminate.
Qed.

Lemma best_some l : l <> [] -> exists h, best l = Some h.
Proof.
  destruct l as [|x l]; [congruence|]. intros _. simpl.
  destruct (best l) as [h|]; [|eauto].
  destruct (fst x <? fst h)%Z; eauto.
Qed.

(** *** What [findSavedByIpToken] pushes *)

Lemma scored_of_in t saved sc prof :
  In (sc, prof) (scored_of t saved) <->
  In prof saved /\ score_of t prof = Some sc.
Proof.
  induction saved as [|q saved IH]; simpl; [tauto|].
  destruct (score_of t q) as [sq|] eqn:E; simpl; rewrite IH; split.
  - intros [H|H]; [inversion H; subst; auto|tauto].
  - intros [[H|H] Hs]; [subst; left; congruence|auto].
  - tauto.
  - intros [[H|H] Hs]; [subst; congruence|auto].
Qed.

Lemma find_as_best token saved :
  findSavedByIpToken token saved
  = if negb (str_truthy (t_host (parseIpToken token))) then None
    else option_map snd (best (scored_of (parseIpToken token) saved)).
Proof.
  unfold findSavedByIpToken.
  destruct (negb (str_truthy (t_host (parseIpToken token)))); [reflexivity|].
  rewrite <- sort_head_best.
  destruct (sort_by_score (scored_of (parseIpToken token) saved))
    as [|[sc prof] r]; reflexivity.
Qed.

Lemma score_host t prof sc :
  score_of t prof = Some sc -> normalizeHost (host prof) = t_host t.
Proof.
  unfold score_of.
  destruct (negb (str_truthy (normalizeHost (host prof)))); [discriminate|].
  destruct (hasPort t).
  - destruct (str_eqb (normalizeHost (host prof)) (t_host t)) eqn:E;
      [|discriminate]. intros _. now apply str_eqb_eq.
  - destruct (str_eqb (normalizeHost (host prof)) (t_host t)) eqn:E;
      [|discriminate]. intros _. now apply str_eqb_eq.
Qed.

Lemma score_port t prof sc :
  score_of t prof = Some sc -> hasPort t = true ->
  num_eq (normalizePort (port prof)) (t_port t) = true.
Proof.
  unfold score_of. intros H Hp. rewrite Hp in H.
  destruct (negb (str_truthy (normalizeHost (host prof)))); [discriminate|].
  destruct (str_eqb (normalizeHost (host prof)) (t_host t)); [|discriminate].
  now destruct (num_eq (normalizePort (port prof)) (t_port t)).
Qed.

Lemma score_host_only t prof :
  hasPort t = false ->
  str_truthy (t_host t) = true ->
  normalizeHost (host prof) = t_host t ->
  score_of t prof
  = Some (if num_eq (normalizePort (port prof)) DEFAULT_NET_PORT
          then 55 else 50)%Z.
Proof.
  intros Hp Ht Hh. unfold score_of. rewrite Hp, Hh, Ht, str_eqb_refl.
  reflexivity.
Qed.

Lemma find_sound token saved prof :
  findSavedByIpToken token saved = Some prof ->
  str_truthy (t_host (parseIpToken token)) = true
  /\ exists sc,
       best (scored_of (parseIpToken token) saved) = Some (sc, prof)
       /\ In prof saved
       /\ score_of (parseIpToken token) prof = Some sc.
Proof.
  rewrite find_as_best.
  destruct (str_truthy (t_host (parseIpToken token))); [|discriminate].
  simpl. destruct (best (scored_of (parseIpToken token) saved))
    as [[sc p]|] eqn:E; [|discriminate].
  simpl. intros H. inversion H; subst. split; [reflexivity|].
  exists sc. split; [reflexivity|]. apply scored_of_in.
  now apply best_in.
Qed.

Lemma find_complete token saved q sc :
  str_truthy (t_host (parseIpToken token)) = true ->
  In q saved ->
  score_of (parseIpToken token) q = Some sc ->
  exists prof sc',
    findSavedByIpToken token saved = Some prof
    /\ (sc <= sc')%Z
    /\ In prof saved
    /\ score_of (parseIpToken token) prof = Some sc'.
Proof.
  intros Ht Hq Hs. rewrite find_as_best, Ht. simpl.
  assert (Hin : In (sc, q) (scored_of (parseIpToken token) saved))
    by (apply scored_of_in; auto).
  destruct (best_some (scored_of (parseIpToken token) saved))
    as [[sc' prof] Hb].
  { intros E. rewrite E in Hin. exact Hin. }
  rewrite Hb. exists prof, sc'. split; [reflexivity|]. split.
  - exact (best_max _ _ Hb _ Hin).
  - apply scored_of_in. now apply best_in.
Qed.

Example match_with_port :
  findSavedByIpToken (str "192.168.1.10:9100")
                     [lan_printer "192.168.1.10" 9100]
  = Some (lan_printer "192.168.1.10" 9100).
Proof. vm_compute. reflexivity. Qed.

Example no_match_on_other_port :
  findSavedByIpToken (str "192.168.1.10:9101")
                     [lan_printer "192.168.1.10" 9100]
  = None.
Proof. vm_compute. reflexivity. Qed.

Example host_only_prefers_9100 :
  findSavedByIpToken (str "192.168.1.10")
                     [lan_printer "192.168.1.10" 9101;
                      lan_printer "192.168.1.10" 9100]
  = Some (lan_printer "192.168.1.10" 9100).
Proof. vm_compute. reflexivity. Qed.

(** The port of a token that has one is the number its second piece
    reads as, 9100 standing in for [0] and [NaN]. *)
Lemma parseIpToken_port token :
  hasPort (parseIpToken token) = true ->
  exists p,
    nth_error (map trim (split_on ":" (trim token))) 1 = Some p
    /\ str_truthy p = true
    /\ t_port (parseIpToken token)
       = if num_truthy (StringToNumber p) then StringToNumber p
         else DEFAULT_NET_PORT.
Proof.
  unfold parseIpToken.
  destruct (nth_error (map trim (split_on ":" (trim token))) 1) as [p|];
    [|discriminate].
  destruct (str_truthy p) eqn:E; [|discriminate].
  intros _. exists p. auto.
Qed.

(** The port of a profile is its stored port when that is a positive
    finite number. *)
Lemma normalizePort_valid x :
  isFinite x = true -> num_lt pzero x = true -> normalizePort (Some x) = x.
Proof. intros H1 H2. unfold normalizePort. now rewrite H1, H2. Qed.

(** C5, as the code has it. The host of a token is its first piece
    between colons, trimmed, and a token has a port when its second
    piece is not blank; the port is then the number that piece reads as,
    except that 9100 stands in for a piece that reads as [0] or [NaN].
    The host of a profile is its stored host, trimmed; its port is the
    stored port when that is a positive finite number, and 9100
    otherwise. With these readings: a profile that the token selects is
    a stored profile whose host is the token's host and, when the token
    has a port, whose port is the token's port; a stored profile with
    that host and port is selected by a token with a port, up to another
    profile of the same host and port; a token without port selects a
    profile of its host as soon as one is stored, and one on the default
    port 9100 as soon as one of them is. In particular the hint
    ["192.168.1.10:9100"] against the profile 192.168.1.10:9100 gives
    exactly one cashier target, for that profile, and the hint
    ["192.168.1.10"] against profiles on ports 9101 and 9100 selects the
    9100 profile, in either order of storage. *)
Theorem findSavedByIpToken_matching
  (token : jsstring) (saved : list NetPrinterProfile) :
  let t := parseIpToken token in
  let pieces := map trim (split_on ":" (trim token)) in
  t_host t = nth 0 pieces []
  /\ (hasPort t = true <->
      exists p, nth_error pieces 1 = Some p /\ str_truthy p = true)
  /\ (forall p,
         nth_error pieces 1 = Some p -> str_truthy p = true ->
         t_port t = if num_truthy (StringToNumber p) then StringToNumber p
                    else DEFAULT_NET_PORT)
  /\ (forall h, normalizeHost h = trim h)
  /\ (forall x, isFinite x = true -> num_lt pzero x = true ->
                normalizePort (Some x) = x)
  /\ (forall x, isFinite x && num_lt pzero x = false ->
                normalizePort (Some x) = DEFAULT_NET_PORT)
  /\ normalizePort None = DEFAULT_NET_PORT
  /\ (forall prof,
      findSavedByIpToken token saved = Some prof ->
      In prof saved
      /\ str_truthy (t_host t) = true
      /\ trim (host prof) = t_host t
      /\ (hasPort t = true ->
          num_eq (normalizePort (port prof)) (t_port t) = true))
  /\ (forall q,
         In q saved ->
         str_truthy (t_host t) = true ->
         trim (host q) = t_host t ->
         hasPort t = true ->
         num_eq (normalizePort (port q)) (t_port t) = true ->
         exists prof, findSavedByIpToken token saved = Some prof)
  /\ (forall q,
         In q saved ->
         str_truthy (t_host t) = true ->
         trim (host q) = t_host t ->
         hasPort t = false ->
         exists prof,
           findSavedByIpToken token saved = Some prof
           /\ trim (host prof) = t_host t
           /\ (num_eq (normalizePort (port q)) DEFAULT_NET_PORT = true ->
               num_eq (normalizePort (port prof)) DEFAULT_NET_PORT = true))
  /\ cashier_targets [lan_printer "192.168.1.10" 9100]
                     [str "192.168.1.10:9100"]
     = [{| profile := lan_printer "192.168.1.10" 9100; ttype := cashier;
           blockIdx := None; item := VUndefined |}]
  /\ findSavedByIpToken (str "192.168.1.10")
                        [lan_printer "192.168.1.10" 9101;
                         lan_printer "192.168.1.10" 9100]
     = Some (lan_printer "192.168.1.10" 9100)
  /\ findSavedByIpToken (str "192.168.1.10")
                        [lan_printer "192.168.1.10" 9100;
                         lan_printer "192.168.1.10" 9101]
     = Some (lan_printer "192.168.1.10" 9100).
Proof.
  intros t pieces. subst t pieces.
  split; [unfold parseIpToken; now destruct (nth_error _ 1) as [p|];
          [destruct (str_truthy p)|]|].
  split.
  { split.
    - intros H. destruct (parseIpToken_port _ H) as (p & H1 & H2 & _). eauto.
    - intros (p & H1 & H2). unfold parseIpToken. now rewrite H1, H2. }
  split.
  { intros p H1 H2. unfold parseIpToken. now rewrite H1, H2. }
  split; [reflexivity|]. split; [exact normalizePort_valid|].
  split; [intros x Hx; unfold normalizePort; now rewrite Hx|].
  split; [reflexivity|].
  split; [|split; [|split]].
  - intros prof H. destruct (find_sound _ _ _ H) as (Ht & sc & _ & Hin & Hs).
    split; [exact Hin|]. split; [exact Ht|].
    split; [exact (score_host _ _ _ Hs)|].
    exact (score_port _ _ _ Hs).
  - intros q Hq Ht Hh Hp Hport.
    assert (Hs : score_of (parseIpToken token) q = Some 100%Z).
    { unfold score_of, normalizeHost.
      rewrite Hh, Ht, Hp, str_eqb_refl, Hport. reflexivity. }
    destruct (find_complete _ _ _ _ Ht Hq Hs) as (prof & _ & H & _). eauto.
  - intros q Hq Ht Hh Hp.
    pose proof (score_host_only _ q Hp Ht Hh) as Hs.
    destruct (find_complete _ _ _ _ Ht Hq Hs) as (prof & sc' & H & Hle & _ & Hs').
    exists prof. split; [exact H|]. split; [exact (score_host _ _ _ Hs')|].
    intros H9100. rewrite H9100 in Hle.
    rewrite (score_host_only _ prof Hp Ht (score_host _ _ _ Hs')) in Hs'.
    destruct (num_eq (normalizePort (port prof)) DEFAULT_NET_PORT);
      [reflexivity|]. inversion Hs'; subst. lia.
  - repeat split; vm_compute; reflexivity.
Qed.

Lemma findSavedByIpToken_matching_witness :
  let token := str "192.168.1.10:9100" in
  let saved := [lan_printer "192.168.1.10" 9101;
                lan_printer "192.168.1.10" 9100] in
  let prof := lan_printer "192.168.1.10" 9100 in
  findSavedByIpToken token saved = Some prof
  /\ In prof saved
  /\ str_truthy (t_host (parseIpToken token)) = true
  /\ trim (host prof) = t_host (parseIpToken token)
  /\ (hasPort (parseIpToken token) = true ->
      num_eq (normalizePort (port prof)) (t_port (parseIpToken token))
      = true).
Proof.
  intros token saved prof. split; [vm_compute; reflexivity|].
  apply (proj1 (proj2 (proj2 (proj2 (proj2 (proj2 (proj2 (proj2
           (findSavedByIpToken_matching token saved)))))))) prof).
  vm_compute. reflexivity.
Defined.

(** C5 fails as stated: a token with a port selects a profile whose port
    is not the one written in the token. The port pieces [0] and [abc]
    are read as 9100, and so is a stored port that is absent or not
    positive; hosts are compared after trimming, so a stored host with
    blanks around it is selected as well. *)
Lemma written_port_is_not_the_selected_port :
  let P := lan_printer "192.168.1.10" 9100 in
  findSavedByIpToken (str "192.168.1.10:0") [P] = Some P
  /\ findSavedByIpToken (str "192.168.1.10:abc") [P] = Some P
  /\ StringToNumber (str "0") = pzero
  /\ StringToNumber (str "abc") = NaN
  /\ port P = Some (of_Z 9100)
  /\ num_eq (of_Z 9100) pzero = false
  /\ num_eq (of_Z 9100) NaN = false
  /\ findSavedByIpToken (str "192.168.1.10:9100")
                        [lan_printer "192.168.1.10" 0]
     = Some (lan_printer "192.168.1.10" 0)
  /\ findSavedByIpToken (str "192.168.1.10:9100")
                        [lan_printer " 192.168.1.10 " 9100]
     = Some (lan_printer " 192.168.1.10 " 9100).
Proof. vm_compute. repeat split; reflexivity. Qed.

(** *** Loops that may throw *)

Lemma collect_elem {A B} (f : A -> option (list B)) l out x :
  collect f l = Some out -> In x out ->
  exists a bs, In a l /\ f a = Some bs /\ In x bs.
Proof.
  revert out. induction l as [|a l IH]; simpl; intros out H Hx.
  - inversion H; subst. destruct Hx.
  - destruct (f a) as [bs|] eqn:Ea; [|discriminate].
    destruct (collect f l) as [rest|] eqn:Er; [|discriminate].
    inversion H; subst. apply in_app_or in Hx. destruct Hx as [Hx|Hx].
    + exists a, bs. auto.
    + destruct (IH rest eq_refl Hx) as (a' & bs' & Ha & Hf & Hin).
      exists a', bs'. auto.
Qed.

Lemma collect_none {A B} (f : A -> option (list B)) l :
  collect f l = None <-> exists a, In a l /\ f a = None.
Proof.
  induction l as [|a l IH]; simpl.
  - split; [discriminate|intros (a & [] & _)].
  - destruct (f a) as [bs|] eqn:Ea.
    + destruct (collect f l) as [rest|].
      * split; [discriminate|].
        intros (x & [Hx|Hx] & Hf); [subst; congruence|].
        destruct IH as [_ IH]. discriminate IH. eauto.
      * split; [|reflexivity]. intros _.
        destruct IH as [IH _]. destruct (IH eq_refl) as (x & Hx & Hf).
        eauto.
    + split; [|reflexivity]. intros _. exists a. auto.
Qed.

Lemma collect_in {A B} (f : A -> option (list B)) l a bs out :
  collect f l = Some out -> In a l -> f a = Some bs ->
  exists pre post, out = pre ++ bs ++ post.
Proof.
  revert out. induction l as [|x l IH]; simpl; intros out; [tauto|].
  destruct (f x) as [xs|] eqn:Ex; [|discriminate].
  destruct (collect f l) as [rest|] eqn:Er; [|discriminate].
  intros H [Ha|Ha] Hf; inversion H; subst.
  - rewrite Hf in Ex. inversion Ex; subst. exists [], rest. reflexivity.
  - destruct (IH rest eq_refl Ha Hf) as (pre & post & ->).
    exists (xs ++ pre), post. now rewrite <- app_assoc.
Qed.

Lemma collect_some_in {A B} (f : A -> option (list B)) l a out :
  collect f l = Some out -> In a l -> exists bs, f a = Some bs.
Proof.
  revert out. induction l as [|x l IH]; simpl; intros out; [tauto|].
  destruct (f x) as [xs|] eqn:Ex; [|discriminate].
  destruct (collect f l) as [rest|] eqn:Er; [|discriminate].
  intros _ [Ha|Ha]; [subst; eauto|]. exact (IH rest eq_refl Ha).
Qed.

Lemma collect_nil {A B} (f : A -> option (list B)) l :
  (forall a, In a l -> f a = Some []) -> collect f l = Some [].
Proof.
  induction l as [|x l IH]; simpl; intros H; [reflexivity|].
  rewrite (H x (or_introl eq_refl)), IH; auto.
Qed.

(** *** Deduplication *)

Lemma seen_spec k seen : existsb (str_eqb k) seen = true <-> In k seen.
Proof.
  rewrite existsb_exists. split.
  - intros (x & Hx & He). apply str_eqb_eq in He. now subst.
  - intros H. exists k. split; [exact H|apply str_eqb_refl].
Qed.

(** The key of a target cannot be built exactly when its item is truthy
    and has a name or a display index that cannot be converted. *)
Lemma item_key_none it :
  item_key it = None
  <-> truthy it = true
      /\ raises (name_of it) || raises (index_of it) = true.
Proof.
  unfold item_key. fold (name_of it) (index_of it).
  rewrite orb_true_iff, <- !ToString_raises.
  destruct (truthy it).
  - destruct (ToString (name_of it)), (ToString (index_of it));
      split; try discriminate; try tauto.
    intros [_ [H|H]]; discriminate.
  - split; [discriminate|]. intros [H _]. discriminate.
Qed.

Lemma target_key_none t :
  target_key t = None <-> item_key (item t) = None.
Proof.
  unfold target_key. destruct (item_key (item t)); split;
    try discriminate; reflexivity.
Qed.

Lemma target_key_some t k :
  target_key t = Some k
  <-> exists ik, item_key (item t) = Some ik
                 /\ k = slice_key (profile t) (ttype t) (blockIdx t) ++ ik.
Proof.
  unfold target_key. destruct (item_key (item t)) as [ik|]; split.
  - intros H. inversion H. eauto.
  - intros (ik' & H & ->). inversion H. reflexivity.
  - discriminate.
  - intros (ik' & H & _). discriminate.
Qed.

(** Deduplication throws exactly when the key of one of the targets
    cannot be built. *)
Lemma dedupe_none seen ts :
  dedupe seen ts = None <-> exists t, In t ts /\ target_key t = None.
Proof.
  revert seen. induction ts as [|a ts IH]; intros seen; simpl.
  - split; [discriminate|intros (t & [] & _)].
  - destruct (target_key a) as [k|] eqn:Ek.
    + destruct (existsb (str_eqb k) seen).
      * rewrite IH. split.
        -- intros (t & Ht & Hk). exists t. auto.
        -- intros (t & [<-|Ht] & Hk); [congruence|eauto].
      * destruct (dedupe (k :: seen) ts) as [us|] eqn:Ed.
        -- split; [discriminate|].
           intros (t & [<-|Ht] & Hk); [congruence|].
           assert (H : dedupe (k :: seen) ts = None) by (apply IH; eauto).
           congruence.
        -- split; [|reflexivity]. intros _. apply IH in Ed.
           destruct Ed as (t & Ht & Hk). eauto.
    + split; [|reflexivity]. intros _. exists a. auto.
Qed.

Lemma dedupe_sound seen ts us t :
  dedupe seen ts = Some us -> In t us ->
  In t ts /\ exists k, target_key t = Some k /\ ~ In k seen.
Proof.
  revert seen us. induction ts as [|a ts IH]; simpl; intros seen us H Hin.
  - inversion H; subst. destruct Hin.
  - destruct (target_key a) as [k|] eqn:Ek; [|discriminate].
    destruct (existsb (str_eqb k) seen) eqn:E.
    + destruct (IH _ _ H Hin) as [H1 H2]. auto.
    + destruct (dedupe (k :: seen) ts) as [vs|] eqn:Ed; [|discriminate].
      inversion H; subst. destruct Hin as [<-|Hin].
      * split; [now left|]. exists k. split; [exact Ek|].
        rewrite <- seen_spec. congruence.
      * destruct (IH _ _ Ed Hin) as [H1 (k' & Hk' & Hn)].
        split; [now right|]. exists k'. split; [exact Hk'|].
        intros Hs. apply Hn. now right.
Qed.

Lemma dedupe_nodup seen ts us :
  dedupe seen ts = Some us -> NoDup (map target_key us).
Proof.
  revert seen us. induction ts as [|a ts IH]; simpl; intros seen us H.
  - inversion H. constructor.
  - destruct (target_key a) as [k|] eqn:Ek; [|discriminate].
    destruct (existsb (str_eqb k) seen); [eapply IH; eauto|].
    destruct (dedupe (k :: seen) ts) as [vs|] eqn:Ed; [|discriminate].
    inversion H; subst. simpl. constructor; [|eapply IH; eauto].
    rewrite Ek. intros Hin. apply in_map_iff in Hin.
    destruct Hin as (u & Hk & Hu).
    destruct (dedupe_sound _ _ _ _ Ed Hu) as [_ (k' & Hk' & Hn)].
    apply Hn. left. congruence.
Qed.

Lemma dedupe_complete seen ts us t :
  dedupe seen ts = Some us -> In t ts ->
  exists k,
    target_key t = Some k
    /\ (In k seen \/ In (Some k) (map target_key us)).
Proof.
  revert seen us. induction ts as [|a ts IH]; simpl; intros seen us H;
    [tauto|].
  destruct (target_key a) as [k|] eqn:Ek; [|discriminate].
  destruct (existsb (str_eqb k) seen) eqn:E.
  - intros [<-|Ht].
    + exists k. split; [exact Ek|]. left. now apply seen_spec.
    + exact (IH _ _ H Ht).
  - destruct (dedupe (k :: seen) ts) as [vs|] eqn:Ed; [|discriminate].
    inversion H; subst. intros [<-|Ht].
    + exists k. split; [exact Ek|]. right. simpl. left. exact Ek.
    + destruct (IH _ _ Ed Ht) as (k' & Hk' & [[Hs|Hs]|Hs]).
      * exists k'. split; [exact Hk'|]. right. simpl. left. congruence.
      * exists k'. auto.
      * exists k'. split; [exact Hk'|]. right. simpl. now right.
Qed.

Lemma dedupe_fixed ts :
  forall seen,
    (forall t, In t ts -> target_key t <> None) ->
    NoDup (map target_key ts) ->
    (forall t k, In t ts -> target_key t = Some k -> ~ In k seen) ->
    dedupe seen ts = Some ts.
Proof.
  induction ts as [|t ts IH]; intros seen Hdef Hnd Hs; simpl; [reflexivity|].
  inversion Hnd as [|? ? Hnot Hrest]; subst.
  destruct (target_key t) as [k|] eqn:Ek;
    [|exfalso; apply (Hdef t); [now left|exact Ek]].
  destruct (existsb (str_eqb k) seen) eqn:E.
  - apply seen_spec in E. exfalso. apply (Hs t k); [now left|exact Ek|exact E].
  - rewrite IH; [reflexivity| |exact Hrest|].
    + intros u Hu. apply Hdef. now right.
    + intros u ku Hu Hku [Hk|Hk].
      * apply Hnot. apply in_map_iff. exists u. split; [congruence|exact Hu].
      * apply (Hs u ku); [now right|exact Hku|exact Hk].
Qed.

(** The key is a function of host, port, kind, block index and item key. *)
Lemma target_key_of_slice t u :
  host (profile t) = host (profile u) ->
  port_or_default (profile t) = port_or_default (profile u) ->
  ttype t = ttype u ->
  blockIdx t = blockIdx u ->
  item_key (item t) = item_key (item u) ->
  target_key t = target_key u.
Proof.
  intros H1 H2 H3 H4 H5. unfold target_key, slice_key.
  now rewrite H1, H2, H3, H4, H5.
Qed.

(** The item key reads the name and the display index of the item only. *)
Lemma item_key_of_name_and_index it it' :
  truthy it = truthy it' ->
  get_prop it (str "item_name") = get_prop it' (str "item_name") ->
  get_prop it (str "display_index") = get_prop it' (str "display_index") ->
  item_key it = item_key it'.
Proof.
  intros H1 H2 H3. unfold item_key. now rewrite H1, H2, H3.
Qed.

Example two_tokens_one_cashier_target :
  uniqueTargets
    (cashier_targets [lan_printer "192.168.1.10" 9100]
                     [str "192.168.1.10"; str "192.168.1.10:9100"])
  = Some [{| profile := lan_printer "192.168.1.10" 9100; ttype := cashier;
             blockIdx := None; item := VUndefined |}].
Proof. vm_compute. reflexivity. Qed.

(** *** Kitchen entries *)

Lemma has_type_object ty b :
  has_type ty b = true -> exists fields, b = VObj fields.
Proof.
  unfold has_type. destruct b; simpl; try discriminate. eauto.
Qed.

(** Building the kitchen entries throws exactly when the flag of a
    kitchen block cannot be converted. *)
Lemma kitchen_entries_none kblocks :
  forall i,
    kitchen_entries i kblocks = None
    <-> exists b, In b kblocks /\ raises (flag_of b) = true.
Proof.
  induction kblocks as [|b r IH]; intros i; cbn [kitchen_entries].
  - split; [discriminate|intros (b & [] & _)].
  - fold (flag_of b). destruct (ToString (flag_of b)) as [flag|] eqn:Ef.
    + assert (Hb : raises (flag_of b) = false).
      { destruct (raises (flag_of b)) eqn:E; [|reflexivity].
        apply ToString_raises in E. congruence. }
      destruct (kitchen_entries (S i) r) as [es|] eqn:Er.
      * split; [discriminate|]. intros (x & [<-|Hx] & Hr); [congruence|].
        assert (H : kitchen_entries (S i) r = None).
        { apply IH. exists x. auto. }
        congruence.
      * split; [|reflexivity]. intros _. apply IH in Er.
        destruct Er as (x & Hx & Hr). exists x. split; [now right|exact Hr].
    + split; [|reflexivity]. intros _. exists b. split; [now left|].
      now apply ToString_raises.
Qed.

Lemma kitchen_entries_nth kblocks :
  forall i entries e,
    kitchen_entries i kblocks = Some entries ->
    In e entries ->
    i <= idx e
    /\ nth_error kblocks (idx e - i) = Some (block e)
    /\ ips e = getKitchenIpsFromBlock (block e)
    /\ (individual e = true <-> ToString (flag_of (block e)) = Some (str "1")).
Proof.
  induction kblocks as [|b r IH]; cbn [kitchen_entries];
    intros i entries e H Hin.
  - inversion H; subst. destruct Hin.
  - fold (flag_of b) in H.
    destruct (ToString (flag_of b)) as [flag|] eqn:Ef; [|discriminate].
    destruct (kitchen_entries (S i) r) as [es|] eqn:Er; [|discriminate].
    inversion H; subst. destruct Hin as [<-|Hin].
    + simpl. rewrite Nat.sub_diag, Ef. repeat split; auto.
      * intros Hs. apply str_eqb_eq in Hs. now subst.
      * intros Hs. inversion Hs. apply str_eqb_refl.
    + destruct (IH _ _ _ Er Hin) as (Hle & Hn & Hrest). split; [lia|].
      split; [|exact Hrest].
      replace (idx e - i) with (S (idx e - S i)) by lia. exact Hn.
Qed.

Lemma kitchen_entries_ips kblocks :
  forall i entries,
    kitchen_entries i kblocks = Some entries ->
    flat_map ips entries = flat_map getKitchenIpsFromBlock kblocks.
Proof.
  induction kblocks as [|b r IH]; cbn [kitchen_entries]; intros i entries H.
  - inversion H. reflexivity.
  - destruct (ToString _) as [flag|]; [|discriminate].
    destruct (kitchen_entries (S i) r) as [es|] eqn:Er; [|discriminate].
    inversion H; subst. simpl. now rewrite (IH _ _ Er).
Qed.

Lemma no_hints_spec blocks entries :
  kitchen_entries 0 (kitchen_blocks blocks) = Some entries ->
  no_hints (cashier_ips blocks) entries = true <-> all_tokens blocks = [].
Proof.
  intros He. unfold no_hints, all_tokens.
  rewrite <- (kitchen_entries_ips _ _ _ He).
  destruct (cashier_ips blocks) as [|c cs]; simpl; [|split; discriminate].
  clear He. induction entries as [|k ks IH]; simpl; [tauto|].
  destruct (ips k) as [|i r]; simpl; [exact IH|split; discriminate].
Qed.

(** *** Target resolution *)

(** Resolving the targets throws exactly when a hint token of a block
    that is printed item by item resolves, and the item list of the
    block is not iterable. *)
Lemma resolve_targets_none saved cashierIps entries :
  resolve_targets saved cashierIps entries = None
  <-> exists e ip,
        In e entries /\ In ip (ips e) /\ individual e = true
        /\ findSavedByIpToken ip saved <> None
        /\ iter_items (block e) = None.
Proof.
  unfold resolve_targets, kitchen_targets.
  destruct (collect _ entries) as [ks|] eqn:Ek.
  - split; [discriminate|]. intros (e & ip & He & Hip & Hi & Hf & Hit).
    assert (H : collect (fun e => collect (token_targets saved e) (ips e))
                        entries = None); [|congruence].
    apply collect_none. exists e. split; [exact He|].
    apply collect_none. exists ip. split; [exact Hip|].
    unfold token_targets.
    destruct (findSavedByIpToken ip saved); [|congruence].
    now rewrite Hi, Hit.
  - split; [|reflexivity]. intros _. apply collect_none in Ek.
    destruct Ek as (e & He & Hc). apply collect_none in Hc.
    destruct Hc as (ip & Hip & Ht). exists e, ip.
    unfold token_targets in Ht.
    destruct (findSavedByIpToken ip saved) as [prof|]; [|discriminate].
    destruct (individual e); [|discriminate].
    destruct (iter_items (block e)); [discriminate|].
    repeat split; auto. discriminate.
Qed.

Lemma unresolved_tokens_no_target saved blocks entries :
  kitchen_entries 0 (kitchen_blocks blocks) = Some entries ->
  (forall ip, In ip (all_tokens blocks) ->
              findSavedByIpToken ip saved = None) ->
  resolve_targets saved (cashier_ips blocks) entries = Some [].
Proof.
  intros He H. unfold resolve_targets, kitchen_targets.
  unfold all_tokens in H. rewrite <- (kitchen_entries_ips _ _ _ He) in H.
  rewrite collect_nil.
  - rewrite app_nil_r. unfold cashier_targets.
    assert (Hc : forall ip, In ip (cashier_ips blocks) ->
                            findSavedByIpToken ip saved = None).
    { intros ip Hip. apply H. apply in_or_app. now left. }
    clear H He.
    induction (cashier_ips blocks) as [|c cs IH]; simpl; [reflexivity|].
    rewrite (Hc c (or_introl eq_refl)). simpl. apply IH.
    intros ip Hip. apply Hc. now right.
  - intros e Hin. apply collect_nil. intros ip Hip.
    unfold token_targets. rewrite H; [reflexivity|].
    apply in_or_app. right. apply in_flat_map. eauto.
Qed.

Lemma resolve_targets_saved saved cashierIps entries ts :
  resolve_targets saved cashierIps entries = Some ts ->
  Forall (fun t => In (profile t) saved) ts.
Proof.
  unfold resolve_targets.
  destruct (kitchen_targets saved _) as [ks|] eqn:Ek; [|discriminate].
  intros H. inversion H; subst; clear H. apply Forall_app. split.
  - apply Forall_forall. intros t Ht. unfold cashier_targets in Ht.
    apply in_flat_map in Ht. destruct Ht as (ip & _ & Ht).
    destruct (findSavedByIpToken ip saved) as [prof|] eqn:Ef; [|destruct Ht].
    destruct Ht as [<-|[]]. simpl.
    apply find_sound in Ef. destruct Ef as (_ & sc & _ & Hin & _).
    exact Hin.
  - apply Forall_forall. intros t Ht. unfold kitchen_targets in Ek.
    destruct (collect_elem _ _ _ _ Ek Ht) as (e & bs & _ & Hbs & Hin).
    destruct (collect_elem _ _ _ _ Hbs Hin) as (ip & us & _ & Hus & Hu).
    unfold token_targets in Hus.
    destruct (findSavedByIpToken ip saved) as [prof|] eqn:Ef.
    + apply find_sound in Ef.
      destruct Ef as (_ & sc & _ & Hsaved & _).
      destruct (individual e).
      * destruct (iter_items (block e)) as [items|]; [|discriminate].
        inversion Hus; subst. apply in_map_iff in Hu.
        destruct Hu as (it & <- & _). exact Hsaved.
      * inversion Hus; subst. destruct Hu as [<-|[]]. exact Hsaved.
    + inversion Hus; subst. destruct Hu.
Qed.

(** Every target is for a profile that a hint token selects. *)
Lemma resolve_targets_picked saved cashierIps entries ts :
  resolve_targets saved cashierIps entries = Some ts ->
  Forall (fun t => exists ip, findSavedByIpToken ip saved = Some (profile t))
         ts.
Proof.
  unfold resolve_targets.
  destruct (kitchen_targets saved _) as [ks|] eqn:Ek; [|discriminate].
  intros H. inversion H; subst; clear H. apply Forall_app. split.
  - apply Forall_forall. intros t Ht. unfold cashier_targets in Ht.
    apply in_flat_map in Ht. destruct Ht as (ip & _ & Ht).
    destruct (findSavedByIpToken ip saved) as [prof|] eqn:Ef; [|destruct Ht].
    destruct Ht as [<-|[]]. exists ip. exact Ef.
  - apply Forall_forall. intros t Ht. unfold kitchen_targets in Ek.
    destruct (collect_elem _ _ _ _ Ek Ht) as (e & bs & _ & Hbs & Hin).
    destruct (collect_elem _ _ _ _ Hbs Hin) as (ip & us & _ & Hus & Hu).
    unfold token_targets in Hus. exists ip.
    destruct (findSavedByIpToken ip saved) as [prof|] eqn:Ef.
    + destruct (individual e).
      * destruct (iter_items (block e)) as [items|]; [|discriminate].
        inversion Hus; subst. apply in_map_iff in Hu.
        destruct Hu as (it & <- & _). reflexivity.
      * inversion Hus; subst. destruct Hu as [<-|[]]. reflexivity.
    + inversion Hus; subst. destruct Hu.
Qed.

(** *** One profile per printer *)

(** The selected profile is the first of the stored list with its
    score, and no profile before it scores as much. *)
Lemma best_scored_first t saved sc p :
  best (scored_of t saved) = Some (sc, p) ->
  exists pre post,
    saved = pre ++ p :: post
    /\ score_of t p = Some sc
    /\ forall y s, In y pre -> score_of t y = Some s -> (s < sc)%Z.
Proof.
  revert sc p. induction saved as [|q r IH]; intros sc p; simpl;
    [discriminate|].
  destruct (score_of t q) as [sq|] eqn:Eq.
  - simpl. destruct (best (scored_of t r)) as [[sh ph]|] eqn:Eb.
    + simpl. destruct (sq <? sh)%Z eqn:C.
      * intros H. inversion H; subst.
        destruct (IH _ _ eq_refl) as (pre & post & -> & Hs & Hpre).
        exists (q :: pre), post. split; [reflexivity|]. split; [exact Hs|].
        intros y s [<-|Hy] Hy'.
        -- rewrite Eq in Hy'. inversion Hy'; subst. now apply Z.ltb_lt.
        -- exact (Hpre y s Hy Hy').
      * intros H. inversion H; subst. exists [], r.
        split; [reflexivity|]. split; [exact Eq|]. intros y s [].
    + intros H. inversion H; subst. exists [], r.
      split; [reflexivity|]. split; [exact Eq|]. intros y s [].
  - intros H. destruct (IH _ _ H) as (pre & post & -> & Hs & Hpre).
    exists (q :: pre), post. split; [reflexivity|]. split; [exact Hs|].
    intros y s [<-|Hy] Hy'; [congruence|]. exact (Hpre y s Hy Hy').
Qed.

(** The score of a profile depends on its printer only. *)
Lemma score_of_one_printer t p q :
  one_printer p q -> score_of t p = score_of t q.
Proof.
  intros [Hh Hp]. unfold score_of, normalizeHost. now rewrite Hh, Hp.
Qed.

Lemma split_twice {A} (a b : A) pre1 :
  forall post1 pre2 post2,
    pre1 ++ a :: post1 = pre2 ++ b :: post2 ->
    a = b \/ In a pre2 \/ In b pre1.
Proof.
  induction pre1 as [|x pre1 IH]; intros post1 [|y pre2] post2 H;
    simpl in H; inversion H; subst; simpl; auto.
  destruct (IH _ _ _ H2) as [E|[E|E]]; auto.
Qed.

(** Whatever the tokens, two profiles that are selected for one printer
    are the same profile. *)
Lemma picks_on_one_printer saved ip1 ip2 p1 p2 :
  findSavedByIpToken ip1 saved = Some p1 ->
  findSavedByIpToken ip2 saved = Some p2 ->
  one_printer p1 p2 -> p1 = p2.
Proof.
  intros H1 H2 Hone.
  destruct (find_sound _ _ _ H1) as (_ & sc1 & Hb1 & _ & _).
  destruct (find_sound _ _ _ H2) as (_ & sc2 & Hb2 & _ & _).
  destruct (best_scored_first _ _ _ _ Hb1) as (pre1 & post1 & E1 & S1 & F1).
  destruct (best_scored_first _ _ _ _ Hb2) as (pre2 & post2 & E2 & S2 & F2).
  rewrite E1 in E2.
  destruct (split_twice _ _ _ _ _ _ E2) as [E|[Hin|Hin]]; [exact E| |].
  - exfalso.
    rewrite <- (score_of_one_printer (parseIpToken ip2) p1 p2 Hone) in S2.
    specialize (F2 p1 sc2 Hin S2). lia.
  - exfalso.
    rewrite (score_of_one_printer (parseIpToken ip1) p1 p2 Hone) in S1.
    specialize (F1 p2 sc1 Hin S1). lia.
Qed.

(** *** Copy counts *)

(** The execution loop of a target has no end exactly when the copy
    count is above [2^53]. *)
Lemma rounds_none c : rounds c = None <-> above_2_53 c.
Proof.
  destruct c as [s|[|]| |[|] m e]; cbn [rounds above_2_53];
    try (split; [discriminate|intros []]);
    try (split; [reflexivity|auto]); try tauto.
  set (n := numerator m e). set (d := denominator e).
  assert (Hd : (0 < d)%Z).
  { subst d. unfold denominator. destruct (0 <=? e)%Z eqn:C; [lia|].
    apply Z.leb_gt in C. apply Z.pow_pos_nonneg; lia. }
  pose proof (Z.div_mod (n + d - 1) d ltac:(lia)) as Hdm.
  pose proof (Z.mod_pos_bound (n + d - 1) d Hd) as Hm.
  remember ((n + d - 1) / d)%Z as q eqn:Eq.
  remember ((n + d - 1) mod d)%Z as r eqn:Er.
  remember (2 ^ 53)%Z as K eqn:EK. cbv zeta.
  destruct (q <=? K)%Z eqn:C.
  - split; [discriminate|]. intros H. apply Z.leb_le in C. exfalso.
    assert (d * q <= d * K)%Z by (apply Z.mul_le_mono_nonneg_l; lia). lia.
  - split; [|reflexivity]. intros _. apply Z.leb_gt in C.
    assert (d * (K + 1) <= d * q)%Z by (apply Z.mul_le_mono_nonneg_l; lia).
    lia.
Qed.

Lemma distinct_length (ks : list jsstring) :
  length (distinct ks) <= length ks
  /\ (length (distinct ks) = length ks -> NoDup ks).
Proof.
  unfold distinct. induction ks as [|k ks [IH1 IH2]]; simpl.
  - split; [lia|constructor].
  - destruct (in_dec (list_eq_dec ascii_dec) k ks) as [H|H]; simpl.
    + split; [lia|]. intros E. lia.
    + split; [lia|]. intros E. constructor; [exact H|]. apply IH2. lia.
Qed.

(** *** Expansion of an individually printed kitchen block *)

Lemma key_in_spec keys u :
  key_in keys u = true <-> exists k, target_key u = Some k /\ In k keys.
Proof.
  unfold key_in. destruct (target_key u) as [k|].
  - rewrite seen_spec. split; [eauto|]. intros (k' & H & Hin).
    inversion H. now subst.
  - split; [discriminate|]. intros (k & H & _). discriminate.
Qed.

Lemma with_key_in_length keys us :
  NoDup keys ->
  NoDup (map target_key us) ->
  (forall k, In k keys -> In (Some k) (map target_key us)) ->
  length (with_key_in keys us) = length keys.
Proof.
  intros Hk Hu Hsub.
  set (sel := fun o : option jsstring =>
                match o with
                | Some k => existsb (str_eqb k) keys
                | None => false
                end).
  assert (Hlen : length (with_key_in keys us)
                 = length (filter sel (map target_key us))).
  { unfold with_key_in, key_in. clear. induction us as [|u us IH]; simpl; auto.
    destruct (target_key u) as [k|]; simpl; auto.
    destruct (existsb (str_eqb k) keys); simpl; auto. }
  rewrite Hlen, <- (length_map (@Some jsstring) keys).
  apply Permutation.Permutation_length.
  apply Permutation.NoDup_Permutation.
  - now apply NoDup_filter.
  - apply Finite.Injective_map_NoDup; [|exact Hk].
    intros a b H. now inversion H.
  - intros o. split.
    + intros Ho. apply filter_In in Ho. destruct Ho as [_ Hs].
      unfold sel in Hs. destruct o as [k|]; [|discriminate].
      apply seen_spec in Hs. apply in_map. exact Hs.
    + intros Ho. apply in_map_iff in Ho. destruct Ho as (k & <- & Hin).
      apply filter_In. split; [now apply Hsub|].
      unfold sel. now apply seen_spec.
Qed.

Lemma with_key_in_distinct keys us :
  with_key_in (distinct keys) us = with_key_in keys us.
Proof.
  unfold with_key_in. apply filter_ext. intros u.
  destruct (key_in keys u) eqn:E.
  - apply key_in_spec in E. destruct E as (k & Hk & Hin).
    apply key_in_spec. exists k. split; [exact Hk|].
    unfold distinct. now apply nodup_In.
  - destruct (key_in (distinct keys) u) eqn:E'; [|reflexivity].
    apply key_in_spec in E'. destruct E' as (k & Hk & Hin).
    unfold distinct in Hin. apply nodup_In in Hin.
    assert (H : key_in keys u = true) by (apply key_in_spec; eauto).
    congruence.
Qed.

(** As many targets of a deduplicated list carry one of the given keys
    as there are different keys among them, when every one occurs. *)
Lemma with_key_in_count keys us :
  NoDup (map target_key us) ->
  (forall k, In k keys -> In (Some k) (map target_key us)) ->
  length (with_key_in keys us) = length (distinct keys).
Proof.
  intros Hu Hsub. rewrite <- with_key_in_distinct.
  apply with_key_in_length; [apply NoDup_nodup|exact Hu|].
  intros k Hk. apply Hsub. unfold distinct in Hk. now apply nodup_In in Hk.
Qed.

Lemma NoDup_distinct ks : NoDup ks -> distinct ks = ks.
Proof. intros H. unfold distinct. now apply nodup_fixed_point. Qed.

Lemma expanded_keys prof i items ks :
  map item_key items = map Some ks ->
  map target_key (map (item_target prof i) items)
  = map (fun k => Some (slice_key prof kitchen (Some i) ++ k)) ks.
Proof.
  revert ks. induction items as [|it items IH]; intros [|k ks] H;
    try discriminate; [reflexivity|].
  simpl in H. inversion H as [[Hk Hr]]. simpl. rewrite (IH _ Hr).
  unfold target_key at 1. simpl. now rewrite Hk.
Qed.

Lemma keys_defined (items : list value) :
  (forall it, In it items -> item_key it <> None) ->
  exists ks, map item_key items = map Some ks.
Proof.
  induction items as [|it items IH]; intros H; [exists []; reflexivity|].
  destruct IH as [ks Hks]; [intros x Hx; apply H; now right|].
  destruct (item_key it) as [k|] eqn:Ek;
    [|exfalso; apply (H it); [now left|exact Ek]].
  exists (k :: ks). simpl. now rewrite Ek, Hks.
Qed.

(** *** Payloads *)

Lemma lookup_set_field k v fields : lookup k (set_field k v fields) = v.
Proof.
  induction fields as [|[k' v'] r IH]; simpl.
  - now rewrite str_eqb_refl.
  - destruct (str_eqb k' k) eqn:E; simpl.
    + now rewrite str_eqb_refl.
    + now rewrite E.
Qed.

(** The payload built for one item holds one block, whose item list is
    that item alone. *)
Lemma single_item_payload json b it :
  exists single,
    get_prop (buildSingleKitchenItemPayload json b it) (str "data")
    = VArr [single]
    /\ get_prop (get_prop single (str "data")) (str "itemdata") = VArr [it].
Proof.
  unfold buildSingleKitchenItemPayload. eexists. split.
  - simpl get_prop at 1. apply lookup_set_field.
  - simpl. rewrite lookup_set_field. simpl. apply lookup_set_field.
Qed.

(** The payload built for a block holds that block as it is. *)
Lemma whole_block_payload json b :
  get_prop (buildKitchenPayload json b) (str "data") = VArr [b].
Proof. unfold buildKitchenPayload. simpl. apply lookup_set_field. Qed.

(** Whatever target carries an item is printed with a payload for that
    item alone. *)
Lemma item_target_payload json kblocks u payload :
  ttype u = kitchen ->
  truthy (item u) = true ->
  payload_of json kblocks u = Some payload ->
  exists single,
    get_prop payload (str "data") = VArr [single]
    /\ get_prop (get_prop single (str "data")) (str "itemdata")
       = VArr [item u].
Proof.
  intros Hty Hit. unfold payload_of. rewrite Hty, Hit.
  destruct (nth_error kblocks match blockIdx u with
                              | Some i => i
                              | None => 0
                              end) as [b|]; [|discriminate].
  destruct (truthy b); [|discriminate].
  intros H. inversion H; subst. apply single_item_payload.
Qed.

Lemma payload_of_forms json kblocks t payload :
  payload_of json kblocks t = Some payload ->
  payload = json
  \/ exists b,
       In b kblocks
       /\ (payload = buildKitchenPayload json b
           \/ exists it, payload = buildSingleKitchenItemPayload json b it).
Proof.
  unfold payload_of. destruct (ttype t).
  - intros H. inversion H. now left.
  - destruct (nth_error kblocks _) as [b|] eqn:En; [|discriminate].
    destruct (truthy b); [|discriminate].
    intros H. inversion H; subst; clear H. right. exists b.
    split; [eapply nth_error_In; exact En|].
    destruct (truthy (item t)); eauto.
Qed.

(** *** The expansion on sample documents *)

Example expansion_of_two_items :
  match resolve_targets [lan_printer "192.168.1.20" 9100] []
          [{| block := kitchen_block "192.168.1.20" "1" tea_and_scone;
              ips := [str "192.168.1.20"]; individual := true; idx := 0 |}]
  with
  | Some ts => option_map (map target_key) (uniqueTargets ts)
  | None => None
  end
  = Some [Some (str "192.168.1.20:9100|kitchen|b0|Tea#1");
          Some (str "192.168.1.20:9100|kitchen|b0|Scone#2")].
Proof. vm_compute. reflexivity. Qed.

(** *** Execution *)

Lemma served_nil json kblocks us : served json kblocks us [] = [].
Proof. destruct us; reflexivity. Qed.

Lemma within_copies_nil us : within_copies us [].
Proof. destruct us; exact I. Qed.

Lemma within_copies_length us :
  forall ns, within_copies us ns -> length ns <= length us.
Proof.
  induction us as [|t us IH]; intros [|n ns]; simpl; try lia; try tauto.
  intros [_ H]. specialize (IH _ H). lia.
Qed.

Lemma served_in json kblocks us :
  forall ns j,
    In j (served json kblocks us ns) ->
    exists t,
      In t us /\ fst j = profile t
      /\ payload_of json kblocks t = Some (snd j).
Proof.
  induction us as [|t us IH]; intros [|n ns] j; simpl; try tauto.
  intros H. apply in_app_or in H. destruct H as [H|H].
  - destruct (payload_of json kblocks t) as [payload|] eqn:Ep; [|destruct H].
    apply repeat_spec in H. subst j. exists t. auto.
  - destruct (IH _ _ H) as (u & Hu & Hj). exists u. auto.
Qed.

Section Printers.

Variable printer : list print_job -> print_job -> bool.
Variable observed : nat.

Lemma all_complete_app a :
  forall tr b,
    all_complete printer tr (a ++ b)
    = all_complete printer tr a && all_complete printer (tr ++ a) b.
Proof.
  induction a as [|j a IH]; intros tr b; simpl.
  - now rewrite app_nil_r.
  - rewrite IH, <- app_assoc, andb_assoc. reflexivity.
Qed.

Lemma ends_well_app tr a b A (o : outcome A) :
  all_complete printer tr a = true ->
  ends_well printer (tr ++ a) b A o ->
  ends_well printer tr (a ++ b) A o.
Proof.
  intros Ha. unfold ends_well. destruct o as [x| |].
  - intros Hb. now rewrite all_complete_app, Ha, Hb.
  - intros (pre & j & -> & Hp & Hj). exists (a ++ pre), j.
    rewrite all_complete_app, Ha, Hp, app_assoc.
    rewrite <- (app_assoc tr a pre) in Hj. auto.
  - intros Hb. now rewrite all_complete_app, Ha, Hb.
Qed.

Lemma ends_well_all tr calls A (o : outcome A) :
  ends_well printer tr calls A o ->
  o <> Threw -> all_complete printer tr calls = true.
Proof. destruct o; simpl; auto; intros _ H; now contradiction H. Qed.

Lemma print_copies_run n job :
  forall tr,
    exists m o,
      print_copies printer n job tr = (tr ++ repeat job m, o)
      /\ m <= n
      /\ ends_well printer tr (repeat job m) unit o
      /\ (o = Returned tt /\ m = n \/ o = Threw).
Proof.
  induction n as [|n IH]; intros tr; simpl.
  - exists 0, (Returned tt). simpl. rewrite app_nil_r.
    split; [reflexivity|]. split; [lia|]. split; [reflexivity|]. now left.
  - destruct (printer tr job) eqn:E.
    + destruct (IH (tr ++ [job])) as (m & o & Hc & Hm & He & Ho).
      exists (S m), o. rewrite Hc, <- app_assoc.
      split; [reflexivity|]. split; [lia|]. split.
      * apply (ends_well_app tr [job] (repeat job m));
          [simpl; now rewrite E|exact He].
      * destruct Ho as [[-> ->]| ->]; auto.
    + exists 1, Threw. split; [reflexivity|]. split; [lia|].
      split; [|now right]. exists [], job. rewrite app_nil_r. auto.
Qed.

Lemma print_forever_run n job :
  forall tr,
    exists m o,
      print_forever printer n job tr = (tr ++ repeat job m, o)
      /\ ends_well printer tr (repeat job m) unit o
      /\ (o = Diverged /\ m = n \/ o = Threw).
Proof.
  induction n as [|n IH]; intros tr; simpl.
  - exists 0, Diverged. simpl. rewrite app_nil_r.
    split; [reflexivity|]. split; [reflexivity|]. now left.
  - destruct (printer tr job) eqn:E.
    + destruct (IH (tr ++ [job])) as (m & o & Hc & He & Ho).
      exists (S m), o. rewrite Hc, <- app_assoc.
      split; [reflexivity|]. split.
      * apply (ends_well_app tr [job] (repeat job m));
          [simpl; now rewrite E|exact He].
      * destruct Ho as [[-> ->]| ->]; auto.
    + exists 1, Threw. split; [reflexivity|].
      split; [|now right]. exists [], job. rewrite app_nil_r. auto.
Qed.

(** The execution loop serves the targets in order, each one with at
    most the copies of its profile, until a print call throws. *)
Lemma exec_targets_run json kblocks ts :
  forall tr,
    exists ns o,
      exec_targets printer observed json kblocks ts tr
      = (tr ++ served json kblocks ts ns, o)
      /\ within_copies ts ns
      /\ ends_well printer tr (served json kblocks ts ns) unit o
      /\ (o = Diverged ->
          exists t, In t ts /\ rounds (copies_of (profile t)) = None).
Proof.
  induction ts as [|t ts IH]; intros tr; cbn [exec_targets].
  - exists [], (Returned tt). rewrite app_nil_r.
    repeat split; auto. discriminate.
  - destruct (payload_of json kblocks t) as [payload|] eqn:Ep.
    + destruct (rounds (copies_of (profile t))) as [n|] eqn:Er.
      * destruct (print_copies_run n (profile t, payload) tr)
          as (m & o1 & E1 & Hm & W1 & Ho1).
        rewrite E1. destruct Ho1 as [[-> ->]| ->].
        -- match goal with
           | |- context [exec_targets _ _ _ _ _ ?x] =>
               destruct (IH x) as (ns & o & E2 & Hw & W2 & Hd)
           end.
           exists (n :: ns), o. rewrite E2. cbn [served].
           rewrite Ep, app_assoc.
           split; [reflexivity|]. split.
           ++ split; [|exact Hw]. intros c Hc. rewrite Er in Hc.
              inversion Hc. lia.
           ++ split; [apply ends_well_app; [|exact W2];
                      now apply (ends_well_all _ _ _ _ W1)|].
              intros Ho. destruct (Hd Ho) as (u & Hu & Hr).
              exists u. split; [now right|exact Hr].
        -- exists [m], Threw. cbn [served].
           rewrite Ep, served_nil, app_nil_r.
           split; [reflexivity|]. split.
           ++ split; [|apply within_copies_nil].
              intros c Hc. rewrite Er in Hc. inversion Hc. lia.
           ++ split; [exact W1|discriminate].
      * destruct (print_forever_run observed (profile t, payload) tr)
          as (m & o & E1 & W1 & Ho).
        rewrite E1. exists [m], o. cbn [served].
        rewrite Ep, served_nil, app_nil_r.
        split; [reflexivity|]. split.
        -- split; [|apply within_copies_nil]. intros c Hc.
           rewrite Er in Hc. discriminate.
        -- split; [exact W1|]. intros _. exists t. split; [now left|exact Er].
    + destruct (IH tr) as (ns & o & E2 & Hw & W2 & Hd).
      exists (0 :: ns), o. rewrite E2. cbn [served]. rewrite Ep.
      split; [reflexivity|]. split.
      * split; [|exact Hw]. intros c _. lia.
      * split; [exact W2|]. intros Ho. destruct (Hd Ho) as (u & Hu & Hr).
        exists u. split; [now right|exact Hr].
Qed.

Lemma print_copies_all n job :
  (forall tr j, printer tr j = true) ->
  forall tr,
    print_copies printer n job tr = (tr ++ repeat job n, Returned tt).
Proof.
  intros Hp. induction n as [|n IH]; intros tr; simpl.
  - now rewrite app_nil_r.
  - rewrite Hp, IH, <- app_assoc. reflexivity.
Qed.

Lemma exec_targets_completes json kblocks ts :
  (forall tr j, printer tr j = true) ->
  (forall t, In t ts -> rounds (copies_of (profile t)) <> None) ->
  forall tr,
    exists tr',
      exec_targets printer observed json kblocks ts tr = (tr', Returned tt).
Proof.
  intros Hp. induction ts as [|t ts IH]; intros Hr tr; simpl; [eauto|].
  assert (Hr' : forall u, In u ts -> rounds (copies_of (profile u)) <> None)
    by (intros u Hu; apply Hr; now right).
  destruct (payload_of json kblocks t) as [payload|]; [|now apply IH].
  destruct (rounds (copies_of (profile t))) as [n|] eqn:E.
  - rewrite (print_copies_all n (profile t, payload) Hp tr). now apply IH.
  - exfalso. apply (Hr t); [now left|exact E].
Qed.

(** How a job runs: it ends before the execution loop, without a print
    call, or it executes the deduplicated targets of its hints. *)
Lemma handleMultiLanPrint_run json saved :
  let run := handleMultiLanPrint printer observed json saved in
  run = ([], Threw)
  \/ (exists h, run = ([], Returned {| handled := h; matched := false |}))
  \/ exists blocks entries ts us ns o,
       data_blocks json = Some blocks
       /\ kitchen_entries 0 (kitchen_blocks blocks) = Some entries
       /\ no_hints (cashier_ips blocks) entries = false
       /\ resolve_targets saved (cashier_ips blocks) entries = Some ts
       /\ ts <> []
       /\ uniqueTargets ts = Some us
       /\ within_copies us ns
       /\ ends_well printer [] (served json (kitchen_blocks blocks) us ns)
                    unit o
       /\ (o = Diverged ->
           exists t, In t us /\ rounds (copies_of (profile t)) = None)
       /\ run = (served json (kitchen_blocks blocks) us ns, job_outcome o).
Proof.
  intros run. subst run. unfold handleMultiLanPrint.
  destruct (data_blocks json) as [blocks|] eqn:Ed; [|now left].
  cbv zeta.
  destruct (kitchen_entries 0 (kitchen_blocks blocks)) as [entries|] eqn:Ee;
    [|now left].
  destruct (no_hints (cashier_ips blocks) entries) eqn:En;
    [right; left; eauto|].
  destruct (resolve_targets saved (cashier_ips blocks) entries) as [ts|] eqn:Er;
    [|now left].
  destruct ts as [|t0 ts0]; [right; left; eauto|].
  set (ts := t0 :: ts0) in *.
  destruct (uniqueTargets ts) as [us|] eqn:Eu; [|now left].
  destruct (exec_targets_run json (kitchen_blocks blocks) us [])
    as (ns & o & E & Hw & W & Hd).
  rewrite E. cbn [app]. right. right.
  exists blocks, entries, ts, us, ns, o.
  repeat (split; [first [reflexivity|assumption|discriminate]|]).
  destruct o as [[]| |]; reflexivity.
Qed.

End Printers.

(** C6, as the code has it. Take a job on a document whose [data] is
    the list [blocks], whose targets are resolved and deduplicated
    without an exception, a kitchen block of it that is
    printed item by item (its flag converts to ["1"]), one of the hint
    tokens of the block that resolves to a stored profile, and the [N]
    line items of the block. Then the token expands to [N] targets for
    that profile and block, one per item, in order, which are part of
    the targets of the job. Every item has an identity key
    ([item_name#display_index], the empty key for a falsy item), and as
    many targets of the executed (deduplicated) list carry one of the
    keys of the expansion as the items have different keys: exactly [N]
    when the keys are pairwise distinct, in which case the [N] targets
    have pairwise distinct keys, and fewer when items share a key. A
    target for a truthy item is printed with the block reduced to that
    single item, a target for a falsy item ([null], [0], the empty
    string) with the whole block; and every executed target that carries
    a truthy item is printed with that single item. Whatever the
    printers do, the print calls of the job are those of the executed
    list, target by target in its order, each target with its payload
    and no more often than its profile asks for copies; the job ends
    with an exception only behind a print call that failed. *)
Theorem individual_block_expands_per_item
  (json : value) (saved : list NetPrinterProfile) (blocks : list value)
  (entries : list KitchenEntry) (e : KitchenEntry) (ip : jsstring)
  (prof : NetPrinterProfile) (items : list value) (ts us : list target) :
  data_blocks json = Some blocks ->
  kitchen_entries 0 (kitchen_blocks blocks) = Some entries ->
  In e entries ->
  individual e = true ->
  In ip (ips e) ->
  findSavedByIpToken ip saved = Some prof ->
  iter_items (block e) = Some items ->
  resolve_targets saved (cashier_ips blocks) entries = Some ts ->
  uniqueTargets ts = Some us ->
  let expanded := map (item_target prof (idx e)) items in
  let slice := slice_key prof kitchen (Some (idx e)) in
  nth_error (kitchen_blocks blocks) (idx e) = Some (block e)
  /\ ToString (flag_of (block e)) = Some (str "1")
  /\ In ip (getKitchenIpsFromBlock (block e))
  /\ token_targets saved e ip = Some expanded
  /\ length expanded = length items
  /\ (exists pre post, ts = pre ++ expanded ++ post)
  /\ (exists ks,
         map item_key items = map Some ks
         /\ map target_key expanded = map (fun k => Some (slice ++ k)) ks
         /\ length (with_key_in (map (app slice) ks) us)
            = length (distinct ks)
         /\ length (distinct ks) <= length items
         /\ (NoDup ks ->
             NoDup (map target_key expanded)
             /\ length (with_key_in (map (app slice) ks) us)
                = length items)
         /\ (~ NoDup ks ->
             length (with_key_in (map (app slice) ks) us) < length items))
  /\ (forall it,
         In it items ->
         payload_of json (kitchen_blocks blocks)
                    (item_target prof (idx e) it)
         = Some (if truthy it
                 then buildSingleKitchenItemPayload json (block e) it
                 else buildKitchenPayload json (block e)))
  /\ (forall it,
         exists single,
           get_prop (buildSingleKitchenItemPayload json (block e) it)
                    (str "data") = VArr [single]
           /\ get_prop (get_prop single (str "data")) (str "itemdata")
              = VArr [it])
  /\ get_prop (buildKitchenPayload json (block e)) (str "data")
     = VArr [block e]
  /\ (forall u payload,
         In u us ->
         ttype u = kitchen ->
         truthy (item u) = true ->
         payload_of json (kitchen_blocks blocks) u = Some payload ->
         exists single,
           get_prop payload (str "data") = VArr [single]
           /\ get_prop (get_prop single (str "data")) (str "itemdata")
              = VArr [item u])
  /\ (forall printer observed,
         exists ns o,
           handleMultiLanPrint printer observed json saved
           = (served json (kitchen_blocks blocks) us ns, o)
           /\ within_copies us ns
           /\ ends_well printer []
                        (served json (kitchen_blocks blocks) us ns)
                        result o).
Proof.
  intros Hdata Hent He Hind Hip Hfind Hitems Hres Huniq expanded slice.
  destruct (kitchen_entries_nth _ _ _ _ Hent He) as (_ & Hnth & Hips & Hflag).
  rewrite Nat.sub_0_r in Hnth.
  assert (Htok : token_targets saved e ip = Some expanded).
  { unfold token_targets. now rewrite Hfind, Hind, Hitems. }
  assert (Hpart : exists pre post, ts = pre ++ expanded ++ post).
  { unfold resolve_targets in Hres.
    destruct (kitchen_targets saved entries) as [ks|] eqn:Ek; [|discriminate].
    inversion Hres; subst ts. unfold kitchen_targets in Ek.
    destruct (collect_some_in _ _ e _ Ek He) as [bs Hbs].
    destruct (collect_in _ _ e bs _ Ek He Hbs) as (pre & post & ->).
    destruct (collect_in _ _ ip expanded _ Hbs Hip Htok) as (pre' & post' & ->).
    exists (cashier_targets saved (cashier_ips blocks) ++ pre ++ pre'),
           (post' ++ post).
    now rewrite <- !app_assoc. }
  assert (Hin : forall t, In t expanded -> In t ts).
  { destruct Hpart as (pre & post & ->). intros t Ht.
    apply in_or_app. right. apply in_or_app. now left. }
  assert (Hdef : forall it, In it items -> item_key it <> None).
  { intros it Hit Hk.
    assert (Hn : dedupe [] ts = None);
      [|unfold uniqueTargets in Huniq; congruence].
    apply dedupe_none. exists (item_target prof (idx e) it).
    split; [apply Hin; now apply in_map|].
    now apply target_key_none. }
  destruct (keys_defined items Hdef) as [ks Hks].
  pose proof (expanded_keys prof (idx e) items ks Hks) as Hkeys.
  fold expanded slice in Hkeys.
  assert (Hlen : length ks = length items).
  { rewrite <- (length_map (@Some jsstring) ks), <- Hks. apply length_map. }
  assert (Hall : forall k, In k (map (app slice) ks) ->
                           In (Some k) (map target_key us)).
  { intros k Hk. apply in_map_iff in Hk. destruct Hk as (k0 & <- & Hk0).
    assert (Ht : In (Some (slice ++ k0)) (map target_key expanded)).
    { rewrite Hkeys. apply in_map_iff. eauto. }
    apply in_map_iff in Ht. destruct Ht as (t & Htk & Ht).
    destruct (dedupe_complete [] ts us t Huniq (Hin t Ht))
      as (k' & Hk' & [[]|H]).
    rewrite Htk in Hk'. inversion Hk'. subst k'. exact H. }
  assert (Hinj : forall a b : jsstring, slice ++ a = slice ++ b -> a = b)
    by (intros a b; apply app_inv_head).
  assert (Hdist : length (distinct (map (app slice) ks))
                  = length (distinct ks)).
  { clear - Hinj. unfold distinct.
    induction ks as [|k ks IH]; [reflexivity|]. simpl.
    destruct (in_dec (list_eq_dec ascii_dec) (slice ++ k)
                     (map (app slice) ks)) as [H|H];
      destruct (in_dec (list_eq_dec ascii_dec) k ks) as [H'|H'];
      simpl; auto.
    - exfalso. apply H'. apply in_map_iff in H.
      destruct H as (k' & Hk' & Hin). apply Hinj in Hk'. now subst.
    - exfalso. apply H. now apply in_map. }
  split; [exact Hnth|]. split; [now apply Hflag|].
  split; [now rewrite <- Hips|]. split; [exact Htok|].
  split; [apply length_map|]. split; [exact Hpart|].
  split; [|split; [|split; [|split; [|split]]]].
  - exists ks. split; [exact Hks|]. split; [exact Hkeys|].
    assert (Hcount : length (with_key_in (map (app slice) ks) us)
                     = length (distinct ks)).
    { rewrite <- Hdist. apply with_key_in_count; [|exact Hall].
      exact (dedupe_nodup _ _ _ Huniq). }
    split; [exact Hcount|]. split.
    + rewrite <- Hlen. unfold distinct.
      apply NoDup_incl_length; [apply NoDup_nodup|].
      intros k Hk. now apply nodup_In in Hk.
    + split.
      * intros Hnd. split.
        -- rewrite Hkeys.
           apply Finite.Injective_map_NoDup; [|exact Hnd].
           intros a b H. inversion H. now apply Hinj.
        -- now rewrite Hcount, (NoDup_distinct ks Hnd).
      * intros Hnd. rewrite Hcount, <- Hlen.
        destruct (distinct_length ks) as [Hle Heq].
        destruct (Nat.eq_dec (length (distinct ks)) (length ks)) as [E|E];
          [|lia].
        exfalso. exact (Hnd (Heq E)).
  - intros it Hit.
    assert (Hb : truthy (block e) = true).
    { apply nth_error_In in Hnth. apply filter_In in Hnth.
      destruct Hnth as [_ Hty].
      destruct (has_type_object _ _ Hty) as [fields ->]. reflexivity. }
    unfold payload_of. simpl. now rewrite Hnth, Hb.
  - intros it. apply single_item_payload.
  - apply whole_block_payload.
  - intros u payload _. apply item_target_payload.
  - intros printer observed. unfold handleMultiLanPrint.
    rewrite Hdata. cbv zeta. rewrite Hent.
    assert (Hno : no_hints (cashier_ips blocks) entries = false).
    { destruct (no_hints (cashier_ips blocks) entries) eqn:E; [|reflexivity].
      apply (no_hints_spec _ _ Hent) in E. exfalso.
      assert (Hin' : In ip (all_tokens blocks)).
      { unfold all_tokens. apply in_or_app. right.
        rewrite <- (kitchen_entries_ips _ _ _ Hent).
        apply in_flat_map. eauto. }
      rewrite E in Hin'. destruct Hin'. }
    rewrite Hno, Hres. destruct ts as [|t0 ts0].
    + inversion Huniq; subst us. exists [], (Returned {| handled := true;
                                                        matched := false |}).
      split; [reflexivity|]. split; exact I || reflexivity.
    + rewrite Huniq.
      destruct (exec_targets_run printer observed json
                  (kitchen_blocks blocks) us [])
        as (ns & o & E & Hw & W & _).
      rewrite E. cbn [app]. destruct o as [[]| |].
      * eexists ns, _. split; [reflexivity|]. split; [exact Hw|exact W].
      * eexists ns, _. split; [reflexivity|]. split; [exact Hw|exact W].
      * eexists ns, _. split; [reflexivity|]. split; [exact Hw|exact W].
Qed.

Lemma individual_block_expands_per_item_witness :
  let saved := [lan_printer "192.168.1.20" 9100] in
  let kb := kitchen_block "192.168.1.20" "1" tea_and_scone in
  let e := {| block := kb; ips := [str "192.168.1.20"];
              individual := true; idx := 0 |} in
  let expanded :=
    map (item_target (lan_printer "192.168.1.20" 9100) 0) tea_and_scone in
  kitchen_entries 0 (kitchen_blocks [kb]) = Some [e]
  /\ resolve_targets saved (cashier_ips [kb]) [e] = Some expanded
  /\ uniqueTargets expanded = Some expanded
  /\ token_targets saved e (str "192.168.1.20") = Some expanded
  /\ length expanded = 2.
Proof.
  intros saved kb e expanded.
  assert (He : kitchen_entries 0 (kitchen_blocks [kb]) = Some [e])
    by (vm_compute; reflexivity).
  assert (Hr : resolve_targets saved (cashier_ips [kb]) [e] = Some expanded)
    by (vm_compute; reflexivity).
  assert (Hu : uniqueTargets expanded = Some expanded)
    by (vm_compute; reflexivity).
  assert (Hf : findSavedByIpToken (str "192.168.1.20") saved
               = Some (lan_printer "192.168.1.20" 9100))
    by (vm_compute; reflexivity).
  split; [exact He|]. split; [exact Hr|]. split; [exact Hu|].
  pose proof (individual_block_expands_per_item
                (document [kb]) saved [kb] [e] e (str "192.168.1.20")
                (lan_printer "192.168.1.20" 9100) tea_and_scone expanded
                expanded eq_refl He (or_introl eq_refl) eq_refl
                (or_introl eq_refl) Hf eq_refl Hr Hu) as H.
  split; [exact (proj1 (proj2 (proj2 (proj2 H))))|].
  exact (proj1 (proj2 (proj2 (proj2 (proj2 H))))).
Defined.

(** C6 fails as stated: a block printed item by item whose two line
    items share their name and have no display index expands to two
    targets, of which the executed list keeps one. *)
Lemma items_of_one_name_collapse :
  let saved := [lan_printer "192.168.1.20" 9100] in
  let kb := kitchen_block "192.168.1.20" "1" two_teas in
  let e := {| block := kb; ips := [str "192.168.1.20"];
              individual := true; idx := 0 |} in
  kitchen_entries 0 (kitchen_blocks [kb]) = Some [e]
  /\ iter_items kb = Some two_teas
  /\ length two_teas = 2
  /\ findSavedByIpToken (str "192.168.1.20") saved
     = Some (lan_printer "192.168.1.20" 9100)
  /\ option_map (@length target)
                (resolve_targets saved (cashier_ips [kb]) [e]) = Some 2
  /\ match resolve_targets saved (cashier_ips [kb]) [e] with
     | Some ts => option_map (@length target) (uniqueTargets ts)
     | None => None
     end = Some 1
  /\ map item_key two_teas = [Some (str "Tea#"); Some (str "Tea#")].
Proof. vm_compute. repeat split; reflexivity. Qed.

(** An item that is [null] gets a target like any other item, with the
    empty key, and that target is printed with the whole block. *)
Example null_item_prints_the_whole_block :
  let P := lan_printer "192.168.1.20" 9100 in
  let items := [VNull; line_item "Tea" []] in
  let kb := kitchen_block "192.168.1.20" "1" items in
  map item_key items = [Some []; Some (str "Tea#")]
  /\ handleMultiLanPrint reliable 0 (document [kb]) [P]
     = ([(P, buildKitchenPayload (document [kb]) kb);
         (P, buildSingleKitchenItemPayload (document [kb]) kb
               (line_item "Tea" []))],
        Returned {| handled := true; matched := true |}).
Proof. vm_compute. split; reflexivity. Qed.

Section Jobs.

Variable printer : list print_job -> print_job -> bool.
Variable observed : nat.

(** C7. Whenever a job makes a print call, it has resolved its hints to
    a list of targets [ts] and executes the deduplicated list [us]: no
    two targets of [us] have the same key, hence no two have the same
    (host, port, kind, block index, item key), nor are two of them for
    one printer (the same host once trimmed, the same port, 9100 for a
    missing one) with the same kind, block index and item key; nothing
    but repetitions is removed from [ts]; and the print calls of the job
    are those of
    [us], target by target in the order of [us]: one run of calls per
    target, each with the payload of the target, no longer than the
    copies its profile asks for. So no slice is served a second time,
    however many hint tokens resolve to its printer. The item key is
    read from the name and the display index of the item, not from the
    item object; and a document whose two cashier hints resolve to one
    printer is printed there once. *)
Theorem executed_targets_are_distinct
  (json : value) (saved : list NetPrinterProfile) :
  (forall tr (o : outcome result),
      handleMultiLanPrint printer observed json saved = (tr, o) ->
      tr <> [] ->
      exists blocks entries ts us ns,
        data_blocks json = Some blocks
        /\ kitchen_entries 0 (kitchen_blocks blocks) = Some entries
        /\ resolve_targets saved (cashier_ips blocks) entries = Some ts
        /\ uniqueTargets ts = Some us
        /\ NoDup (map target_key us)
        /\ (forall u, In u us -> target_key u <> None)
        /\ (forall i j ti tj,
               nth_error us i = Some ti ->
               nth_error us j = Some tj ->
               host (profile ti) = host (profile tj) ->
               port_or_default (profile ti) = port_or_default (profile tj) ->
               ttype ti = ttype tj ->
               blockIdx ti = blockIdx tj ->
               item_key (item ti) = item_key (item tj) ->
               i = j)
        /\ (forall i j ti tj,
               nth_error us i = Some ti ->
               nth_error us j = Some tj ->
               one_printer (profile ti) (profile tj) ->
               ttype ti = ttype tj ->
               blockIdx ti = blockIdx tj ->
               item_key (item ti) = item_key (item tj) ->
               i = j)
        /\ (forall u, In u us -> In u ts)
        /\ (forall t, In t ts ->
                      exists u, In u us /\ target_key u = target_key t)
        /\ tr = served json (kitchen_blocks blocks) us ns
        /\ within_copies us ns)
  /\ (forall it it',
         truthy it = truthy it' ->
         get_prop it (str "item_name") = get_prop it' (str "item_name") ->
         get_prop it (str "display_index")
         = get_prop it' (str "display_index") ->
         item_key it = item_key it')
  /\ (let doc := document [two_hints] in
      let P := lan_printer "192.168.1.10" 9100 in
      resolve_targets [P] (cashier_ips [two_hints]) []
      = Some [{| profile := P; ttype := cashier; blockIdx := None;
                 item := VUndefined |};
              {| profile := P; ttype := cashier; blockIdx := None;
                 item := VUndefined |}]
      /\ handleMultiLanPrint reliable observed doc [P]
         = ([(P, doc)], Returned {| handled := true; matched := true |})).
Proof.
  split; [|split; [exact item_key_of_name_and_index|]].
  - intros tr o H Hne.
    destruct (handleMultiLanPrint_run printer observed json saved)
      as [E|[(h & E)|(blocks & entries & ts & us & ns & o' & Hd & He & _
                       & Hr & _ & Hu & Hw & _ & _ & E)]];
      rewrite E in H; inversion H; subst; try congruence.
    exists blocks, entries, ts, us, ns.
    pose proof (dedupe_nodup [] ts us Hu) as Hnd.
    repeat (split; [assumption|]).
    assert (Htuple : forall i j ti tj,
               nth_error us i = Some ti ->
               nth_error us j = Some tj ->
               host (profile ti) = host (profile tj) ->
               port_or_default (profile ti) = port_or_default (profile tj) ->
               ttype ti = ttype tj ->
               blockIdx ti = blockIdx tj ->
               item_key (item ti) = item_key (item tj) ->
               i = j).
    { intros i j ti tj Hi Hj H1 H2 H3 H4 H5.
      pose proof (target_key_of_slice ti tj H1 H2 H3 H4 H5) as Hk.
      rewrite NoDup_nth_error in Hnd. apply Hnd.
      * rewrite length_map. apply nth_error_Some. congruence.
      * rewrite !nth_error_map, Hi, Hj. simpl. now rewrite Hk. }
    split; [|split; [|split; [|split; [|split]]]].
    + intros u Hin. destruct (dedupe_sound [] ts us u Hu Hin)
        as (_ & k & Hk & _). congruence.
    + exact Htuple.
    + intros i j ti tj Hi Hj Hone H3 H4 H5.
      pose proof (resolve_targets_picked _ _ _ _ Hr) as Hpick.
      rewrite Forall_forall in Hpick.
      destruct (Hpick ti) as [ip1 Hp1].
      { apply nth_error_In in Hi.
        now destruct (dedupe_sound [] ts us ti Hu Hi). }
      destruct (Hpick tj) as [ip2 Hp2].
      { apply nth_error_In in Hj.
        now destruct (dedupe_sound [] ts us tj Hu Hj). }
      pose proof (picks_on_one_printer _ _ _ _ _ Hp1 Hp2 Hone) as Ep.
      apply (Htuple i j ti tj Hi Hj); try assumption; now rewrite Ep.
    + intros u Hin. now destruct (dedupe_sound [] ts us u Hu Hin).
    + intros t Ht. destruct (dedupe_complete [] ts us t Hu Ht)
        as (k & Hk & [[]|Hin]).
      apply in_map_iff in Hin. destruct Hin as (u & Huk & Hin).
      exists u. split; [exact Hin|congruence].
    + auto.
  - split; vm_compute; reflexivity.
Qed.

(** C8, as the code has it. A job throws before any print call when the
    [data] of the document is neither absent nor an array, when the
    item-by-item flag of a kitchen block cannot be converted to a
    string, when a hint token of a block printed item by item resolves
    and the items of the block are not iterable, and when the name or
    the display index of the item of a target cannot be converted. In
    the other cases: without any hint token the job returns
    [handled = false] and prints nothing; with hint tokens of which none
    resolves to a stored profile, and more generally whenever no target
    results, it returns [handled = true, matched = false] and prints
    nothing; when at least one target results, the job returns
    [handled = true, matched = true] after print calls that all
    completed, or it throws with the print call that failed, which is
    its last, or it does not return, which takes a target whose copy
    count is above [2^53]; and it does return [handled = true,
    matched = true] when every print call completes and every copy
    count is at most [2^53]. *)
Theorem routing_result_contract
  (json : value) (saved : list NetPrinterProfile) :
  let run := handleMultiLanPrint printer observed json saved in
  (data_blocks json = None -> run = ([], Threw))
  /\ forall blocks,
       data_blocks json = Some blocks ->
       ((exists b, In b (kitchen_blocks blocks) /\ raises (flag_of b) = true)
        -> run = ([], Threw))
       /\ ((forall b, In b (kitchen_blocks blocks) ->
                      raises (flag_of b) = false) ->
           exists entries,
             kitchen_entries 0 (kitchen_blocks blocks) = Some entries
             /\ (all_tokens blocks = [] ->
                 run = ([], Returned {| handled := false; matched := false |}))
             /\ (all_tokens blocks <> [] ->
                 (forall ip, In ip (all_tokens blocks) ->
                             findSavedByIpToken ip saved = None) ->
                 run = ([], Returned {| handled := true; matched := false |}))
             /\ (all_tokens blocks <> [] ->
                 (exists e ip,
                     In e entries /\ In ip (ips e) /\ individual e = true
                     /\ findSavedByIpToken ip saved <> None
                     /\ iter_items (block e) = None) ->
                 run = ([], Threw))
             /\ (all_tokens blocks <> [] ->
                 (forall e ip,
                     In e entries -> In ip (ips e) -> individual e = true ->
                     findSavedByIpToken ip saved <> None ->
                     iter_items (block e) <> None) ->
                 exists ts,
                   resolve_targets saved (cashier_ips blocks) entries
                   = Some ts
                   /\ (ts = [] ->
                       run = ([], Returned {| handled := true;
                                              matched := false |}))
                   /\ ((exists t,
                           In t ts /\ truthy (item t) = true
                           /\ raises (name_of (item t))
                              || raises (index_of (item t)) = true) ->
                       ts <> [] ->
                       run = ([], Threw))
                   /\ ((forall t,
                           In t ts -> truthy (item t) = true ->
                           raises (name_of (item t))
                           || raises (index_of (item t)) = false) ->
                       ts <> [] ->
                       exists us,
                         uniqueTargets ts = Some us
                         /\ ((exists tr,
                                 run = (tr, Returned {| handled := true;
                                                        matched := true |})
                                 /\ all_complete printer [] tr = true)
                             \/ (exists pre j,
                                    run = (pre ++ [j], Threw)
                                    /\ all_complete printer [] pre = true
                                    /\ printer pre j = false)
                             \/ (exists tr t,
                                    run = (tr, Diverged)
                                    /\ all_complete printer [] tr = true
                                    /\ In t us
                                    /\ above_2_53 (copies_of (profile t))))
                         /\ ((forall tr j, printer tr j = true) ->
                             (forall t, In t us ->
                                        ~ above_2_53
                                            (copies_of (profile t))) ->
                             exists tr,
                               run = (tr, Returned {| handled := true;
                                                      matched := true |}))))).
Proof.
  intros run. subst run. unfold handleMultiLanPrint.
  split; [intros ->; reflexivity|].
  intros blocks ->. cbv zeta. split.
  - intros Hb. apply (kitchen_entries_none _ 0) in Hb. now rewrite Hb.
  - intros Hflags.
    destruct (kitchen_entries 0 (kitchen_blocks blocks)) as [entries|] eqn:Ee.
    2:{ apply kitchen_entries_none in Ee. destruct Ee as (b & Hb & Hr).
        rewrite (Hflags b Hb) in Hr. discriminate. }
    exists entries. split; [reflexivity|].
    assert (Hno : all_tokens blocks <> [] ->
                  no_hints (cashier_ips blocks) entries = false).
    { intros H. destruct (no_hints (cashier_ips blocks) entries) eqn:E;
        [|reflexivity].
      apply (no_hints_spec _ _ Ee) in E. contradiction. }
    split; [|split; [|split]].
    + intros H. apply (no_hints_spec _ _ Ee) in H. now rewrite H.
    + intros H Hnone. rewrite (Hno H).
      now rewrite (unresolved_tokens_no_target saved blocks entries Ee Hnone).
    + intros H Hex. rewrite (Hno H).
      apply (resolve_targets_none saved (cashier_ips blocks) entries) in Hex.
      now rewrite Hex.
    + intros H Hiter. rewrite (Hno H).
      destruct (resolve_targets saved (cashier_ips blocks) entries)
        as [ts|] eqn:Er.
      2:{ apply resolve_targets_none in Er.
          destruct Er as (e & ip & H1 & H2 & H3 & H4 & H5).
          exfalso. exact (Hiter e ip H1 H2 H3 H4 H5). }
      exists ts. split; [reflexivity|]. split; [intros ->; reflexivity|].
      split.
      * intros (t & Ht & Htr & Hr) Hne.
        assert (Hu : uniqueTargets ts = None).
        { apply dedupe_none. exists t. split; [exact Ht|].
          apply target_key_none, item_key_none. auto. }
        rewrite Hu. destruct ts; [congruence|reflexivity].
      * intros Hkeys Hne.
        destruct (uniqueTargets ts) as [us|] eqn:Eu.
        2:{ apply dedupe_none in Eu. destruct Eu as (t & Ht & Hk).
            apply target_key_none, item_key_none in Hk.
            destruct Hk as [Htr Hr]. rewrite (Hkeys t Ht Htr) in Hr.
            discriminate. }
        exists us. split; [reflexivity|].
        destruct ts as [|t0 ts0]; [congruence|]. split.
        -- destruct (exec_targets_run printer observed json (kitchen_blocks blocks) us [])
             as (ns & o & E & _ & W & Hd).
           rewrite E. cbn [app]. destruct o as [[]| |].
           ++ left. eexists. split; [reflexivity|exact W].
           ++ right. left. destruct W as (pre & j & -> & Hp & Hj).
              exists pre, j. auto.
           ++ right. right. destruct (Hd eq_refl) as (t & Ht & Hr).
              apply rounds_none in Hr.
              exists (served json (kitchen_blocks blocks) us ns), t. auto.
        -- intros Hp Hr.
           assert (Hr' : forall t, In t us ->
                                   rounds (copies_of (profile t)) <> None).
           { intros t Ht E. apply rounds_none in E. exact (Hr t Ht E). }
           destruct (exec_targets_completes printer observed json (kitchen_blocks blocks)
                       us Hp Hr' []) as [tr ->]. eauto.
Qed.

End Jobs.

Example cashier_job :
  handleMultiLanPrint reliable 0
    (document [setting_block ["192.168.1.10:9100"%string]])
    [lan_printer "192.168.1.10" 9100]
  = ([(lan_printer "192.168.1.10" 9100,
       document [setting_block ["192.168.1.10:9100"%string]])],
     Returned {| handled := true; matched := true |}).
Proof. vm_compute. reflexivity. Qed.

(** An endless loop prints until a call fails. *)
Example endless_copies_end_with_a_failed_call :
  let doc := document [setting_block ["192.168.1.10"%string]] in
  handleMultiLanPrint third_job_fails 5 doc [endless_printer]
  = ([(endless_printer, doc); (endless_printer, doc); (endless_printer, doc)],
     Threw)
  /\ handleMultiLanPrint reliable 2 doc [endless_printer]
     = ([(endless_printer, doc); (endless_printer, doc)], Diverged).
Proof. vm_compute. split; reflexivity. Qed.

(** A flag that cannot be converted ends the job of a document without
    hints, and so does a name that cannot be converted, or an item list
    that is a number, behind a hint that resolves. *)
Example conversions_that_throw :
  let P := lan_printer "192.168.1.20" 9100 in
  handleMultiLanPrint reliable 0
    (document [VObj [(str "type", VStr (str "kitchen_print"));
                     (str "individual_print", shadowed)]]) [P]
  = ([], Threw)
  /\ handleMultiLanPrint reliable 0
       (document [kitchen_block "192.168.1.20" "1"
                    [VObj [(str "item_name", shadowed)]]]) [P]
     = ([], Threw)
  /\ handleMultiLanPrint reliable 0
       (document [VObj [(str "type", VStr (str "kitchen_print"));
                        (str "ip_address", VStr (str "192.168.1.20"));
                        (str "individual_print", VNum (of_Z 1));
                        (str "data",
                         VObj [(str "itemdata", VNum (of_Z 5))])]]) [P]
     = ([], Threw).
Proof. vm_compute. repeat split; reflexivity. Qed.

Lemma executed_targets_are_distinct_witness :
  let doc := document [two_hints] in
  let P := lan_printer "192.168.1.10" 9100 in
  handleMultiLanPrint reliable 0 doc [P]
  = ([(P, doc)], Returned {| handled := true; matched := true |})
  /\ exists blocks entries ts us ns,
       data_blocks doc = Some blocks
       /\ kitchen_entries 0 (kitchen_blocks blocks) = Some entries
       /\ resolve_targets [P] (cashier_ips blocks) entries = Some ts
       /\ uniqueTargets ts = Some us
       /\ NoDup (map target_key us)
       /\ length ts = 2
       /\ [(P, doc)] = served doc (kitchen_blocks blocks) us ns
       /\ within_copies us ns.
Proof.
  intros doc P.
  assert (H : handleMultiLanPrint reliable 0 doc [P]
              = ([(P, doc)], Returned {| handled := true; matched := true |}))
    by (vm_compute; reflexivity).
  split; [exact H|].
  destruct (proj1 (executed_targets_are_distinct reliable 0 doc [P])
                  [(P, doc)] _ H)
    as (blocks & entries & ts & us & ns & H1 & H2 & H3 & H4 & H5 & _ & _ & _
        & _ & _ & H6 & H7); [discriminate|].
  exists blocks, entries, ts, us, ns.
  repeat (split; [assumption|]).
  split; [|split; assumption].
  vm_compute in H1. inversion H1; subst blocks.
  vm_compute in H2. inversion H2; subst entries.
  vm_compute in H3. inversion H3; subst ts. reflexivity.
Defined.

Lemma routing_result_contract_witness :
  let json := document [kitchen_block "192.168.1.20" "0" tea_and_scone] in
  let blocks := [kitchen_block "192.168.1.20" "0" tea_and_scone] in
  data_blocks json = Some blocks
  /\ (forall b, In b (kitchen_blocks blocks) -> raises (flag_of b) = false)
  /\ all_tokens blocks <> []
  /\ (forall ip, In ip (all_tokens blocks) ->
                 findSavedByIpToken ip [lan_printer "192.168.1.10" 9100]
                 = None)
  /\ handleMultiLanPrint reliable 0 json [lan_printer "192.168.1.10" 9100]
     = ([], Returned {| handled := true; matched := false |}).
Proof.
  intros json blocks.
  assert (Hd : data_blocks json = Some blocks) by reflexivity.
  assert (Hf : forall b, In b (kitchen_blocks blocks) ->
                         raises (flag_of b) = false).
  { intros b Hb. vm_compute in Hb. destruct Hb as [<-|[]]. reflexivity. }
  assert (Ht : all_tokens blocks <> []) by (vm_compute; discriminate).
  assert (Hn : forall ip, In ip (all_tokens blocks) ->
                          findSavedByIpToken ip
                            [lan_printer "192.168.1.10" 9100] = None).
  { intros ip Hip. vm_compute in Hip. destruct Hip as [<-|[]].
    vm_compute. reflexivity. }
  split; [exact Hd|]. split; [exact Hf|]. split; [exact Ht|].
  split; [exact Hn|].
  destruct (proj2 (proj2 (routing_result_contract reliable 0 json
                            [lan_printer "192.168.1.10" 9100]) blocks Hd) Hf)
    as (entries & _ & _ & H & _).
  exact (H Ht Hn).
Defined.

(** C8 fails as stated: the only hint token of this document resolves
    to a stored profile, and the job returns [matched = false], because
    the block it belongs to is printed item by item and has no item. *)
Lemma resolved_token_yet_unmatched :
  let blocks := [kitchen_block "192.168.1.20" "1" []] in
  let saved := [lan_printer "192.168.1.20" 9100] in
  data_blocks (document blocks) = Some blocks
  /\ all_tokens blocks = [str "192.168.1.20"]
  /\ findSavedByIpToken (str "192.168.1.20") saved
     = Some (lan_printer "192.168.1.20" 9100)
  /\ handleMultiLanPrint reliable 0 (document blocks) saved
     = ([], Returned {| handled := true; matched := false |}).
Proof. vm_compute. repeat split; reflexivity. Qed.

End RoutingSpec.

(** ** Properties of the cut procedures *)

Module TransportSpec.
Import JsString Transport.

(** *** Vocabulary and sample builds *)

(** A computation that completes whatever the calls made before. *)
Definition total {A : Type} (m : M A) : Prop :=
  forall tr, exists tr' a, m tr = (tr', Normal a).

Definition bytes_eqb (a b : bytes) : bool :=
  if list_eq_dec Z.eq_dec a b then true else false.

(** The step of the network [cut] a call belongs to: the raw feed, the
    text feed, the native cut, the first cutter opcode, a later cutter
    opcode; and anything else. *)
Definition net_step (mode : cut_mode) (c : call) : nat :=
  match c with
  | PrintRawBase64 b | PrintRawArray b =>
      if bytes_eqb b [0x1B; 0x64; 0x03]%Z then 0
      else if bytes_eqb b (GS_V mode) then 3
      else if bytes_eqb b GS_V_B || bytes_eqb b (ESC_i_m mode) then 4
      else 5
  | PrintText _ => 1
  | CutPaper => 2
  | _ => 5
  end.

(** The feeding part of the network [cut]. *)
Definition net_feed (lib : library) : M unit :=
  try_catch (net_printRaw lib [0x1B; 0x64; 0x03]%Z) (ret tt) ;;;
  feed_text lib 3.

Fixpoint nondecreasing (l : list nat) : bool :=
  match l with
  | a :: (b :: _) as r => (a <=? b) && nondecreasing r
  | _ => true
  end.

(** A build with raw data and text but no native cut, whose printer
    rejects the partial-cut opcode [GS V 1] and accepts the rest. *)
Definition rejects_GS_V_1 : library :=
  {| has_printRawData := true;
     has_printText := true;
     has_cutPaper := false;
     has_disconnectFromDevice := true;
     reply_to := fun _ c =>
       match c with
       | PrintRawBase64 b | PrintRawArray b =>
           if bytes_eqb b (GS_V partial) then Rejected else Resolved true
       | _ => Resolved true
       end |}.

(** A build where every method exists and every call resolves. *)
Definition full_build : library :=
  {| has_printRawData := true;
     has_printText := true;
     has_cutPaper := true;
     has_disconnectFromDevice := true;
     reply_to := fun _ _ => Resolved true |}.

(** A build without raw data and without native cut. *)
Definition text_only_build : library :=
  {| has_printRawData := false;
     has_printText := true;
     has_cutPaper := false;
     has_disconnectFromDevice := true;
     reply_to := fun _ _ => Resolved true |}.

(** A build whose native cut rejects. *)
Definition broken_cutter_build : library :=
  {| has_printRawData := true;
     has_printText := true;
     has_cutPaper := true;
     has_disconnectFromDevice := true;
     reply_to := fun _ c =>
       match c with
       | CutPaper => Rejected
       | _ => Resolved true
       end |}.

Lemma total_ret {A} (a : A) : total (ret a).
Proof. intros tr. exists tr, a. reflexivity. Qed.

Lemma total_bind {A B} (m : M A) (k : A -> M B) :
  total m -> (forall a, total (k a)) -> total (bind m k).
Proof.
  intros Hm Hk tr. unfold bind. destruct (Hm tr) as (tr' & a & ->).
  apply Hk.
Qed.

Lemma total_try_catch {A} (m h : M A) : total h -> total (try_catch m h).
Proof.
  intros Hh tr. unfold try_catch. destruct (m tr) as [tr' [a|]]; eauto.
Qed.

Lemma bind_assoc {A B C} (m : M A) (k : A -> M B) (h : B -> M C) tr :
  bind m (fun a => bind (k a) h) tr = bind (bind m k) h tr.
Proof.
  unfold bind. destruct (m tr) as [tr' [a|]]; reflexivity.
Qed.

Lemma total_if {A} (b : bool) (m n : M A) :
  total m -> total n -> total (if b then m else n).
Proof. destruct b; auto. Qed.

Create HintDb cut.

#[local] Hint Resolve total_ret total_bind total_try_catch total_if : cut.

Section AnyLibrary.

Variable lib : library.

Lemma feed_text_total n : total (feed_text lib n).
Proof. unfold feed_text. auto with cut. Qed.

Lemma net_printRaw_total b : total (net_printRaw lib b).
Proof. unfold net_printRaw. auto with cut. Qed.

Lemma net_try_sequences_total tries : total (net_try_sequences lib tries).
Proof.
  induction tries as [|seq r IH]; simpl; [apply total_ret|].
  apply total_bind; [auto with cut|].
  intros [|]; auto with cut.
Qed.

(** [NetPrinterService.cut] completes: it never throws. *)
Lemma net_cut_never_throws mode : total (net_cut lib mode).
Proof.
  unfold net_cut.
  apply total_bind; [auto using net_printRaw_total with cut|]. intros _.
  apply total_bind; [apply feed_text_total|]. intros _.
  apply total_bind; [auto with cut|].
  intros [|]; auto using net_try_sequences_total with cut.
Qed.

Lemma tryBleRaw_total b : total (tryBleRaw lib b).
Proof. unfold tryBleRaw. auto with cut. Qed.

Lemma sendClassicOnce_total mac b : total (sendClassicOnce lib mac b).
Proof.
  unfold sendClassicOnce. destruct mac as [[|c mac]|]; auto with cut.
Qed.

Lemma first_sent_total send sequences :
  (forall b, total (send b)) -> total (first_sent send sequences).
Proof.
  intros Hs. induction sequences as [|seq r IH]; simpl; [apply total_ret|].
  apply total_bind; [apply Hs|]. intros [|]; auto with cut.
Qed.

(** [BLEPrinterService.cut] completes: it never throws. *)
Lemma ble_cut_never_throws mac mode : total (ble_cut lib mac mode).
Proof.
  unfold ble_cut.
  apply total_bind; [apply tryBleRaw_total|]. intros fed.
  apply total_bind; [destruct fed; auto using feed_text_total with cut|].
  intros _.
  apply total_bind; [apply first_sent_total, tryBleRaw_total|].
  intros [|]; [apply total_ret|].
  apply total_bind; [|auto with cut].
  apply first_sent_total, sendClassicOnce_total.
Qed.

(** The Bluetooth loop stops at the first sequence sent, and goes on
    after one that was not. *)
Lemma first_sent_step send seq r tr :
  first_sent send (seq :: r) tr
  = match send seq tr with
    | (tr', Normal true) => (tr', Normal true)
    | (tr', Normal false) => first_sent send r tr'
    | (tr', Throw) => (tr', Throw)
    end.
Proof.
  simpl. unfold bind. destruct (send seq tr) as [tr' [[|]|]]; reflexivity.
Qed.

(** The network loop never reaches its second sequence: [printRaw]
    completes whether or not anything was sent, and the loop returns. *)
Lemma net_try_sequences_first seq r tr :
  net_try_sequences lib (seq :: r) tr = net_printRaw lib seq tr.
Proof.
  simpl. unfold bind, try_catch.
  destruct (net_printRaw_total seq tr) as (tr' & [] & ->). reflexivity.
Qed.

(** The calls of the network [cut], whatever the build and the printer:
    they extend the trace, come in the order raw feed, text feed, native
    cut, first cutter opcode, and never include a later cutter opcode. *)
Lemma net_cut_calls mode tr :
  let calls := skipn (length tr) (fst (net_cut lib mode tr)) in
  fst (net_cut lib mode tr) = tr ++ calls
  /\ nondecreasing (map (net_step mode) calls) = true
  /\ Forall (fun c => net_step mode c <= 3) calls.
Proof.
  intros calls. subst calls.
  unfold net_cut, net_tries, net_try_sequences, net_printRaw, feed_text,
    bind, try_catch, ret, invoke.
  destruct mode;
    destruct (has_printRawData lib), (has_printText lib), (has_cutPaper lib);
    cbn [negb];
    repeat match goal with
           | |- context [reply_to lib ?t ?c] =>
               destruct (reply_to lib t c) eqn:?
           end;
    cbn [fst];
    rewrite <- ?app_assoc; cbn [app];
    rewrite ?skipn_app, ?skipn_all, ?Nat.sub_diag; cbn [skipn app];
    (split; [rewrite ?app_nil_r; reflexivity|]);
    (split; [vm_compute; reflexivity|]);
    repeat (apply Forall_cons; [vm_compute; repeat constructor|]);
    apply Forall_nil.
Qed.

Lemma net_feed_total : total (net_feed lib).
Proof.
  unfold net_feed. auto using net_printRaw_total, feed_text_total with cut.
Qed.

(** The network [cut] stops at a native cut that resolves. *)
Lemma net_cut_stops_at_native mode tr v :
  has_cutPaper lib = true ->
  reply_to lib (fst (net_feed lib tr)) CutPaper = Resolved v ->
  net_cut lib mode tr = (fst (net_feed lib tr) ++ [CutPaper], Normal tt).
Proof.
  intros Hcut Hv.
  assert (Hsplit :
    net_cut lib mode tr
    = bind (net_feed lib)
           (fun _ =>
              returned <-
                (if has_cutPaper lib
                 then try_catch (invoke lib CutPaper ;;; ret true) (ret false)
                 else ret false) ;;
              if returned then ret tt
              else net_try_sequences lib (net_tries mode)) tr).
  { unfold net_cut, net_feed. apply bind_assoc. }
  rewrite Hsplit. unfold bind at 1.
  destruct (net_feed_total tr) as (tr2 & [] & E). rewrite E in Hv |- *.
  cbn [fst] in *. rewrite Hcut.
  unfold bind, try_catch, invoke, ret. now rewrite Hv.
Qed.

End AnyLibrary.

Example net_cut_native :
  net_cut full_build full []
  = ([PrintRawBase64 [0x1B; 0x64; 0x03]%Z;
      PrintText (repeat newline 3);
      CutPaper],
     Normal tt).
Proof. vm_compute. reflexivity. Qed.

Example net_cut_native_rejected :
  net_cut broken_cutter_build full []
  = ([PrintRawBase64 [0x1B; 0x64; 0x03]%Z;
      PrintText (repeat newline 3);
      CutPaper;
      PrintRawBase64 [0x1D; 0x56; 0x00]%Z],
     Normal tt).
Proof. vm_compute. reflexivity. Qed.

Example net_cut_without_capabilities :
  net_cut text_only_build partial []
  = ([PrintText (repeat newline 3)], Normal tt).
Proof. vm_compute. reflexivity. Qed.

Example ble_cut_raw :
  ble_cut full_build (Some (str "00:11:22:33:44:55")) full []
  = ([PrintRawBase64 [0x1B; 0x64; 0x05]%Z;
      PrintRawBase64 [0x1D; 0x56; 0x00]%Z],
     Normal tt).
Proof. vm_compute. reflexivity. Qed.

Example ble_cut_classic_fallback :
  ble_cut text_only_build (Some (str "00:11:22:33:44:55")) partial []
  = ([PrintText (repeat newline 5);
      ClassicConnect true;
      ClassicWrite [0x1D; 0x56; 0x01]%Z;
      ClassicDisconnect],
     Normal tt).
Proof. vm_compute. reflexivity. Qed.

(** C9 at the failing input. On a build whose printer rejects [GS V 1],
    the network [cut] feeds, tries [GS V 1] in both encodings, and
    returns: it never tries [GS V 'B' 3], which this printer accepts.
    The Bluetooth [cut] on the same build goes on to the next opcode and
    stops there. *)
Theorem net_cut_gives_up_after_first_opcode :
  net_cut rejects_GS_V_1 partial []
  = ([PrintRawBase64 [0x1B; 0x64; 0x03]%Z;
      PrintText (repeat newline 3);
      PrintRawBase64 [0x1D; 0x56; 0x01]%Z;
      PrintRawArray [0x1D; 0x56; 0x01]%Z],
     Normal tt)
  /\ (forall tr, reply_to rejects_GS_V_1 tr (PrintRawBase64 GS_V_B)
                 = Resolved true)
  /\ ble_cut rejects_GS_V_1 (Some (str "00:11:22:33:44:55")) partial []
     = ([PrintRawBase64 [0x1B; 0x64; 0x05]%Z;
         PrintRawBase64 [0x1D; 0x56; 0x01]%Z;
         PrintRawArray [0x1D; 0x56; 0x01]%Z;
         PrintRawBase64 [0x1D; 0x56; 0x41; 0x00]%Z],
        Normal tt).
Proof. repeat split; vm_compute; reflexivity. Qed.

End TransportSpec.

(** ** Properties of the [Math] functions *)

Module JsMathSpec.
Import JsString JsNumber JsMath.

Definition is_nan (x : number) : bool :=
  match x with
  | S754_nan => true
  | _ => false
  end.

(** *** Rounding never invents a NaN *)

Lemma shr_1_nonneg mrs : (0 <= shr_m mrs)%Z -> (0 <= shr_m (shr_1 mrs))%Z.
Proof.
  destruct mrs as [m r s]. simpl.
  destruct m as [|p|p]; [simpl; lia| |intros H; exfalso; lia].
  destruct p; simpl; lia.
Qed.

Lemma iter_pos_nonneg p :
  forall mrs, (0 <= shr_m mrs)%Z -> (0 <= shr_m (iter_pos shr_1 p mrs))%Z.
Proof.
  induction p as [p IH|p IH|]; intros mrs H; simpl.
  - apply IH, IH, shr_1_nonneg, H.
  - apply IH, IH, H.
  - apply shr_1_nonneg, H.
Qed.

Lemma shr_fexp_nonneg m e l :
  (0 <= m)%Z -> (0 <= shr_m (fst (shr_fexp prec emax m e l)))%Z.
Proof.
  intros H. unfold shr_fexp, shr.
  assert (H0 : (0 <= shr_m (shr_record_of_loc m l))%Z)
    by (destruct l as [|[| |]]; exact H).
  destruct (fexp prec emax (Zdigits2 m + e) - e)%Z; simpl; auto.
  now apply iter_pos_nonneg.
Qed.

Lemma binary_round_aux_not_nan sx mx ex lx :
  (0 <= mx)%Z -> is_nan (binary_round_aux prec emax sx mx ex lx) = false.
Proof.
  intros H. unfold binary_round_aux.
  pose proof (shr_fexp_nonneg mx ex lx H) as H1.
  destruct (shr_fexp prec emax mx ex lx) as [mrs' e']. simpl in H1.
  assert (H2 : (0 <= round_nearest_even (shr_m mrs')
                                        (loc_of_shr_record mrs'))%Z).
  { unfold round_nearest_even.
    destruct (loc_of_shr_record mrs') as [|[| |]]; try lia.
    destruct (Z.even (shr_m mrs')); lia. }
  pose proof (shr_fexp_nonneg _ e' loc_Exact H2) as H3.
  destruct (shr_fexp prec emax _ e' loc_Exact) as [mrs'' e'']. simpl in H3.
  destruct (shr_m mrs'') as [|m|m]; [reflexivity| |lia].
  destruct (e'' <=? emax - prec)%Z; reflexivity.
Qed.

Lemma of_Z_not_nan z : is_nan (of_Z z) = false.
Proof.
  unfold of_Z, binary_normalize, binary_round.
  destruct z as [|m|m]; [reflexivity| |];
    destruct (shl_align _ _ _) as [mz ez];
    apply binary_round_aux_not_nan; lia.
Qed.

Lemma num_div_not_nan x m e :
  is_nan x = false ->
  is_nan (num_div x (S754_finite false m e)) = false.
Proof.
  intros Hx. unfold num_div, SFdiv.
  destruct x as [s|s| |s mx ex]; try reflexivity; [discriminate|].
  unfold SFdiv_core_binary.
  set (m' := match (ex - e - _)%Z with
             | Zpos _ => _
             | Z0 => _
             | Zneg _ => _
             end).
  assert (Hm : (0 <= m')%Z).
  { subst m'. destruct (ex - e - _)%Z; try lia.
    apply Z.shiftl_nonneg. lia. }
  pose proof (Z.div_pos m' (Zpos m) Hm ltac:(lia)) as Hq.
  unfold Z.div in Hq. destruct (Z.div_eucl m' (Zpos m)) as [q r].
  simpl in Hq. now apply binary_round_aux_not_nan.
Qed.

Lemma Math_round_not_nan x : is_nan x = false -> is_nan (Math_round x) = false.
Proof.
  destruct x as [s|s| |s m e]; simpl; auto.
  intros _. destruct (0 <=? e)%Z; [reflexivity|].
  destruct (_ =? 0)%Z; [reflexivity|apply of_Z_not_nan].
Qed.

(** *** Order *)

Lemma SFcompare_antisym x y c :
  SFcompare x y = Some c -> SFcompare y x = Some (CompOpp c).
Proof.
  destruct x as [s|s| |s m e], y as [t|t| |t n f]; simpl;
    try discriminate;
    try (intros H; inversion H; subst; clear H;
         repeat match goal with
                | b : bool |- _ => destruct b
                end; reflexivity).
  intros H. inversion H; subst; clear H. f_equal.
  pose proof (Pos.compare_cont_antisym m n Eq) as Hp. simpl in Hp.
  destruct s, t; try reflexivity;
    rewrite (Z.compare_antisym e f);
    destruct (e ?= f)%Z; simpl; try reflexivity;
    rewrite <- Hp; reflexivity.
Qed.

Lemma SFcompare_refl x : is_nan x = false -> SFcompare x x = Some Eq.
Proof.
  destruct x as [s|s| |s m e]; simpl; try discriminate; intros _;
    try (destruct s; reflexivity).
  f_equal. destruct s; rewrite Z.compare_refl, Pos.compare_cont_refl;
    reflexivity.
Qed.

Lemma SFcompare_some x y :
  is_nan x = false -> is_nan y = false -> exists c, SFcompare x y = Some c.
Proof.
  destruct x, y; simpl; try discriminate; eauto.
Qed.

Lemma num_le_refl x : is_nan x = false -> num_le x x = true.
Proof. intros H. unfold num_le, SFleb. now rewrite SFcompare_refl. Qed.

Lemma Math_min_spec a b :
  is_nan a = false -> is_nan b = false ->
  is_nan (Math_min a b) = false
  /\ num_le (Math_min a b) a = true
  /\ num_le (Math_min a b) b = true
  /\ (Math_min a b = a \/ Math_min a b = b).
Proof.
  intros Ha Hb. destruct (SFcompare_some a b Ha Hb) as (c & Hc).
  pose proof (SFcompare_antisym _ _ _ Hc) as Hc'.
  assert (E : Math_min a b
              = match c with
                | Lt => a
                | Gt => b
                | Eq => match a with
                        | S754_zero false => b
                        | _ => a
                        end
                end).
  { unfold Math_min. rewrite Hc.
    destruct a, b; try discriminate; destruct c; reflexivity. }
  rewrite E. unfold num_le, SFleb.
  destruct c; simpl in Hc'.
  - destruct a as [[|]| | |]; rewrite ?Hc, ?Hc', ?SFcompare_refl; auto.
  - rewrite Hc, SFcompare_refl; auto.
  - rewrite Hc', SFcompare_refl; auto.
Qed.

Lemma Math_max_spec a b :
  is_nan a = false -> is_nan b = false ->
  is_nan (Math_max a b) = false
  /\ num_le a (Math_max a b) = true
  /\ num_le b (Math_max a b) = true
  /\ (Math_max a b = a \/ Math_max a b = b).
Proof.
  intros Ha Hb. destruct (SFcompare_some a b Ha Hb) as (c & Hc).
  pose proof (SFcompare_antisym _ _ _ Hc) as Hc'.
  assert (E : Math_max a b
              = match c with
                | Lt => b
                | Gt => a
                | Eq => match a with
                        | S754_zero true => b
                        | _ => a
                        end
                end).
  { unfold Math_max. rewrite Hc.
    destruct a, b; try discriminate; destruct c; reflexivity. }
  rewrite E. unfold num_le, SFleb.
  destruct c; simpl in Hc'.
  - destruct a as [[|]| | |]; rewrite ?Hc, ?Hc', ?SFcompare_refl; auto.
  - rewrite Hc, SFcompare_refl; auto.
  - rewrite Hc', SFcompare_refl; auto.
Qed.

(** [clamp] answers within its bounds for every number but [NaN]. *)
Lemma clamp_bounds n lo hi :
  is_nan n = false -> is_nan lo = false -> is_nan hi = false ->
  num_le lo hi = true ->
  is_nan (clamp n lo hi) = false
  /\ num_le lo (clamp n lo hi) = true
  /\ num_le (clamp n lo hi) hi = true.
Proof.
  intros Hn Hlo Hhi Hle. unfold clamp.
  destruct (Math_min_spec hi n Hhi Hn) as (Hm & Hm1 & _ & _).
  destruct (Math_max_spec lo (Math_min hi n) Hlo Hm) as (Hr & Hr1 & _ & Hc).
  split; [exact Hr|]. split; [exact Hr1|].
  destruct Hc as [-> | ->]; assumption.
Qed.

(** *** The integer part of a number between two bounds *)

Lemma digits2_pos_bounds m :
  (2 ^ (Zpos (digits2_pos m) - 1) <= Zpos m < 2 ^ Zpos (digits2_pos m))%Z.
Proof.
  induction m as [p IH|p IH|]; cbn [digits2_pos]; [| |simpl; lia];
    rewrite Pos2Z.inj_succ;
    replace (Z.succ (Zpos (digits2_pos p)) - 1)%Z
      with (Z.succ (Zpos (digits2_pos p) - 1)) by lia;
    rewrite !Z.pow_succ_r by lia; lia.
Qed.

(** A binary64 value between 8 and 64 has its integer part there too. *)
Lemma truncate_8_64 w :
  valid_binary prec emax w = true ->
  num_le (of_Z 8) w = true -> num_le w (of_Z 64) = true ->
  (8 <= truncate w <= 64)%Z.
Proof.
  intros Hv H8 H64. destruct w as [s|s| |s m e]; try discriminate.
  - destruct s; discriminate.
  - destruct s; [discriminate|].
    unfold num_le, SFleb in H8, H64.
    change (of_Z 8) with (S754_finite false 4503599627370496 (-49)) in H8.
    change (of_Z 64) with (S754_finite false 4503599627370496 (-46)) in H64.
    cbn [SFcompare] in H8, H64.
    assert (He : (-49 <= e <= -46)%Z).
    { split.
      - destruct (Z.compare_spec (-49) e); try discriminate; lia.
      - destruct (Z.compare_spec e (-46)); try discriminate; lia. }
    cbn [valid_binary] in Hv. unfold bounded, canonical_mantissa in Hv.
    apply andb_true_iff in Hv. destruct Hv as [Hc _].
    apply Z.eqb_eq in Hc. unfold fexp, emin, prec, emax in Hc.
    assert (Hd : Zpos (digits2_pos m) = 53%Z) by lia.
    pose proof (digits2_pos_bounds m) as Hm. rewrite Hd in Hm.
    change (2 ^ (53 - 1))%Z with 4503599627370496%Z in Hm.
    change (2 ^ 53)%Z with 9007199254740992%Z in Hm.
    cbn [truncate]. unfold numerator, denominator.
    assert (E0 : (0 <=? e)%Z = false) by (apply Z.leb_gt; lia).
    rewrite E0.
    assert (Hcases : e = (-49)%Z \/ e = (-48)%Z \/ e = (-47)%Z
                     \/ e = (-46)%Z) by lia.
    destruct Hcases as [-> | [-> | [-> | ->]]].
    + change (2 ^ (- -49))%Z with 562949953421312%Z.
      split; [apply Z.div_le_lower_bound; lia|].
      apply Z.lt_le_incl, Z.div_lt_upper_bound; lia.
    + change (2 ^ (- -48))%Z with 281474976710656%Z.
      split; [apply Z.div_le_lower_bound; lia|].
      apply Z.lt_le_incl, Z.div_lt_upper_bound; lia.
    + change (2 ^ (- -47))%Z with 140737488355328%Z.
      split; [apply Z.div_le_lower_bound; lia|].
      apply Z.lt_le_incl, Z.div_lt_upper_bound; lia.
    + rewrite Z.compare_refl in H64.
      assert (Hle : (Zpos m <= 4503599627370496)%Z).
      { apply Pos2Z.pos_le_pos. unfold Pos.le, Pos.compare. intros E.
        rewrite E in H64. discriminate. }
      assert (Zpos m = 4503599627370496%Z) by lia.
      replace (Zpos m) with 4503599627370496%Z by lia.
      vm_compute. split; discriminate.
Qed.

End JsMathSpec.

(** ** Properties of the rows, tables and line blocks *)

Module LayoutSpec.
Import JsString JsNumber JsValue JsMath Renderer Layout JsValueSpec
       RendererSpec.

(** *** Vocabulary *)

(** An item of the table, with a name, a quantity and an amount. *)
Definition table_item (n : string) (q a : Z) : value :=
  VObj [(str "item_name", VStr (str n));
        (str "quantity", VNum (of_Z q));
        (str "item_amount", VNum (of_Z a))].

(** An [item] block with the given items. *)
Definition item_block (items : list value) : value :=
  VObj [(str "type", VStr (str "item"));
        (str "data", VObj [(str "itemdata", VArr items)])].

(** A receipt document with the given blocks. *)
Definition receipt (blocks : list value) : value :=
  VObj [(str "data", VArr blocks)].

(** What a line takes in a text: its characters and its line break. *)
Definition line_cost (l : jsstring) : nat := length l + 1.

(** An item whose name does not fit the Item column. *)
Definition flat_white : value :=
  table_item "Flat white coffee, extra hot, oat milk" 2 9.

(** The fields of an item that the table converts to a string or to a
    number: its name, its quantity, its amount and, when it is truthy,
    its second line. *)
Definition converted_fields (it : value) : list value :=
  [coalesce (get_prop it (str "item_name")) (VStr []);
   get_prop it (str "quantity");
   total_field it]
  ++ (if truthy (get_prop it (str "item_subLine"))
      then [get_prop it (str "item_subLine")]
      else []).

(** *** Helper lemmas *)

Lemma blank_cells_length c :
  length (blank_cells c)
  = 3 + Z.to_nat (qty c) + Z.to_nat (price c) + Z.to_nat (amount c).
Proof.
  unfold blank_cells. rewrite !length_app, !spaces_length. simpl. lia.
Qed.

Lemma main_row_length c first q u t :
  length (main_row c first q u t)
  = Z.to_nat (item c) + 3
    + Z.to_nat (qty c) + Z.to_nat (price c) + Z.to_nat (amount c).
Proof.
  unfold main_row, rAlign.
  rewrite !length_app, rpad_length, !lpad_length. simpl. lia.
Qed.

Lemma header_row_length c :
  length (header_row c)
  = Z.to_nat (item c) + 3
    + Z.to_nat (qty c) + Z.to_nat (price c) + Z.to_nat (amount c).
Proof.
  unfold header_row, rAlign.
  rewrite !length_app, rpad_length, !lpad_length. simpl. lia.
Qed.

Lemma computeCols_row total :
  Z.of_nat (Z.to_nat (item (computeCols total)) + 3
            + Z.to_nat (qty (computeCols total))
            + Z.to_nat (price (computeCols total))
            + Z.to_nat (amount (computeCols total)))
  = Z.max total 30.
Proof. unfold computeCols. simpl. lia. Qed.

Lemma item_rows_some c it rows :
  item_rows c it = Some rows ->
  exists name q t u lines,
    nullish it = false
    /\ ToString (coalesce (get_prop it (str "item_name")) (VStr []))
       = Some name
    /\ qtyN it = Some q /\ lineTotal it = Some t /\ unitPrice it = Some u
    /\ wrap name (Z.to_nat (Z.min (item c) ITEM_NAME_WRAP)) = Some lines
    /\ exists subs,
         rows
         = main_row c match lines with
                      | l :: _ => if str_truthy l then l else []
                      | [] => []
                      end q u t
             :: map (fun tail => rpad tail (Z.to_nat (item c))
                                   ++ blank_cells c) (tl lines)
             ++ map (fun s => rpad (str "  " ++ s) (Z.to_nat (item c))
                                ++ blank_cells c) subs.
Proof.
  unfold item_rows. destruct (nullish it); [discriminate|].
  destruct (ToString _) as [name|] eqn:En; [|discriminate].
  destruct (qtyN it) as [q|] eqn:Eq; [|discriminate].
  destruct (lineTotal it) as [t|] eqn:Et; [|discriminate].
  destruct (unitPrice it) as [u|] eqn:Eu; [|discriminate].
  destruct (wrap name _) as [lines|] eqn:Ew; [|discriminate].
  intros H. exists name, q, t, u, lines.
  do 6 (split; [first [reflexivity|assumption]|]).
  destruct (truthy _).
  - destruct (wrap_value _ _) as [ss|]; [|discriminate].
    inversion H; subst. exists ss. reflexivity.
  - inversion H; subst. exists []. simpl. now rewrite app_nil_r.
Qed.

Lemma item_rows_length c it rows :
  item_rows c it = Some rows ->
  Forall (fun l => length l
                   = Z.to_nat (item c) + 3 + Z.to_nat (qty c)
                     + Z.to_nat (price c) + Z.to_nat (amount c)) rows.
Proof.
  intros H. destruct (item_rows_some _ _ _ H)
    as (name & q & t & u & lines & _ & _ & _ & _ & _ & _ & subs & ->).
  assert (Hcont : forall (g : jsstring -> jsstring) ls,
             Forall (fun l => length l
                   = Z.to_nat (item c) + 3 + Z.to_nat (qty c)
                     + Z.to_nat (price c) + Z.to_nat (amount c))
                    (map (fun x => rpad (g x) (Z.to_nat (item c))
                                     ++ blank_cells c) ls)).
  { intros g ls. apply Forall_forall. intros l Hl.
    apply in_map_iff in Hl. destruct Hl as (x & <- & _).
    rewrite length_app, rpad_length, blank_cells_length. lia. }
  constructor; [apply main_row_length|].
  apply Forall_app. split.
  - apply (Hcont (fun x => x)).
  - apply (Hcont (fun s => str "  " ++ s)).
Qed.

(** X1. Every line of the item table, header and continuation rows
    included, has the same length: the line width [total], or 30 when
    [total] is smaller (the Item column never goes below 8). *)
Theorem item_table_lines_have_one_width block total lines :
  item_table block total = Some lines ->
  Forall (fun l => Z.of_nat (length l) = Z.max total 30) lines.
Proof.
  unfold item_table.
  destruct (Routing.collect _ _) as [rows|] eqn:E; [|discriminate].
  intros H. inversion H; subst. constructor.
  - rewrite header_row_length. apply computeCols_row.
  - apply Forall_forall. intros l Hl.
    destruct (RoutingSpec.collect_elem _ _ _ _ E Hl) as (it & bs & _ & Hf & Hin).
    apply item_rows_length in Hf. rewrite Forall_forall in Hf.
    rewrite (Hf l Hin). apply computeCols_row.
Qed.

Lemma item_table_lines_have_one_width_witness :
  exists lines,
    item_table (item_block [flat_white]) 24
    = Some lines
    /\ length lines = 7
    /\ Forall (fun l => Z.of_nat (length l) = Z.max 24 30) lines.
Proof.
  eexists. split; [vm_compute; reflexivity|].
  split; [reflexivity|].
  apply (item_table_lines_have_one_width (item_block [flat_white]) 24).
  vm_compute. reflexivity.
Defined.

Lemma skipn_exact {A} (a b : list A) n : length a = n -> skipn n (a ++ b) = b.
Proof.
  intros <-. rewrite skipn_app, skipn_all, Nat.sub_diag. reflexivity.
Qed.

Lemma main_row_amount c first q u t :
  skipn (Z.to_nat (item c) + 3 + Z.to_nat (qty c) + Z.to_nat (price c))
        (main_row c first q u t)
  = rAlign (formatMoney t) (Z.to_nat (amount c)).
Proof.
  unfold main_row.
  replace (rpad first (Z.to_nat (item c)) ++
           [space] ++ rAlign (Number_toString q) (Z.to_nat (qty c)) ++
           [space] ++ rAlign (formatMoney u) (Z.to_nat (price c)) ++
           [space] ++ rAlign (formatMoney t) (Z.to_nat (amount c)))
    with ((rpad first (Z.to_nat (item c)) ++
           [space] ++ rAlign (Number_toString q) (Z.to_nat (qty c)) ++
           [space] ++ rAlign (formatMoney u) (Z.to_nat (price c)) ++
           [space]) ++ rAlign (formatMoney t) (Z.to_nat (amount c)))
    by (rewrite <- !app_assoc; reflexivity).
  apply skipn_exact. unfold rAlign.
  rewrite !length_app, rpad_length, !lpad_length. simpl. lia.
Qed.

Lemma item_rows_first c it rows :
  item_rows c it = Some rows ->
  exists first q u t rest,
    qtyN it = Some q /\ lineTotal it = Some t
    /\ rows = main_row c first q u t :: rest.
Proof.
  intros H. destruct (item_rows_some _ _ _ H)
    as (name & q & t & u & lines & _ & _ & Hq & Ht & _ & _ & subs & ->).
  eauto 10.
Qed.

(** X2. On a line of at least 30 characters the first row of an item
    ends with its amount, right-aligned in the last eight columns: the
    same columns in which [amountAlignedRow] puts the amount of a
    summary row of that width. *)
Theorem item_amount_shares_the_summary_column total it rows label :
  (30 <= total)%Z ->
  item_rows (computeCols total) it = Some rows ->
  exists row rest t,
    rows = row :: rest
    /\ lineTotal it = Some t
    /\ Z.of_nat (length row) = total
    /\ length (amountAlignedRow label (formatMoney t) total)
       = length row
    /\ skipn (Z.to_nat total - 8) row
       = rAlign (formatMoney t) 8
    /\ skipn (Z.to_nat total - 8)
             (amountAlignedRow label (formatMoney t) total)
       = rAlign (formatMoney t) 8.
Proof.
  intros Ht H.
  destruct (item_rows_first _ _ _ H) as (first & q & u & t & rest & _ & Hl & ->).
  exists (main_row (computeCols total) first q u t), rest, t.
  assert (Hlen : length (main_row (computeCols total) first q u t)
                 = Z.to_nat total).
  { rewrite main_row_length. unfold computeCols. simpl. lia. }
  assert (Hrow : length (amountAlignedRow label (formatMoney t) total)
                 = Z.to_nat total).
  { unfold amountAlignedRow, rAlign, AMOUNT_GAP.
    rewrite !length_app, rpad_length, lpad_length, spaces_length.
    unfold computeCols. simpl. lia. }
  split; [reflexivity|]. split; [exact Hl|]. split; [lia|].
  split; [congruence|]. split.
  - etransitivity;
      [|exact (main_row_amount (computeCols total) first q u t)].
    f_equal. unfold computeCols. simpl. lia.
  - unfold amountAlignedRow. rewrite app_assoc. apply skipn_exact.
    unfold AMOUNT_GAP. rewrite length_app, rpad_length, spaces_length.
    unfold computeCols. simpl. lia.
Qed.

Lemma item_amount_shares_the_summary_column_witness :
  exists rows row rest,
    item_rows (computeCols 48) (table_item "Tea" 2 9) = Some rows
    /\ rows = row :: rest
    /\ lineTotal (table_item "Tea" 2 9) = Some (of_Z 9)
    /\ skipn 40 row = str "    9.00"
    /\ skipn 40 (amountAlignedRow (str "Total") (str "9.00") 48)
       = str "    9.00".
Proof.
  destruct (item_amount_shares_the_summary_column
              48 (table_item "Tea" 2 9)
              (match item_rows (computeCols 48) (table_item "Tea" 2 9) with
               | Some rows => rows
               | None => []
               end)
              (str "Total"))
    as (row & rest & t & E & Ht & _ & _ & H1 & H2);
    [lia|vm_compute; reflexivity|].
  assert (Et : t = of_Z 9).
  { vm_compute in Ht. inversion Ht. vm_compute. reflexivity. }
  subst t.
  eexists _, row, rest. split; [vm_compute; reflexivity|].
  split; [exact E|]. split; [exact Ht|]. split; [exact H1|exact H2].
Defined.

Lemma item_rows_throws total it :
  item_rows (computeCols total) it = None
  <-> nullish it = true
      \/ exists v, In v (converted_fields it) /\ raises v = true.
Proof.
  unfold item_rows, converted_fields.
  destruct (nullish it) eqn:En; [split; auto|].
  set (name := coalesce (get_prop it (str "item_name")) (VStr [])).
  set (sub := get_prop it (str "item_subLine")).
  destruct (ToString name) as [n|] eqn:Ename.
  2:{ split; [|reflexivity]. intros _. right. exists name.
      split; [now left|]. now apply ToString_raises. }
  assert (Hname : raises name = false).
  { destruct (raises name) eqn:E; [|reflexivity].
    apply ToString_raises in E. congruence. }
  unfold unitPrice in *. rewrite En in *.
  destruct (qtyN it) as [q|] eqn:Eq.
  2:{ split; [|reflexivity]. intros _. right.
      exists (get_prop it (str "quantity")). split; [simpl; auto|].
      unfold qtyN, toInt in Eq.
      destruct (ToNumber (get_prop it (str "quantity"))) eqn:E;
        [discriminate|]. now apply ToNumber_raises. }
  assert (Hq : raises (get_prop it (str "quantity")) = false).
  { destruct (raises (get_prop it (str "quantity"))) eqn:E; [|reflexivity].
    apply ToNumber_raises in E. unfold qtyN, toInt in Eq.
    rewrite E in Eq. discriminate. }
  destruct (lineTotal it) as [t|] eqn:Et.
  2:{ split; [|reflexivity]. intros _. right. exists (total_field it).
      split; [simpl; auto|]. now apply ToNumber_raises. }
  assert (Ht : raises (total_field it) = false).
  { destruct (raises (total_field it)) eqn:E; [|reflexivity].
    apply ToNumber_raises in E. unfold lineTotal in Et.
    fold (total_field it) in Et. congruence. }
  match goal with
  | |- context [wrap ?t ?w] =>
      destruct (wrap_correct t w) as (out & -> & _)
  end.
  { unfold computeCols, ITEM_NAME_WRAP. simpl. lia. }
  destruct (truthy sub) eqn:Es.
  - unfold wrap_value. destruct (ToString sub) as [text|] eqn:Esub.
    + match goal with
      | |- context [wrap ?t ?w] =>
          destruct (wrap_correct t w) as (out' & -> & _)
      end.
      { unfold computeCols. simpl. lia. }
      split; [discriminate|]. intros [H|(v & Hv & Hr)]; [discriminate|].
      assert (Hsub : raises sub = false).
      { destruct (raises sub) eqn:E; [|reflexivity].
        apply ToString_raises in E. congruence. }
      cbv beta iota in Hv. cbn [app In] in Hv.
      decompose [or] Hv; subst; try contradiction; congruence.
    + split; [|reflexivity]. intros _. right. exists sub.
      split; [simpl; auto|]. now apply ToString_raises.
  - split; [discriminate|]. intros [H|(v & Hv & Hr)]; [discriminate|].
    cbv beta iota in Hv. cbn [app In] in Hv.
    decompose [or] Hv; subst; try contradiction; congruence.
Qed.

(** X3. Laying out the item table fails exactly when one of the items is
    [null] or [undefined], or has a name, a quantity, an amount or a
    truthy second line that [String] or [Number] cannot convert: an
    object with a property [toString] of its own, or an array that holds
    one. Every other item gets its rows (the wrap widths are never
    zero). *)
Theorem item_table_fails_only_on_missing_item block total :
  item_table block total = None
  <-> exists it,
        In it (table_items block)
        /\ (nullish it = true
            \/ exists v, In v (converted_fields it) /\ raises v = true).
Proof.
  unfold item_table.
  destruct (Routing.collect _ _) as [rows|] eqn:E.
  - split; [discriminate|]. intros (it & Hin & Hn).
    assert (Hc : Routing.collect (item_rows (computeCols total))
                                 (table_items block) = None).
    { apply RoutingSpec.collect_none. exists it. split; [exact Hin|].
      now apply item_rows_throws. }
    congruence.
  - split; [|reflexivity]. intros _.
    apply RoutingSpec.collect_none in E. destruct E as (it & Hin & Hf).
    exists it. split; [exact Hin|]. now apply item_rows_throws in Hf.
Qed.

Example item_table_of_unconvertible_fields :
  item_table (item_block [VObj [(str "item_name", shadowed)]]) 32 = None
  /\ item_table (item_block [VObj [(str "quantity", VArr [shadowed])]]) 32
     = None
  /\ item_table (item_block [VObj [(str "item_subLine", VObj [])]]) 32
     <> None.
Proof. vm_compute. repeat split. discriminate. Qed.

(** X4. [twoCols] always keeps the right text whole, at the end of the
    row, behind at least one space. The row is [width] long when the
    right text leaves room for a space, else as long as the right text
    and one space. A left text that fits is kept whole; one that does
    not is cut, and its last three columns are dots when more than three
    columns are left for it. *)
Theorem twoCols_layout left right width :
  let room := (width - Z.of_nat (length right) - 1)%Z in
  exists lt n,
    twoCols left right width = lt ++ spaces n ++ right
    /\ 1 <= n
    /\ Z.of_nat (length (twoCols left right width))
       = Z.max width (Z.of_nat (length right) + 1)
    /\ ((Z.of_nat (length left) <= room)%Z -> lt = left)
    /\ ((3 < room < Z.of_nat (length left))%Z ->
        lt = firstn (Z.to_nat (room - 3)) left ++ str "...")
    /\ ((room <= 3)%Z -> (room < Z.of_nat (length left))%Z ->
        lt = firstn (Z.to_nat room) left).
Proof.
  intros room. unfold twoCols. fold room.
  set (maxLeft := Z.max 0 room).
  set (lt := if (maxLeft <? Z.of_nat (length left))%Z && (3 <? maxLeft)%Z
             then slice left 0 (Z.to_nat (maxLeft - 3)) ++ str "..."
             else slice left 0 (Z.to_nat (Z.max 0 maxLeft))).
  exists lt,
    (Z.to_nat (Z.max 1 (width - Z.of_nat (length lt)
                        - Z.of_nat (length right)))).
  assert (Hlt : (Z.of_nat (length lt) <= maxLeft)%Z
                /\ ((Z.of_nat (length left) <= room)%Z -> lt = left)
                /\ ((3 < room < Z.of_nat (length left))%Z ->
                    lt = firstn (Z.to_nat (room - 3)) left ++ str "...")
                /\ ((room <= 3)%Z -> (room < Z.of_nat (length left))%Z ->
                    lt = firstn (Z.to_nat room) left)).
  { subst lt. unfold slice. rewrite !Nat.sub_0_r. cbn [skipn].
    unfold maxLeft.
    destruct (Z.max 0 room <? Z.of_nat (length left))%Z eqn:E1;
      destruct (3 <? Z.max 0 room)%Z eqn:E2; cbn [andb];
      try apply Z.ltb_lt in E1; try apply Z.ltb_ge in E1;
      try apply Z.ltb_lt in E2; try apply Z.ltb_ge in E2.
    - split; [|split; [|split]].
      + rewrite length_app, length_firstn. simpl. lia.
      + lia.
      + intros _. do 2 f_equal. lia.
      + lia.
    - split; [|split; [|split]].
      + rewrite length_firstn. lia.
      + lia.
      + lia.
      + intros H1 H2. f_equal. lia.
    - split; [|split; [|split]].
      + rewrite length_firstn. lia.
      + intros H. apply firstn_all2. lia.
      + lia.
      + lia.
    - split; [|split; [|split]].
      + rewrite length_firstn. lia.
      + intros H. apply firstn_all2. lia.
      + lia.
      + intros H1 H2.
        rewrite !firstn_all2 by lia. reflexivity. }
  destruct Hlt as (Hlen & H1 & H2 & H3). unfold maxLeft in Hlen.
  split; [reflexivity|]. split; [lia|]. split.
  - rewrite !length_app, spaces_length. lia.
  - auto.
Qed.

Lemma slice_to_nonneg s e : (0 <= e)%Z -> slice_to s e = firstn (Z.to_nat e) s.
Proof.
  intros H. unfold slice_to. destruct (e <? 0)%Z eqn:E; [|reflexivity].
  apply Z.ltb_lt in E. lia.
Qed.

Lemma cpad_length s len :
  (0 <= len)%Z -> Z.of_nat (length (cpad s len)) = len.
Proof.
  intros H. unfold cpad. destruct (len <=? Z.of_nat (length s))%Z eqn:E.
  - apply Z.leb_le in E. rewrite slice_to_nonneg by exact H.
    rewrite length_firstn. lia.
  - apply Z.leb_gt in E. rewrite !length_app, !spaces_length.
    assert (0 <= (len - Z.of_nat (length s)) / 2)%Z
      by (apply Z.div_pos; lia).
    assert ((len - Z.of_nat (length s)) / 2 <= len - Z.of_nat (length s))%Z
      by (apply Z.div_le_upper_bound; lia).
    lia.
Qed.

(** X5. [cpad] gives exactly [len] columns for [0 <= len]: a longer text
    is cut at [len], a shorter one stands between two runs of spaces of
    which the right one is the longer by at most one. *)
Theorem cpad_centres s len :
  (0 <= len)%Z ->
  Z.of_nat (length (cpad s len)) = len
  /\ ((len <= Z.of_nat (length s))%Z -> cpad s len = firstn (Z.to_nat len) s)
  /\ ((Z.of_nat (length s) < len)%Z ->
      exists l r,
        cpad s len = spaces l ++ s ++ spaces r /\ l <= r <= l + 1).
Proof.
  intros H. split; [now apply cpad_length|]. unfold cpad. split.
  - intros Hle. apply Z.leb_le in Hle. rewrite Hle.
    now apply slice_to_nonneg.
  - intros Hlt. apply Z.leb_gt in Hlt. rewrite Hlt.
    eexists _, _. split; [reflexivity|].
    set (t := (len - Z.of_nat (length s))%Z).
    assert (0 < t)%Z by (apply Z.leb_gt in Hlt; lia).
    pose proof (Z.div_mod t 2 ltac:(lia)) as Hd.
    pose proof (Z.mod_pos_bound t 2 ltac:(lia)) as Hm.
    lia.
Qed.

Lemma cpad_centres_witness :
  (0 <= 8)%Z
  /\ Z.of_nat (length (cpad (str "Qty") 8)) = 8%Z
  /\ ((8 <= Z.of_nat (length (str "Qty")))%Z ->
      cpad (str "Qty") 8 = firstn (Z.to_nat 8) (str "Qty"))
  /\ ((Z.of_nat (length (str "Qty")) < 8)%Z ->
      exists l r,
        cpad (str "Qty") 8 = spaces l ++ str "Qty" ++ spaces r
        /\ l <= r <= l + 1).
Proof.
  split; [lia|]. apply (cpad_centres (str "Qty") 8). lia.
Defined.

(** X6. For a width of at least one column [twoColsCentered] fills the
    width exactly: two centred halves around one space, the right half
    the wider by at most one. *)
Theorem twoColsCentered_fills_width left right width :
  (1 <= width)%Z ->
  exists a b,
    twoColsCentered left right width = a ++ [space] ++ b
    /\ Z.of_nat (length (twoColsCentered left right width)) = width
    /\ length a <= length b <= length a + 1.
Proof.
  intros H. unfold twoColsCentered.
  set (leftW := ((width - 1) / 2)%Z).
  pose proof (Z.div_mod (width - 1) 2 ltac:(lia)) as Hd.
  pose proof (Z.mod_pos_bound (width - 1) 2 ltac:(lia)) as Hm.
  fold leftW in Hd.
  assert (Hl : (0 <= leftW)%Z) by lia.
  assert (Hr : (0 <= width - 1 - leftW)%Z) by lia.
  pose proof (cpad_length left leftW Hl) as Ha.
  pose proof (cpad_length right (width - 1 - leftW)%Z Hr) as Hb.
  eexists _, _. split; [reflexivity|].
  rewrite !length_app. simpl. lia.
Qed.

Lemma twoColsCentered_fills_width_witness :
  1 <= 12
  /\ exists a b,
       twoColsCentered (str "Table 4") (str "Dine in") 12 = a ++ [space] ++ b
       /\ Z.of_nat (length (twoColsCentered (str "Table 4") (str "Dine in") 12))
          = 12%Z
       /\ length a <= length b <= length a + 1.
Proof.
  split; [lia|].
  apply (twoColsCentered_fills_width (str "Table 4") (str "Dine in") 12).
  lia.
Defined.

(** *** Blocks of lines *)

Lemma join_split s : join_lines (split_on newline s) = s.
Proof.
  induction s as [|a s IH]; [reflexivity|]. cbn [split_on].
  destruct (Ascii.eqb a newline) eqn:E.
  - apply Ascii.eqb_eq in E. subst a. cbn [join_lines].
    destruct (split_on newline s) as [|w ws] eqn:Es.
    + exfalso. exact (split_on_not_nil _ _ Es).
    + cbn [app]. now rewrite IH.
  - destruct (split_on newline s) as [|w ws] eqn:Es.
    + exfalso. exact (split_on_not_nil _ _ Es).
    + rewrite <- IH. cbn [join_lines]. destruct ws; reflexivity.
Qed.

Lemma split_join ls :
  ls <> [] -> Forall (fun l => ~ In newline l) ls ->
  split_on newline (join_lines ls) = ls.
Proof.
  induction ls as [|l r IH]; [congruence|]. intros _ H.
  inversion H as [|? ? Hl Hr]; subst. cbn [join_lines].
  destruct r as [|l' r'].
  - now apply split_on_no_sep.
  - rewrite split_on_app_sep, split_on_no_sep by exact Hl.
    rewrite IH; [reflexivity|discriminate|exact Hr].
Qed.

Lemma join_lines_app_empty ls :
  ls <> [] -> join_lines (ls ++ [[]]) = join_lines ls ++ [newline].
Proof.
  induction ls as [|l r IH]; [congruence|]. intros _.
  destruct r as [|l' r'].
  - reflexivity.
  - cbn [app join_lines] in *. rewrite IH by discriminate.
    now rewrite <- app_assoc.
Qed.

(** The length of a text is that of its lines and one for each line
    break. *)
Lemma join_lines_length (ls : list jsstring) :
  ls <> [] ->
  length (join_lines ls) + 1 = list_sum (map line_cost ls).
Proof.
  induction ls as [|l r IH]; [congruence|]. intros _.
  destruct r as [|l' r'].
  - unfold line_cost. simpl. lia.
  - specialize (IH ltac:(discriminate)).
    change (join_lines (l :: l' :: r'))
      with (l ++ newline :: join_lines (l' :: r')).
    change (list_sum (map line_cost (l :: l' :: r')))
      with (line_cost l + list_sum (map line_cost (l' :: r'))).
    rewrite length_app. cbn [length]. unfold line_cost at 1. lia.
Qed.

Lemma starts_with_app p s : starts_with p (p ++ s) = true.
Proof.
  induction p as [|a p IH]; [reflexivity|]. simpl.
  now rewrite Ascii.eqb_refl, IH.
Qed.

Lemma starts_with_length p s : starts_with p s = true -> length p <= length s.
Proof.
  revert s. induction p as [|a p IH]; intros [|b s]; simpl; try lia;
    try discriminate.
  intros H. apply andb_true_iff in H. destruct H as [_ H].
  apply IH in H. lia.
Qed.

Section Tokens.

Variables CENTER LEFT RIGHT : jsstring.

Lemma pad_line_length l :
  length (pad_line CENTER LEFT RIGHT l)
  = length l + (if str_truthy l then 2 else 0).
Proof.
  unfold pad_line. destruct l as [|c l]; [reflexivity|]. cbn [str_truthy negb].
  assert (Hp : forall T, starts_with T (c :: l) = true ->
               length (T ++ spaces SOFT_MARGIN_CH ++ skipn (length T) (c :: l))
               = length (c :: l) + 2).
  { intros T HT. apply starts_with_length in HT.
    rewrite !length_app, length_skipn, spaces_length.
    unfold SOFT_MARGIN_CH. lia. }
  destruct (starts_with CENTER (c :: l)) eqn:E1; [now apply Hp|].
  destruct (starts_with RIGHT (c :: l)) eqn:E2; [now apply Hp|].
  destruct (starts_with LEFT (c :: l)) eqn:E3; [now apply Hp|].
  rewrite length_app, spaces_length. unfold SOFT_MARGIN_CH. lia.
Qed.

Lemma pad_lines_sum (ls : list jsstring) :
  list_sum (map line_cost (map (pad_line CENTER LEFT RIGHT) ls))
  = list_sum (map line_cost ls) + 2 * length (filter str_truthy ls).
Proof.
  induction ls as [|l r IH]; [reflexivity|].
  change (list_sum (map line_cost (map (pad_line CENTER LEFT RIGHT) (l :: r))))
    with (line_cost (pad_line CENTER LEFT RIGHT l)
          + list_sum (map line_cost (map (pad_line CENTER LEFT RIGHT) r))).
  change (list_sum (map line_cost (l :: r)))
    with (line_cost l + list_sum (map line_cost r)).
  rewrite IH. unfold line_cost. rewrite pad_line_length.
  cbn [filter]. destruct (str_truthy l); cbn [length]; lia.
Qed.

Lemma starts_with_split p s :
  starts_with p s = true -> s = p ++ skipn (length p) s.
Proof.
  revert s. induction p as [|a p IH]; intros [|b s]; simpl;
    try discriminate; try reflexivity.
  intros H. apply andb_true_iff in H. destruct H as [Hab H].
  apply Ascii.eqb_eq in Hab. subst b. f_equal. now apply IH.
Qed.

(** What the callback of [padLines] makes of a line: the two spaces go
    behind the alignment token the line starts with, if any. *)
Lemma pad_line_spec l :
  let tok := if starts_with CENTER l then CENTER
             else if starts_with RIGHT l then RIGHT
             else if starts_with LEFT l then LEFT
             else [] in
  (l = [] -> pad_line CENTER LEFT RIGHT l = [])
  /\ (l <> [] ->
      exists rest,
        l = tok ++ rest
        /\ pad_line CENTER LEFT RIGHT l = tok ++ str "  " ++ rest).
Proof.
  intros tok. split; [intros ->; reflexivity|]. intros Hl.
  unfold pad_line. destruct l as [|c l]; [congruence|].
  cbn [str_truthy negb]. subst tok.
  destruct (starts_with CENTER (c :: l)) eqn:E1;
    [eexists; split; [now apply starts_with_split|reflexivity]|].
  destruct (starts_with RIGHT (c :: l)) eqn:E2;
    [eexists; split; [now apply starts_with_split|reflexivity]|].
  destruct (starts_with LEFT (c :: l)) eqn:E3;
    [eexists; split; [now apply starts_with_split|reflexivity]|].
  exists (c :: l). split; reflexivity.
Qed.

Lemma pad_line_free l :
  ~ In newline CENTER -> ~ In newline LEFT -> ~ In newline RIGHT ->
  ~ In newline l -> ~ In newline (pad_line CENTER LEFT RIGHT l).
Proof.
  intros HC HL HR Hl.
  destruct (pad_line_spec l) as [H0 H1].
  destruct l as [|c l]; [now rewrite H0|].
  destruct H1 as (rest & E & ->); [discriminate|].
  assert (Hrest : ~ In newline rest).
  { intros H. apply Hl. rewrite E. apply in_or_app. now right. }
  assert (Htok : ~ In newline
                   (if starts_with CENTER (c :: l) then CENTER
                    else if starts_with RIGHT (c :: l) then RIGHT
                    else if starts_with LEFT (c :: l) then LEFT
                    else [])).
  { destruct (starts_with CENTER (c :: l)); [exact HC|].
    destruct (starts_with RIGHT (c :: l)); [exact HR|].
    destruct (starts_with LEFT (c :: l)); [exact HL|]. intros []. }
  intros H. apply in_app_or in H. destruct H as [H|H]; [tauto|].
  apply in_app_or in H. destruct H as [H|H]; [|tauto].
  simpl in H. decompose [or] H; try contradiction; discriminate.
Qed.

(** X7. The soft margin of [padLines], whatever the alignment tokens of
    the library are: the text grows by twice the number of its
    non-empty lines. When the tokens hold no line break, the lines of
    the result are those of the text, one for one and in order: an
    empty line stays empty, and a non-empty line gets two spaces, behind
    the alignment token it starts with (the centring one first, then
    the right, then the left one) or else in front, and nothing else is
    changed, so it is two characters longer. *)
Theorem padLines_adds_two_columns_per_line text :
  length (padLines CENTER LEFT RIGHT text)
  = length text
    + 2 * length (filter str_truthy (split_on newline text))
  /\ (~ In newline CENTER -> ~ In newline LEFT -> ~ In newline RIGHT ->
      length (split_on newline (padLines CENTER LEFT RIGHT text))
      = length (split_on newline text)
      /\ forall i l,
           nth_error (split_on newline text) i = Some l ->
           exists l',
             nth_error (split_on newline (padLines CENTER LEFT RIGHT text)) i
             = Some l'
             /\ (l = [] -> l' = [])
             /\ (l <> [] ->
                 length l' = length l + 2
                 /\ exists rest,
                      let tok := if starts_with CENTER l then CENTER
                                 else if starts_with RIGHT l then RIGHT
                                 else if starts_with LEFT l then LEFT
                                 else [] in
                      l = tok ++ rest /\ l' = tok ++ str "  " ++ rest)).
Proof.
  unfold padLines.
  assert (Hne : split_on newline text <> []) by apply split_on_not_nil.
  assert (Hne' : map (pad_line CENTER LEFT RIGHT) (split_on newline text)
                 <> []).
  { destruct (split_on newline text); [congruence|discriminate]. }
  split.
  - pose proof (join_lines_length _ Hne') as H1.
    pose proof (join_lines_length _ Hne) as H2.
    rewrite join_split in H2. rewrite pad_lines_sum in H1. lia.
  - intros HC HL HR.
    assert (Hsplit : split_on newline
                       (join_lines (map (pad_line CENTER LEFT RIGHT)
                                        (split_on newline text)))
                     = map (pad_line CENTER LEFT RIGHT)
                           (split_on newline text)).
    { apply split_join; [exact Hne'|].
      apply Forall_forall. intros l Hl. apply in_map_iff in Hl.
      destruct Hl as (x & <- & Hx). apply pad_line_free; auto.
      pose proof (split_on_sep_free newline text) as Hfree.
      rewrite Forall_forall in Hfree. now apply Hfree. }
    rewrite Hsplit. split; [apply length_map|].
    intros i l Hi. exists (pad_line CENTER LEFT RIGHT l).
    split; [rewrite nth_error_map, Hi; reflexivity|].
    destruct (pad_line_spec l) as [H0 H1]. split; [exact H0|].
    intros Hl. split.
    + rewrite pad_line_length. destruct l; [congruence|]. reflexivity.
    + exact (H1 Hl).
Qed.

(** X8. A centred block printed through the soft margin, as
    [pt(centerBlock(text) + '\n')] does: when the centring token holds
    no line break, every non-empty line of [text] comes out as the
    token, two spaces and the line, and every empty line stays empty. *)
Theorem padded_centerBlock_keeps_token_first text :
  ~ In newline CENTER ->
  padLines CENTER LEFT RIGHT (centerBlock CENTER text ++ [newline])
  = join_lines (map (fun l => if str_truthy l
                              then CENTER ++ str "  " ++ l else [])
                    (split_on newline text))
    ++ [newline].
Proof.
  intros HC. unfold padLines, centerBlock.
  set (ls := split_on newline text).
  assert (Hne : ls <> []) by apply split_on_not_nil.
  assert (Hfree : Forall (fun l => ~ In newline l) ls)
    by apply split_on_sep_free.
  set (cs := map (fun l => if str_truthy l then CENTER ++ l else []) ls).
  assert (Hcs : split_on newline (join_lines cs ++ [newline]) = cs ++ [[]]).
  { rewrite split_on_app_sep. cbn [split_on]. f_equal.
    apply split_join.
    - subst cs. destruct ls; [congruence|discriminate].
    - subst cs. apply Forall_forall. intros l Hl.
      apply in_map_iff in Hl. destruct Hl as (x & <- & Hx).
      rewrite Forall_forall in Hfree. specialize (Hfree x Hx).
      destruct (str_truthy x); [|intros []].
      intros Hin. apply in_app_or in Hin. tauto. }
  rewrite Hcs, map_app. cbn [map].
  replace (pad_line CENTER LEFT RIGHT []) with (@nil ascii) by reflexivity.
  rewrite join_lines_app_empty
    by (subst cs; destruct ls; [congruence|discriminate]).
  do 2 f_equal. subst cs. rewrite map_map. apply map_ext. intros l.
  destruct l as [|c l]; [reflexivity|]. cbn [str_truthy].
  unfold pad_line.
  replace (str_truthy (CENTER ++ c :: l)) with true
    by (destruct CENTER; reflexivity).
  cbn [negb]. rewrite starts_with_app.
  rewrite skipn_app, skipn_all, Nat.sub_diag. reflexivity.
Qed.

End Tokens.

Lemma padLines_adds_two_columns_per_line_witness :
  let text := str "<C>Shop" ++ [newline; newline] ++ str "Tea 2" in
  split_on newline text = [str "<C>Shop"; []; str "Tea 2"]
  /\ split_on newline (padLines (str "<C>") (str "<L>") (str "<R>") text)
     = [str "<C>  Shop"; []; str "  Tea 2"]
  /\ length (split_on newline
               (padLines (str "<C>") (str "<L>") (str "<R>") text))
     = length (split_on newline text).
Proof.
  intros text.
  split; [vm_compute; reflexivity|]. split; [vm_compute; reflexivity|].
  apply (proj2 (padLines_adds_two_columns_per_line
                  (str "<C>") (str "<L>") (str "<R>") text));
    vm_compute; intros H; decompose [or] H; try contradiction;
    discriminate.
Defined.

Lemma padded_centerBlock_keeps_token_first_witness :
  ~ In newline (str "<C>")
  /\ padLines (str "<C>") (str "<L>") (str "<R>")
              (centerBlock (str "<C>") (str "Thank you") ++ [newline])
     = join_lines (map (fun l => if str_truthy l
                                 then str "<C>" ++ str "  " ++ l else [])
                       (split_on newline (str "Thank you")))
       ++ [newline].
Proof.
  assert (H : ~ In newline (str "<C>")).
  { vm_compute. intros [H|[H|[H|[]]]]; discriminate H. }
  split; [exact H|].
  apply (padded_centerBlock_keeps_token_first
           (str "<C>") (str "<L>") (str "<R>") (str "Thank you") H).
Defined.

(** *** Kitchen-only payloads *)

Lemma lookup_set_field_other k k' v fields :
  str_eqb k k' = false ->
  lookup k' (Routing.set_field k v fields) = lookup k' fields.
Proof.
  intros Hk.
  induction fields as [|[k0 v0] r IH]; simpl.
  - now rewrite Hk.
  - destruct (str_eqb k0 k) eqn:E; simpl.
    + apply RoutingSpec.str_eqb_eq in E. subst k0. now rewrite Hk.
    + now rewrite IH.
Qed.

Lemma lookup_json_clone k fields v :
  lookup k fields = v -> v <> VUndefined ->
  get_prop (Routing.json_clone (VObj fields)) k = Routing.json_clone v.
Proof.
  intros H Hv. subst v. simpl.
  induction fields as [|[k0 v0] r IH]; simpl in *; [congruence|].
  destruct (str_eqb k0 k) eqn:E.
  - destruct v0; simpl; rewrite ?E; try reflexivity. congruence.
  - destruct v0; simpl; rewrite ?E; auto.
Qed.

(** X9. The payloads the router builds for a kitchen block are the ones
    the renderer takes for kitchen-only tickets: the block payload is
    recognised with its block unchanged, and the single-item payload is
    recognised with a block that carries exactly that item. *)
Theorem kitchen_payloads_are_kitchen_only payload b it :
  Routing.has_type (str "kitchen_print") b = true ->
  getKitchenBlockIfOnly (Routing.buildKitchenPayload payload b) = b
  /\ exists single,
       getKitchenBlockIfOnly
         (Routing.buildSingleKitchenItemPayload payload b it) = single
       /\ Routing.has_type (str "kitchen_print") single = true
       /\ asKitchenItems single = [it].
Proof.
  intros Hb. split.
  - unfold getKitchenBlockIfOnly, Routing.buildKitchenPayload.
    cbn [get_prop]. rewrite RoutingSpec.lookup_set_field. now rewrite Hb.
  - destruct (RoutingSpec.has_type_object _ _ Hb) as (fields & ->).
    unfold getKitchenBlockIfOnly, Routing.buildSingleKitchenItemPayload.
    cbn [get_prop]. rewrite RoutingSpec.lookup_set_field.
    match goal with
    | |- context [Routing.has_type ?t (VObj (Routing.set_field ?k ?d ?fs))] =>
        assert (Ht : Routing.has_type t (VObj (Routing.set_field k d fs))
                     = true)
    end.
    { unfold Routing.has_type in *. cbn [get_prop] in *.
      rewrite (lookup_set_field_other (str "data") (str "type"))
        by reflexivity.
      destruct (lookup (str "type") fields) as [| | | |s| |] eqn:E;
        try discriminate.
      pose proof (lookup_json_clone (str "type") fields (VStr s) E
                                    ltac:(discriminate)) as Hc.
      simpl in Hc. simpl. rewrite Hc. exact Hb. }
    rewrite Ht. eexists. split; [reflexivity|]. split; [exact Ht|].
    unfold asKitchenItems. cbn [get_prop].
    rewrite RoutingSpec.lookup_set_field. cbn [get_prop].
    now rewrite RoutingSpec.lookup_set_field.
Qed.

Lemma kitchen_payloads_are_kitchen_only_witness :
  let b := VObj [(str "type", VStr (str "kitchen_print"));
                 (str "ip_address", VStr (str "10.0.0.7"));
                 (str "data",
                  VObj [(str "itemdata",
                         VArr [table_item "Tea" 1 3;
                               table_item "Scone" 2 5])])] in
  let payload := VObj [(str "order", VStr (str "A17"));
                       (str "data", VArr [item_block []; b])] in
  Routing.has_type (str "kitchen_print") b = true
  /\ getKitchenBlockIfOnly (Routing.buildKitchenPayload payload b) = b
  /\ exists single,
       getKitchenBlockIfOnly
         (Routing.buildSingleKitchenItemPayload payload b
            (table_item "Scone" 2 5)) = single
       /\ Routing.has_type (str "kitchen_print") single = true
       /\ asKitchenItems single = [table_item "Scone" 2 5].
Proof.
  intros b payload. split; [reflexivity|].
  apply (kitchen_payloads_are_kitchen_only payload b (table_item "Scone" 2 5)).
  reflexivity.
Defined.

(** *** The width of a line in characters *)

Lemma finite_not_nan x : isFinite x = true -> JsMathSpec.is_nan x = false.
Proof. destruct x; simpl; congruence. Qed.

Lemma clamp_24_64 n :
  JsMathSpec.is_nan n = false ->
  num_le (of_Z 24) (clamp n (of_Z 24) (of_Z 64)) = true
  /\ num_le (clamp n (of_Z 24) (of_Z 64)) (of_Z 64) = true.
Proof.
  intros Hn.
  destruct (JsMathSpec.clamp_bounds n (of_Z 24) (of_Z 64) Hn)
    as (_ & H1 & H2); try reflexivity.
  auto.
Qed.

(** X10. Whatever the document and the paper width hold, the number of
    characters per line that [bestCharsPerLine] and [getCharWidth]
    answer lies between 24 and 64. *)
Theorem chars_per_line_between_24_and_64 widthDots json r :
  bestCharsPerLine widthDots json = Some r \/ getCharWidth json = Some r ->
  num_le (of_Z 24) r = true /\ num_le r (of_Z 64) = true.
Proof.
  unfold bestCharsPerLine, getCharWidth.
  destruct (setting_of json) as [setting|]; [|intros [H|H]; discriminate].
  intros [H|H].
  - destruct (toInt _ pzero) as [fromJson|] eqn:Ei; [|discriminate].
    destruct (num_lt pzero fromJson) in H; inversion H; subst; clear H;
      apply clamp_24_64.
    + apply finite_not_nan. now apply (toInt_finite _ pzero _ eq_refl Ei).
    + apply JsMathSpec.Math_round_not_nan.
      change (of_Z 12) with (S754_finite false 6755399441055744 (-49)).
      apply JsMathSpec.num_div_not_nan.
      destruct widthDots; reflexivity.
  - destruct (toInt _ (of_Z 35)) as [w|] eqn:Ei; [|discriminate].
    inversion H; subst; clear H. apply clamp_24_64.
    apply finite_not_nan. now apply (toInt_finite _ (of_Z 35) _ eq_refl Ei).
Qed.

Lemma chars_per_line_between_24_and_64_witness :
  (bestCharsPerLine (of_Z 384) (receipt [item_block []]) = Some (of_Z 32)
   \/ getCharWidth (receipt [item_block []]) = Some (of_Z 32))
  /\ num_le (of_Z 24) (of_Z 32) = true /\ num_le (of_Z 32) (of_Z 64) = true.
Proof.
  assert (H : bestCharsPerLine (of_Z 384) (receipt [item_block []])
              = Some (of_Z 32)
              \/ getCharWidth (receipt [item_block []]) = Some (of_Z 32))
    by (left; vm_compute; reflexivity).
  split; [exact H|].
  apply (chars_per_line_between_24_and_64
           (of_Z 384) (receipt [item_block []]) _ H).
Defined.

(** X11. The rule [hr] draws is 8 to 64 dashes long for every binary64
    width, infinite ones included; for [NaN] it is empty. *)
Theorem hr_rule_length w :
  valid_binary prec emax w = true ->
  (JsMathSpec.is_nan w = true -> hr w = [])
  /\ (JsMathSpec.is_nan w = false -> 8 <= length (hr w) <= 64).
Proof.
  intros Hv. split.
  - destruct w; try discriminate. reflexivity.
  - intros Hn. unfold hr. rewrite repeat_length.
    destruct (JsMathSpec.clamp_bounds w (of_Z 8) (of_Z 64) Hn)
      as (_ & H1 & H2); try reflexivity.
    assert (Hr : valid_binary prec emax (clamp w (of_Z 8) (of_Z 64)) = true).
    { unfold clamp.
      destruct (JsMathSpec.Math_min_spec (of_Z 64) w) as (Hm & _ & _ & Hc);
        [reflexivity|exact Hn|].
      destruct (JsMathSpec.Math_max_spec (of_Z 8) (Math_min (of_Z 64) w))
        as (_ & _ & _ & Hc'); [reflexivity|exact Hm|].
      destruct Hc' as [-> | ->]; [reflexivity|].
      destruct Hc as [-> | ->]; [reflexivity|exact Hv]. }
    pose proof (JsMathSpec.truncate_8_64 _ Hr H1 H2). lia.
Qed.

Lemma hr_rule_length_witness :
  valid_binary prec emax (of_Z 46) = true
  /\ (JsMathSpec.is_nan (of_Z 46) = true -> hr (of_Z 46) = [])
  /\ (JsMathSpec.is_nan (of_Z 46) = false -> 8 <= length (hr (of_Z 46)) <= 64).
Proof.
  split; [reflexivity|]. apply (hr_rule_length (of_Z 46)). reflexivity.
Defined.

End LayoutSpec.

(** ** Properties of the cut helpers of the renderer *)

Module CuttingSpec.
Import Effect Cutting.

(** *** Vocabulary *)

(** The calls a loop makes that tries candidates in turn until one
    resolves. *)
Fixpoint attempted {E : Type} (ok : list E -> E -> bool) (tr : list E)
         (cs : list E) : list E :=
  match cs with
  | [] => []
  | c :: r => c :: (if ok tr c then [] else attempted ok (tr ++ [c]) r)
  end.

(** What [cutWithFallback] can call on a transport, in order. *)
Definition candidates (p : device) : list op :=
  (if has_cut p then [Cut] else [])
    ++ (if has_printRaw p then map PrintRaw tries else []).

(** A transport with both methods that rejects the native cut and the
    two [ESC] opcodes. *)
Definition gs_only : device :=
  {| has_cut := true;
     has_printRaw := true;
     accepts := fun _ c =>
       match c with
       | Cut => false
       | PrintRaw (0x1B :: _)%Z => false
       | PrintRaw _ => true
       end |}.

(** *** The loop *)

Lemma attempted_prefix {E} (ok : list E -> E -> bool) cs :
  forall tr, exists rest, cs = attempted ok tr cs ++ rest.
Proof.
  induction cs as [|c r IH]; intros tr; simpl; [exists []; reflexivity|].
  destruct (ok tr c).
  - exists r. reflexivity.
  - destruct (IH (tr ++ [c])) as (rest & Hr). exists rest.
    simpl. now rewrite <- Hr.
Qed.

Lemma attempted_rejected {E} (ok : list E -> E -> bool) cs :
  forall tr pre c post,
    attempted ok tr cs = pre ++ c :: post -> post <> [] ->
    ok (tr ++ pre) c = false.
Proof.
  induction cs as [|a r IH]; intros tr pre c post H Hp; simpl in H.
  - destruct pre; discriminate.
  - destruct pre as [|b pre]; simpl in H; inversion H; subst; clear H.
    + rewrite app_nil_r. destruct (ok tr c) eqn:Hok; [congruence|reflexivity].
    + destruct (ok tr b) eqn:Hok; [destruct pre; discriminate|].
      replace (tr ++ b :: pre) with ((tr ++ [b]) ++ pre)
        by (rewrite <- app_assoc; reflexivity).
      now apply (IH (tr ++ [b]) pre c post).
Qed.

Lemma attempted_stops {E} (ok : list E -> E -> bool) cs :
  forall tr rest,
    cs = attempted ok tr cs ++ rest -> rest <> [] ->
    exists pre c,
      attempted ok tr cs = pre ++ [c] /\ ok (tr ++ pre) c = true.
Proof.
  induction cs as [|a r IH]; intros tr rest H Hr; simpl in H.
  - destruct rest; [congruence|discriminate].
  - simpl. destruct (ok tr a) eqn:Ha.
    + exists [], a. rewrite app_nil_r. auto.
    + injection H as H'.
      destruct (IH (tr ++ [a]) rest H' Hr) as (pre & c & Hc & Hok).
      exists (a :: pre), c. rewrite Hc. split; [reflexivity|].
      replace (tr ++ a :: pre) with ((tr ++ [a]) ++ pre)
        by (rewrite <- app_assoc; reflexivity).
      exact Hok.
Qed.

Lemma try_raw_attempted p seqs :
  forall tr,
    try_raw p seqs tr
    = (tr ++ attempted (accepts p) tr (map PrintRaw seqs),
       Transport.Normal tt).
Proof.
  induction seqs as [|s r IH]; intros tr; simpl.
  - now rewrite app_nil_r.
  - unfold bind, try_catch, call, ret.
    destruct (accepts p tr (PrintRaw s)); [reflexivity|].
    rewrite IH, <- app_assoc. reflexivity.
Qed.

Lemma cutWithFallback_attempted p tr :
  cutWithFallback p tr
  = (tr ++ attempted (accepts p) tr (candidates p), Transport.Normal tt).
Proof.
  unfold cutWithFallback, candidates, bind, try_catch, call, ret.
  destruct (has_cut p), (has_printRaw p); cbn [negb app attempted].
  - destruct (accepts p tr Cut); [reflexivity|].
    rewrite try_raw_attempted, <- app_assoc. reflexivity.
  - destruct (accepts p tr Cut); reflexivity.
  - apply try_raw_attempted.
  - now rewrite app_nil_r.
Qed.

(** X12. [cutWithFallback] never throws. It calls what the transport
    has, in the order native cut, [ESC i], [ESC m], [GS V 0], [GS V 1],
    [GS V 'B' 3]; each call it makes after another follows a rejected
    one, and it stops before the end of that list only behind a call
    that resolved. *)
Theorem cutWithFallback_tries_until_accepted p tr :
  exists calls rest,
    cutWithFallback p tr = (tr ++ calls, Transport.Normal tt)
    /\ (if has_cut p then [Cut] else [])
         ++ (if has_printRaw p
             then [PrintRaw [0x1B; 0x69]; PrintRaw [0x1B; 0x6D];
                   PrintRaw [0x1D; 0x56; 0x00]; PrintRaw [0x1D; 0x56; 0x01];
                   PrintRaw [0x1D; 0x56; 0x42; 0x03]]%Z
             else [])
       = calls ++ rest
    /\ (forall pre c post,
           calls = pre ++ c :: post -> post <> [] ->
           accepts p (tr ++ pre) c = false)
    /\ (rest <> [] ->
        exists pre c, calls = pre ++ [c] /\ accepts p (tr ++ pre) c = true).
Proof.
  destruct (attempted_prefix (accepts p) (candidates p) tr) as (rest & Hr).
  exists (attempted (accepts p) tr (candidates p)), rest.
  split; [apply cutWithFallback_attempted|].
  split; [exact Hr|]. split.
  - intros pre c post. apply attempted_rejected.
  - now apply attempted_stops.
Qed.

Example cutWithFallback_reaches_GS_V :
  cutWithFallback gs_only []
  = ([Cut; PrintRaw [0x1B; 0x69]; PrintRaw [0x1B; 0x6D];
      PrintRaw [0x1D; 0x56; 0x00]]%Z,
     Transport.Normal tt).
Proof. vm_compute. reflexivity. Qed.

End CuttingSpec.

(** ** Vocabulary for traces of calls *)

Module EffectSpec.

(** Of the calls made from the trace [tr] on, those that resolved. *)
Fixpoint resolved {E : Type} (ok : list E -> E -> bool) (tr : list E)
         (calls : list E) : list E :=
  match calls with
  | [] => []
  | c :: r => (if ok tr c then [c] else []) ++ resolved ok (tr ++ [c]) r
  end.

(** A list of step numbers that goes up strictly. *)
Fixpoint increasing (l : list nat) : bool :=
  match l with
  | a :: (b :: _) as r => (a <? b) && increasing r
  | _ => true
  end.

End EffectSpec.

(** ** Properties of one print job *)

Module NetJobSpec.
Import JsString JsNumber JsValue Prefs Effect NetJob EffectSpec.

(** *** Vocabulary *)

Definition is_render (c : step) : bool :=
  match c with
  | Render _ _ => true
  | _ => false
  end.

(** A stored printer on the default port. *)
Definition kitchen_printer : NetPrinterProfile :=
  {| name := Some (str "Kitchen"); host := str "10.0.0.7"; port := None;
     widthDots := Some (of_Z 384); enabled := Some true; copies := None;
     isDefault := None |}.

(** A network on which the first rendering of a job fails and every
    other call resolves. *)
Definition first_render_fails : network :=
  {| has_init := true;
     has_connectPrinter := true;
     has_closeConn := true;
     answers := fun tr c =>
       match c with
       | Render _ _ => existsb is_render tr
       | _ => true
       end |}.

(** A network on which no rendering resolves. *)
Definition never_renders : network :=
  {| has_init := true;
     has_connectPrinter := true;
     has_closeConn := true;
     answers := fun _ c => negb (is_render c) |}.

Ltac job_cases net :=
  unfold printToSingleNetProfile, lan_init, lan_connect, lan_disconnect,
    bind, try_catch, call, ret, throw;
  destruct (has_init net), (has_connectPrinter net), (has_closeConn net);
  cbn [negb];
  repeat match goal with
         | |- context [answers net ?t ?c] =>
             destruct (answers net t c) eqn:?
         end;
  cbn [fst snd];
  rewrite <- ?app_assoc; cbn [app];
  rewrite ?skipn_app, ?skipn_all, ?Nat.sub_diag; cbn [skipn app].

Ltac use_answers :=
  repeat match goal with
         | H : answers _ _ _ = _ |- _ => rewrite H
         end.

(** X13. One print job on a stored printer. It connects to the host of
    the profile on the port and with the paper width that
    [normalizeProfile] fills in, and renders at most twice. It completes
    exactly when one of its renderings resolved; the library connection
    is closed last when it completes, and is never closed when the job
    throws. *)
Theorem print_job_retries_once net profile payload tr :
  exists calls r p w,
    printToSingleNetProfile net profile payload tr = (tr ++ calls, r)
    /\ port (normalizeProfile profile) = Some p
    /\ widthDots (normalizeProfile profile) = Some w
    /\ incl calls [Init; Connect (host profile) p; Render payload w;
                   CloseConn]
    /\ length (filter is_render calls) <= 2
    /\ (r = Transport.Normal tt
        <-> In (Render payload w) (resolved (answers net) tr calls))
    /\ (r = Transport.Normal tt -> has_closeConn net = true ->
        exists pre, calls = pre ++ [CloseConn])
    /\ (r = Transport.Throw -> ~ In CloseConn calls).
Proof.
  exists (skipn (length tr)
                (fst (printToSingleNetProfile net profile payload tr))),
    (snd (printToSingleNetProfile net profile payload tr)).
  eexists _, _.
  split; [|split; [reflexivity|split; [reflexivity|]]].
  - job_cases net; rewrite ?app_nil_r; reflexivity.
  - cbn [port widthDots normalizeProfile].
    set (p := positive_or (port profile) DEFAULT_NET_PORT).
    set (w := match widthDots profile with
              | Some w => if num_eq w (of_Z 384) || num_eq w (of_Z 576)
                          then w else DEFAULT_WIDTH_DOTS
              | None => DEFAULT_WIDTH_DOTS
              end).
    assert (Hp : printToSingleNetProfile net profile payload tr
                 = (let h := host profile in
                    bind (lan_init net)
                      (fun _ => bind (lan_connect net h p)
                         (fun _ => bind
                            (try_catch (call (answers net) (Render payload w))
                               (bind (lan_init net)
                                  (fun _ => bind (lan_connect net h p)
                                     (fun _ => call (answers net)
                                                    (Render payload w)))))
                            (fun _ => lan_disconnect net)))) tr)
      by reflexivity.
    rewrite Hp. clear Hp. cbn zeta.
    unfold lan_init, lan_connect, lan_disconnect,
      bind, try_catch, call, ret, throw.
    destruct (has_init net), (has_connectPrinter net), (has_closeConn net);
      cbn [negb];
      repeat match goal with
             | |- context [answers net ?t ?c] =>
                 destruct (answers net t c) eqn:?
             end;
      cbn [fst snd];
      rewrite <- ?app_assoc; cbn [app];
      rewrite ?skipn_app, ?skipn_all, ?Nat.sub_diag; cbn [skipn app];
      (split; [intros x Hx; simpl in Hx |- *; tauto|]);
      (split; [simpl; lia|]);
      cbn [resolved]; use_answers; cbn [app];
      (split;
       [split;
        [intros Hr; first [discriminate Hr|simpl; auto 10]
        |intros H;
         first [reflexivity
               |simpl in H; decompose [or] H; try discriminate;
                contradiction]]
       |]);
      (split;
       [intros Hr Hc;
        first [discriminate Hr
              |discriminate Hc
              |match goal with
               | |- exists pre, ?l = _ => exists (removelast l); reflexivity
               end]
       |]);
      intros Hr;
      first [discriminate Hr
            |intros H; simpl in H; decompose [or] H; try discriminate;
             contradiction].
Qed.

End NetJobSpec.

(** ** Properties of the image width *)

Module BleImageSpec.
Import JsNumber JsMath BleImage.

Lemma land_lnot_7 n : Z.land n (Z.lnot 7) = (8 * (n / 8))%Z.
Proof.
  rewrite <- Z.ldiff_land. change 7%Z with (Z.ones 3).
  rewrite Z.ldiff_ones_r by lia.
  rewrite Z.shiftr_div_pow2, Z.shiftl_mul_pow2 by lia.
  change (2 ^ 3)%Z with 8%Z. lia.
Qed.

(** X14. The image width the Bluetooth transport passes to the library
    is a multiple of 8 and at least 8, whatever width is asked for, a
    missing one, [NaN] and infinities included. For a request of 8 dots
    or more (below [2^31]) it is the request rounded down to a multiple
    of 8. *)
Theorem image_width_is_a_multiple_of_8 (imageWidth : option number) :
  let asked := truncate match imageWidth with
                        | Some w => w
                        | None => pzero
                        end in
  (8 <= image_width imageWidth)%Z
  /\ (image_width imageWidth mod 8 = 0)%Z
  /\ ((8 <= asked < 2 ^ 31)%Z -> image_width imageWidth = (8 * (asked / 8))%Z).
Proof.
  intros asked. unfold image_width. rewrite land_lnot_7.
  split; [lia|]. split.
  - destruct (Z.max_spec 8 (8 * (ToInt32 match imageWidth with
                                          | Some w => w
                                          | None => pzero
                                          end / 8)))
      as [[_ ->] | [_ ->]].
    + rewrite Z.mul_comm. apply Z.mod_mul. lia.
    + reflexivity.
  - intros H. unfold ToInt32. fold asked.
    replace ((asked + 2 ^ 31) mod 2 ^ 32 - 2 ^ 31)%Z with asked.
    + assert (1 <= asked / 8)%Z by (apply Z.div_le_lower_bound; lia). lia.
    + rewrite Z.mod_small; lia.
Qed.

Example image_width_samples :
  image_width (Some (of_Z 581)) = 576%Z
  /\ image_width (Some (of_Z 384)) = 384%Z
  /\ image_width (Some (of_Z 5)) = 8%Z
  /\ image_width None = 8%Z
  /\ image_width (Some NaN) = 8%Z
  /\ image_width (Some (of_Z (-100))) = 8%Z.
Proof. repeat split; vm_compute; reflexivity. Qed.

End BleImageSpec.

(** ** Properties of the cut over the transport's own socket *)

Module NetTcpSpec.
Import JsString JsNumber Effect NetTcp EffectSpec.

(** *** Vocabulary *)

(** The service holds a host and a port: [connect] has been called with
    both. *)
Definition connected (h : option jsstring) (p : number) : bool :=
  match h with
  | Some (_ :: _) => num_truthy p
  | _ => false
  end.

Definition feed : Transport.bytes := [0x0a; 0x0a; 0x0a; 0x0a; 0x0a]%Z.

(** The step of [cut] a call belongs to: closing the library socket, the
    feed over TCP, the cutter opcode over TCP, the same opcode through
    the library as base64 and as an array; and anything else. *)
Definition tcp_step (mode : Transport.cut_mode) (c : io) : nat :=
  match c with
  | SdkCloseConn => 0
  | TcpSend _ _ b =>
      if TransportSpec.bytes_eqb b feed then 1
      else if TransportSpec.bytes_eqb b (Transport.GS_V mode) then 2
      else 5
  | SdkRawBase64 b =>
      if TransportSpec.bytes_eqb b (Transport.GS_V mode) then 3 else 5
  | SdkRawArray b =>
      if TransportSpec.bytes_eqb b (Transport.GS_V mode) then 4 else 5
  end.

Definition through_library (c : io) : bool :=
  match c with
  | SdkRawBase64 _ | SdkRawArray _ => true
  | _ => false
  end.

Definition over_tcp (c : io) : bool :=
  match c with
  | TcpSend _ _ _ => true
  | _ => false
  end.

(** An environment in which the printer refuses connections on its port
    while the library still takes raw data. *)
Definition port_closed : environment :=
  {| has_closeConn := true;
     has_printRawData := true;
     resolves := fun _ c => negb (over_tcp c) |}.

Ltac use_resolves :=
  repeat match goal with
         | H : resolves _ _ _ = _ |- _ => rewrite H
         end.

(** X15. The [cut] of the network transport never throws. Its calls
    come in one order and at most once each: close the library socket,
    feed over TCP, one [GS V] opcode over TCP, and that opcode through
    the library; no other bytes are sent. The library is used only when
    the opcode did not go through over TCP. While the service holds no
    host or port, nothing is sent at all and the library is not tried. *)
Theorem tcp_cut_sends_one_opcode env h p mode tr :
  exists calls,
    cut env h p mode tr = (tr ++ calls, Transport.Normal tt)
    /\ increasing (map (tcp_step mode) calls) = true
    /\ Forall (fun c => tcp_step mode c <= 4) calls
    /\ (existsb through_library calls = true ->
        existsb over_tcp calls = true
        /\ forallb (fun c => negb (Nat.eqb (tcp_step mode c) 2))
                   (resolved (resolves env) tr calls) = true)
    /\ (connected h p = false ->
        forallb (fun c => Nat.eqb (tcp_step mode c) 0) calls = true).
Proof.
  exists (skipn (length tr) (fst (cut env h p mode tr))).
  unfold cut, sendTcpBytes, printRaw, connected, bind, try_catch, call, ret.
  destruct h as [[|c h]|]; destruct (num_truthy p);
    destruct (has_closeConn env), (has_printRawData env);
    cbn [negb];
    repeat match goal with
           | |- context [resolves env ?t ?c] =>
               destruct (resolves env t c) eqn:?
           end;
    cbn [fst snd];
    rewrite <- ?app_assoc; cbn [app];
    rewrite ?skipn_app, ?skipn_all, ?Nat.sub_diag; cbn [skipn app];
    (split; [rewrite ?app_nil_r; reflexivity|]);
    (split; [destruct mode; vm_compute; reflexivity|]);
    (split;
     [destruct mode;
      repeat (apply Forall_cons; [vm_compute; repeat constructor|]);
      apply Forall_nil|]);
    (split;
     [cbn [existsb through_library over_tcp orb];
      intros Hl; try discriminate Hl;
      (split; [reflexivity|]);
      cbn [resolved]; use_resolves; cbn [app];
      destruct mode; vm_compute; reflexivity
     |]);
    intros Hc; try discriminate Hc;
    destruct mode; vm_compute; reflexivity.
Qed.

Example tcp_cut_port_closed :
  cut port_closed (Some (str "10.0.0.7")) (of_Z 9100) Transport.partial []
  = ([SdkCloseConn;
      TcpSend (str "10.0.0.7") (of_Z 9100) [0x0a; 0x0a; 0x0a; 0x0a; 0x0a]%Z;
      TcpSend (str "10.0.0.7") (of_Z 9100) [0x1d; 0x56; 0x01]%Z;
      SdkRawBase64 [0x1d; 0x56; 0x01]%Z],
     Transport.Normal tt).
Proof. vm_compute. reflexivity. Qed.

Example tcp_cut_not_connected :
  cut port_closed None (of_Z 9100) Transport.full []
  = ([SdkCloseConn], Transport.Normal tt).
Proof. vm_compute. reflexivity. Qed.

End NetTcpSpec.

(** ** Properties of the Bluetooth cut and of the raw senders *)

Module BleSpec.
Import JsString Transport TransportSpec.

(** *** Vocabulary *)

(** Of the calls made from the trace [tr] on, those that resolved. *)
Fixpoint went_through (lib : library) (tr : list call) (calls : list call)
  : list call :=
  match calls with
  | [] => []
  | c :: r =>
      match reply_to lib tr c with
      | Resolved _ => [c]
      | Rejected => []
      end ++ went_through lib (tr ++ [c]) r
  end.

(** A call on the Classic (RFCOMM) library. *)
Definition is_classic (c : call) : bool :=
  match c with
  | ClassicConnect _ | ClassicWrite _ | ClassicDisconnect => true
  | _ => false
  end.

(** A call that carries one of the cutter sequences of [cut]. *)
Definition is_cutter (mode : cut_mode) (c : call) : bool :=
  match c with
  | PrintRawBase64 b | PrintRawArray b | ClassicWrite b =>
      existsb (bytes_eqb b) (ble_sequences mode)
  | _ => false
  end.

Definition is_write (c : call) : bool :=
  match c with
  | ClassicWrite _ => true
  | _ => false
  end.

(** Whether one of the calls opened an RFCOMM connection: a connect
    that resolved with a connection. *)
Fixpoint opened (lib : library) (tr : list call) (calls : list call)
  : bool :=
  match calls with
  | [] => false
  | c :: r =>
      match c, reply_to lib tr c with
      | ClassicConnect _, Resolved true => true
      | _, _ => false
      end || opened lib (tr ++ [c]) r
  end.

(** What one round of a sending loop does: it completes, its calls are
    of the form [P], and of the cutter calls that went through there is
    one when it answers [true] and none when it answers [false]. *)
Definition sends_once (lib : library) (mode : cut_mode)
           (P : call -> Prop) (send : M bool) : Prop :=
  forall tr,
    exists calls ok,
      send tr = (tr ++ calls, Normal ok)
      /\ Forall P calls
      /\ length (filter (is_cutter mode) (went_through lib tr calls))
         = (if ok then 1 else 0).

(** A build with raw data on which the printer takes no raw opcode over
    Bluetooth LE, while the RFCOMM side works. *)
Definition ble_ignores_raw : library :=
  {| has_printRawData := true;
     has_printText := true;
     has_cutPaper := false;
     has_disconnectFromDevice := true;
     reply_to := fun _ c =>
       match c with
       | PrintRawBase64 _ | PrintRawArray _ => Rejected
       | _ => Resolved true
       end |}.

(** *** Traces *)

Lemma went_through_app lib a :
  forall tr b,
    went_through lib tr (a ++ b)
    = went_through lib tr a ++ went_through lib (tr ++ a) b.
Proof.
  induction a as [|c a IH]; intros tr b; simpl.
  - now rewrite app_nil_r.
  - rewrite IH, <- !app_assoc. reflexivity.
Qed.

Ltac use_replies :=
  repeat match goal with
         | H : reply_to _ _ _ = _ |- _ => rewrite H
         end.

Ltac split_replies lib :=
  repeat match goal with
         | |- context [reply_to lib ?t ?c] =>
             destruct (reply_to lib t c) as [[|]|] eqn:?
         end.

Ltac tidy_trace :=
  cbn [fst snd];
  rewrite <- ?app_assoc; cbn [app];
  rewrite ?skipn_app, ?skipn_all, ?Nat.sub_diag; cbn [skipn app];
  rewrite ?app_nil_r.

Section AnyBuild.

Variable lib : library.

Lemma tryBleRaw_calls b tr :
  exists calls ok,
    tryBleRaw lib b tr = (tr ++ calls, Normal ok)
    /\ Forall (fun c => c = PrintRawBase64 b \/ c = PrintRawArray b) calls
    /\ length (went_through lib tr calls) = (if ok then 1 else 0).
Proof.
  exists (skipn (length tr) (fst (tryBleRaw lib b tr))),
    (match snd (tryBleRaw lib b tr) with
     | Normal ok => ok
     | Throw => false
     end).
  unfold tryBleRaw, bind, try_catch, invoke, ret.
  destruct (has_printRawData lib); cbn [negb];
    split_replies lib; tidy_trace;
    (split; [reflexivity|]);
    (split; [repeat (apply Forall_cons; [auto|]); apply Forall_nil|]);
    cbn [went_through]; use_replies; reflexivity.
Qed.

(** X16. [tryBleRaw] never throws. Without [printRawData] it makes no
    call and answers [false]. With it, it sends the bytes as base64
    first; when that call resolves it answers [true] and sends nothing
    more; when that call is rejected it sends the bytes as an array, and
    answers [true] when this second call resolves and [false] when it is
    rejected too. So it answers [true] exactly when one of its calls
    went through, and then that call is its last. *)
Theorem tryBleRaw_reports_what_went_through b tr :
  (has_printRawData lib = false -> tryBleRaw lib b tr = (tr, Normal false))
  /\ (has_printRawData lib = true ->
      (forall v,
          reply_to lib tr (PrintRawBase64 b) = Resolved v ->
          tryBleRaw lib b tr = (tr ++ [PrintRawBase64 b], Normal true))
      /\ (reply_to lib tr (PrintRawBase64 b) = Rejected ->
          (forall v,
              reply_to lib (tr ++ [PrintRawBase64 b]) (PrintRawArray b)
              = Resolved v ->
              tryBleRaw lib b tr
              = (tr ++ [PrintRawBase64 b; PrintRawArray b], Normal true))
          /\ (reply_to lib (tr ++ [PrintRawBase64 b]) (PrintRawArray b)
              = Rejected ->
              tryBleRaw lib b tr
              = (tr ++ [PrintRawBase64 b; PrintRawArray b], Normal false))))
  /\ exists calls ok,
       tryBleRaw lib b tr = (tr ++ calls, Normal ok)
       /\ (calls = [] \/ calls = [PrintRawBase64 b]
           \/ (calls = [PrintRawBase64 b; PrintRawArray b]
               /\ reply_to lib tr (PrintRawBase64 b) = Rejected))
       /\ length (went_through lib tr calls) = (if ok then 1 else 0)
       /\ (ok = true ->
           exists pre c v,
             calls = pre ++ [c]
             /\ went_through lib tr calls = [c]
             /\ reply_to lib (tr ++ pre) c = Resolved v)
       /\ (has_printRawData lib = false -> calls = [] /\ ok = false)
       /\ (has_printRawData lib = true -> calls <> []).
Proof.
  split; [|split].
  - intros H. unfold tryBleRaw. now rewrite H.
  - intros H. unfold tryBleRaw, bind, try_catch, invoke, ret.
    rewrite H. cbn [negb]. split.
    + intros v Hv. now rewrite Hv.
    + intros Hr. rewrite Hr. split.
      * intros v Hv. rewrite Hv. now rewrite <- app_assoc.
      * intros Hv. rewrite Hv. now rewrite <- app_assoc.
  - unfold tryBleRaw, bind, try_catch, invoke, ret.
    destruct (has_printRawData lib) eqn:Hh; cbn [negb].
    + destruct (reply_to lib tr (PrintRawBase64 b)) as [v|] eqn:E1.
      * exists [PrintRawBase64 b], true. split; [reflexivity|].
        split; [auto|]. cbn [went_through]. rewrite E1.
        split; [reflexivity|]. split; [|split; [discriminate|discriminate]].
        intros _. exists [], (PrintRawBase64 b), v.
        rewrite (app_nil_r tr). repeat split. exact E1.
      * destruct (reply_to lib (tr ++ [PrintRawBase64 b]) (PrintRawArray b))
          as [v|] eqn:E2.
        -- exists [PrintRawBase64 b; PrintRawArray b], true.
           rewrite <- app_assoc. split; [reflexivity|].
           split; [auto|]. cbn [went_through]. rewrite E1, E2.
           split; [reflexivity|].
           split; [|split; [discriminate|discriminate]].
           intros _. exists [PrintRawBase64 b], (PrintRawArray b), v.
           repeat split. exact E2.
        -- exists [PrintRawBase64 b; PrintRawArray b], false.
           rewrite <- app_assoc. split; [reflexivity|].
           split; [auto|]. cbn [went_through]. rewrite E1, E2.
           split; [reflexivity|].
           split; [discriminate|split; [discriminate|discriminate]].
    + exists [], false. rewrite app_nil_r. split; [reflexivity|].
      split; [auto|]. split; [reflexivity|].
      split; [discriminate|split; [auto|discriminate]].
Qed.

Lemma sendClassicOnce_calls mac b tr :
  exists calls ok,
    sendClassicOnce lib mac b tr = (tr ++ calls, Normal ok)
    /\ Forall (fun c => c = ClassicConnect true \/ c = ClassicConnect false
                        \/ c = ClassicWrite b \/ c = ClassicDisconnect) calls
    /\ filter is_write (went_through lib tr calls)
       = (if ok then [ClassicWrite b] else []).
Proof.
  exists (skipn (length tr) (fst (sendClassicOnce lib mac b tr))),
    (match snd (sendClassicOnce lib mac b tr) with
     | Normal ok => ok
     | Throw => false
     end).
  unfold sendClassicOnce, bind, try_catch, invoke, ret, throw.
  destruct mac as [[|c mac]|];
    [tidy_trace; repeat split; apply Forall_nil
    |
    |tidy_trace; repeat split; apply Forall_nil].
  destruct (has_disconnectFromDevice lib);
    split_replies lib; tidy_trace;
    (split; [reflexivity|]);
    (split; [repeat (apply Forall_cons; [auto 6|]); apply Forall_nil|]);
    cbn [went_through]; use_replies; reflexivity.
Qed.

(** X17. [sendClassicOnce] never throws. Without a printer address it
    makes no call. Otherwise it answers [true] exactly when its write
    of the bytes went through, writes only after a connection was
    opened, and, where the library can disconnect, ends with a
    disconnect whether or not the connection or the write failed. *)
Theorem sendClassicOnce_always_disconnects mac b tr :
  exists calls ok,
    sendClassicOnce lib mac b tr = (tr ++ calls, Normal ok)
    /\ Forall (fun c => c = ClassicConnect true \/ c = ClassicConnect false
                        \/ c = ClassicWrite b \/ c = ClassicDisconnect) calls
    /\ filter is_write (went_through lib tr calls)
       = (if ok then [ClassicWrite b] else [])
    /\ (match mac with
        | Some (_ :: _) => calls <> []
        | _ => calls = []
        end)
    /\ (In (ClassicWrite b) calls -> opened lib tr calls = true)
    /\ (calls <> [] -> has_disconnectFromDevice lib = true ->
        exists pre, calls = pre ++ [ClassicDisconnect]).
Proof.
  exists (skipn (length tr) (fst (sendClassicOnce lib mac b tr))),
    (match snd (sendClassicOnce lib mac b tr) with
     | Normal ok => ok
     | Throw => false
     end).
  unfold sendClassicOnce, bind, try_catch, invoke, ret, throw.
  destruct mac as [[|c mac]|];
    [tidy_trace;
     (split; [reflexivity|]); (split; [apply Forall_nil|]);
     (split; [reflexivity|]); (split; [reflexivity|]);
     (split; [intros []|]); intros H; congruence
    |
    |tidy_trace;
     (split; [reflexivity|]); (split; [apply Forall_nil|]);
     (split; [reflexivity|]); (split; [reflexivity|]);
     (split; [intros []|]); intros H; congruence].
  destruct (has_disconnectFromDevice lib);
    split_replies lib; tidy_trace;
    (split; [reflexivity|]);
    (split; [repeat (apply Forall_cons; [auto 6|]); apply Forall_nil|]);
    cbn [went_through opened]; use_replies; cbn [app filter is_write orb];
    (split; [reflexivity|]);
    (split; [discriminate|]);
    (split;
     [intros H; first [reflexivity
                      |simpl in H; decompose [or] H; try discriminate;
                       contradiction]
     |]);
    intros _ Hd; try discriminate Hd;
    match goal with
    | |- exists pre, ?l = _ => exists (removelast l); reflexivity
    end.
Qed.

Lemma went_through_Forall (P : call -> Prop) calls :
  forall tr, Forall P calls -> Forall P (went_through lib tr calls).
Proof.
  induction calls as [|c r IH]; intros tr H; simpl; [constructor|].
  inversion H; subst. apply Forall_app. split; [|now apply IH].
  destruct (reply_to lib tr c); repeat constructor. assumption.
Qed.

Lemma filter_none {A} (f : A -> bool) l :
  Forall (fun c => f c = false) l -> filter f l = [].
Proof.
  induction 1 as [|c l Hc _ IH]; simpl; [reflexivity|]. now rewrite Hc.
Qed.

Lemma filter_all {A} (f : A -> bool) l :
  Forall (fun c => f c = true) l -> filter f l = l.
Proof.
  induction 1 as [|c l Hc _ IH]; simpl; [reflexivity|].
  now rewrite Hc, IH.
Qed.

Lemma bytes_eqb_refl b : bytes_eqb b b = true.
Proof.
  unfold bytes_eqb. destruct (list_eq_dec Z.eq_dec b b); congruence.
Qed.

Lemma is_cutter_in mode b :
  In b (ble_sequences mode) ->
  is_cutter mode (PrintRawBase64 b) = true
  /\ is_cutter mode (PrintRawArray b) = true
  /\ is_cutter mode (ClassicWrite b) = true.
Proof.
  intros H.
  assert (E : existsb (bytes_eqb b) (ble_sequences mode) = true).
  { apply existsb_exists. exists b. split; [exact H|apply bytes_eqb_refl]. }
  simpl. auto.
Qed.

Lemma first_sent_once mode P send seqs :
  (forall b, In b seqs -> sends_once lib mode P (send b)) ->
  sends_once lib mode P (first_sent send seqs).
Proof.
  induction seqs as [|seq r IH]; intros Hs tr.
  - exists [], false. simpl. unfold ret. rewrite app_nil_r. auto.
  - rewrite first_sent_step.
    destruct (Hs seq (or_introl eq_refl) tr) as (c1 & ok1 & E1 & P1 & W1).
    rewrite E1. destruct ok1.
    + exists c1, true. auto.
    + destruct (IH (fun b Hb => Hs b (or_intror Hb)) (tr ++ c1))
        as (c2 & ok2 & E2 & P2 & W2).
      exists (c1 ++ c2), ok2. rewrite E2, app_assoc.
      split; [reflexivity|]. split; [apply Forall_app; auto|].
      rewrite went_through_app, filter_app, length_app, W1, W2.
      reflexivity.
Qed.

Lemma tryBleRaw_once mode b :
  In b (ble_sequences mode) ->
  sends_once lib mode (fun c => is_classic c = false) (tryBleRaw lib b).
Proof.
  intros Hb tr. destruct (tryBleRaw_calls b tr) as (calls & ok & E & Hc & Hw).
  exists calls, ok. split; [exact E|]. split.
  - eapply Forall_impl; [|exact Hc]. intros c [-> | ->]; reflexivity.
  - rewrite filter_all; [exact Hw|].
    apply went_through_Forall. eapply Forall_impl; [|exact Hc].
    intros c [-> | ->]; now apply is_cutter_in.
Qed.

Lemma sendClassicOnce_once mode mac b :
  In b (ble_sequences mode) ->
  sends_once lib mode (fun c => is_classic c = true)
             (sendClassicOnce lib mac b).
Proof.
  intros Hb tr.
  destruct (sendClassicOnce_calls mac b tr) as (calls & ok & E & Hc & Hw).
  exists calls, ok. split; [exact E|]. split.
  - eapply Forall_impl; [|exact Hc].
    intros c [-> | [-> | [-> | ->]]]; reflexivity.
  - replace (filter (is_cutter mode) (went_through lib tr calls))
      with (filter is_write (went_through lib tr calls)).
    + rewrite Hw. destruct ok; reflexivity.
    + apply filter_ext_in. intros c Hin.
      pose proof (went_through_Forall _ calls tr Hc) as Hf.
      rewrite Forall_forall in Hf.
      destruct (Hf c Hin) as [-> | [-> | [-> | ->]]]; try reflexivity.
      symmetry. now apply is_cutter_in.
Qed.

(** The feeding part of the Bluetooth [cut]: no Classic call, and no
    cutter sequence. *)
Lemma ble_feed_calls mode tr :
  exists calls,
    bind (tryBleRaw lib [0x1B; 0x64; 0x05]%Z)
         (fun fed => if fed then ret tt else feed_text lib 5) tr
    = (tr ++ calls, Normal tt)
    /\ Forall (fun c => is_classic c = false) calls
    /\ Forall (fun c => is_cutter mode c = false) calls.
Proof.
  exists (skipn (length tr)
                (fst (bind (tryBleRaw lib [0x1B; 0x64; 0x05]%Z)
                           (fun fed => if fed then ret tt
                                       else feed_text lib 5) tr))).
  unfold tryBleRaw, feed_text, bind, try_catch, invoke, ret.
  destruct (has_printRawData lib), (has_printText lib); cbn [negb];
    split_replies lib; tidy_trace;
    (split; [reflexivity|]);
    split;
    repeat (apply Forall_cons; [destruct mode; reflexivity|]);
    apply Forall_nil.
Qed.

(** X18. The Bluetooth [cut] never throws, and at most one cutter
    sequence goes through in one call, so that the paper is not cut
    twice. Its calls are first those on the Bluetooth LE library, then
    those on the Classic (RFCOMM) library; the Classic library is used
    only when no cutter sequence went through over Bluetooth LE. *)
Theorem ble_cut_cuts_at_most_once mac mode tr :
  exists ble classic,
    ble_cut lib mac mode tr = (tr ++ ble ++ classic, Normal tt)
    /\ Forall (fun c => is_classic c = false) ble
    /\ Forall (fun c => is_classic c = true) classic
    /\ length (filter (is_cutter mode)
                      (went_through lib tr (ble ++ classic))) <= 1
    /\ (classic <> [] ->
        filter (is_cutter mode) (went_through lib tr ble) = []).
Proof.
  assert (Hsplit :
    ble_cut lib mac mode tr
    = bind (bind (tryBleRaw lib [0x1B; 0x64; 0x05]%Z)
                 (fun fed => if fed then ret tt else feed_text lib 5))
           (fun _ =>
              sent <- first_sent (tryBleRaw lib) (ble_sequences mode) ;;
              if sent then ret tt
              else first_sent (sendClassicOnce lib mac)
                              (ble_sequences mode) ;;; ret tt) tr).
  { unfold ble_cut. apply bind_assoc. }
  rewrite Hsplit. unfold bind at 1.
  destruct (ble_feed_calls mode tr) as (c0 & E0 & P0 & C0). rewrite E0.
  unfold bind at 1.
  destruct (first_sent_once mode _ _ (ble_sequences mode)
              (fun b Hb => tryBleRaw_once mode b Hb) (tr ++ c0))
    as (c2 & sent & E2 & P2 & W2).
  rewrite E2.
  assert (Hfeed : filter (is_cutter mode) (went_through lib tr c0) = []).
  { apply filter_none, went_through_Forall, C0. }
  destruct sent.
  - exists (c0 ++ c2), []. unfold ret. rewrite app_nil_r, app_assoc.
    split; [reflexivity|]. split; [apply Forall_app; auto|].
    split; [constructor|]. split; [|congruence].
    rewrite went_through_app, filter_app, length_app, Hfeed, W2.
    simpl. lia.
  - unfold bind.
    destruct (first_sent_once mode _ _ (ble_sequences mode)
                (fun b Hb => sendClassicOnce_once mode mac b Hb)
                ((tr ++ c0) ++ c2))
      as (c3 & ok & E3 & P3 & W3).
    rewrite E3. unfold ret. exists (c0 ++ c2), c3.
    assert (Hraw : filter (is_cutter mode)
                          (went_through lib (tr ++ c0) c2) = []).
    { apply length_zero_iff_nil. exact W2. }
    split; [now rewrite <- !app_assoc|].
    split; [apply Forall_app; auto|]. split; [exact P3|].
    rewrite !went_through_app, (app_assoc tr c0 c2), !filter_app,
      !length_app, Hfeed, Hraw, W3.
    split; [destruct ok; simpl; lia|reflexivity].
Qed.

End AnyBuild.

Lemma tryBleRaw_reports_what_went_through_witness :
  has_printRawData ble_ignores_raw = true
  /\ tryBleRaw ble_ignores_raw [0x1D; 0x56; 0x00]%Z []
     = ([PrintRawBase64 [0x1D; 0x56; 0x00]%Z;
         PrintRawArray [0x1D; 0x56; 0x00]%Z], Normal false).
Proof.
  split; [reflexivity|].
  exact (proj2 (proj2 (proj1 (proj2
           (tryBleRaw_reports_what_went_through
              ble_ignores_raw [0x1D; 0x56; 0x00]%Z [])) eq_refl) eq_refl)
           eq_refl).
Defined.

Example ble_cut_falls_back_to_rfcomm :
  ble_cut ble_ignores_raw (Some (str "00:11:22:33:44:55")) full []
  = ([PrintRawBase64 [0x1B; 0x64; 0x05]; PrintRawArray [0x1B; 0x64; 0x05];
      PrintText (repeat newline 5);
      PrintRawBase64 [0x1D; 0x56; 0x00]; PrintRawArray [0x1D; 0x56; 0x00];
      PrintRawBase64 [0x1D; 0x56; 0x41; 0x00];
      PrintRawArray [0x1D; 0x56; 0x41; 0x00];
      PrintRawBase64 [0x1D; 0x56; 0x42; 0x03];
      PrintRawArray [0x1D; 0x56; 0x42; 0x03];
      PrintRawBase64 [0x1B; 0x69]; PrintRawArray [0x1B; 0x69];
      ClassicConnect true; ClassicWrite [0x1D; 0x56; 0x00];
      ClassicDisconnect]%Z,
     Normal tt).
Proof. vm_compute. reflexivity. Qed.

End BleSpec.

(** ** Properties of the stored preferences *)

Module PrefsFileSpec.
Import JsString JsNumber JsValue Prefs.

(** *** Vocabulary *)

(** A host as it is written in a legacy [ip] field: not empty, without
    white space and without a colon. *)
Definition plain_host (h : jsstring) : bool :=
  str_truthy h
  && forallb (fun c => negb (is_ws c) && negb (Ascii.eqb c ":"%char)) h.

Definition is_decimal_digit (c : ascii) : bool :=
  match digit_value c with
  | Some _ => true
  | None => false
  end.

(** A token [t] that is [h], a colon and two to five digits [ds]. *)
Definition port_suffix (t h ds : jsstring) : Prop :=
  t = h ++ ":"%char :: ds
  /\ forallb is_decimal_digit ds = true
  /\ 2 <= length ds <= 5.

(** Preferences from before the printer list existed. *)
Definition legacy_prefs : PrefsFile.Prefs :=
  {| PrefsFile.btAddress := None; PrefsFile.btName := None;
     PrefsFile.ip := Some (str "192.168.1.50");
     PrefsFile.port := None; PrefsFile.webUrl := None;
     PrefsFile.netPrinters := None; PrefsFile.enableMultiNet := None |}.

(** *** Normal forms *)

Lemma positive_or_positive p d :
  num_lt pzero d = true -> num_lt pzero (positive_or p d) = true.
Proof.
  intros Hd. unfold positive_or. destruct p as [x|]; [|exact Hd].
  destruct (num_lt pzero x) eqn:E; [exact E|exact Hd].
Qed.

Lemma positive_or_idem p d :
  num_lt pzero d = true ->
  positive_or (Some (positive_or p d)) d = positive_or p d.
Proof.
  intros Hd. unfold positive_or at 1.
  now rewrite positive_or_positive.
Qed.

Lemma normalizeProfile_idem p :
  normalizeProfile (normalizeProfile p) = normalizeProfile p.
Proof.
  unfold normalizeProfile at 1 3. cbn [name host port widthDots enabled
                                      copies isDefault normalizeProfile].
  rewrite !positive_or_idem by reflexivity.
  f_equal. f_equal.
  destruct (widthDots p) as [w|]; [|reflexivity].
  destruct (num_eq w (of_Z 384) || num_eq w (of_Z 576)) eqn:E.
  - now rewrite E.
  - reflexivity.
Qed.

(** X19. [normalizeProfile] fills every absent field, keeps the host,
    yields a positive port and a positive number of copies and one of
    the two paper widths, and changes nothing in a profile that is
    already normal. *)
Theorem normalizeProfile_is_a_normal_form p :
  normalizeProfile (normalizeProfile p) = normalizeProfile p
  /\ host (normalizeProfile p) = host p
  /\ exists n pt w e c d,
       normalizeProfile p
       = {| name := Some n; host := host p; port := Some pt;
            widthDots := Some w; enabled := Some e; copies := Some c;
            isDefault := Some d |}
       /\ num_lt pzero pt = true
       /\ num_lt pzero c = true
       /\ (num_eq w (of_Z 384) || num_eq w (of_Z 576)) = true.
Proof.
  split; [apply normalizeProfile_idem|]. split; [reflexivity|].
  unfold normalizeProfile. do 6 eexists. split; [reflexivity|].
  split; [now apply positive_or_positive|].
  split; [now apply positive_or_positive|].
  destruct (widthDots p) as [w|]; [|reflexivity].
  destruct (num_eq w (of_Z 384) || num_eq w (of_Z 576)) eqn:E;
    [exact E|reflexivity].
Qed.

Lemma map_normalizeProfile_idem l :
  map normalizeProfile (map normalizeProfile l) = map normalizeProfile l.
Proof.
  rewrite map_map. apply map_ext. intros p. apply normalizeProfile_idem.
Qed.

(** X20. [normalizePrefs] always answers with a printer list and a
    feature flag, and normalizing its answer again changes nothing: the
    legacy migration does not seed a second profile. *)
Theorem normalizePrefs_is_idempotent raw :
  PrefsFile.normalizePrefs (Some (PrefsFile.normalizePrefs raw))
  = PrefsFile.normalizePrefs raw
  /\ exists l b,
       PrefsFile.netPrinters (PrefsFile.normalizePrefs raw) = Some l
       /\ PrefsFile.enableMultiNet (PrefsFile.normalizePrefs raw) = Some b.
Proof.
  split; [|unfold PrefsFile.normalizePrefs; simpl; eauto].
  unfold PrefsFile.normalizePrefs.
  cbn [PrefsFile.btAddress PrefsFile.btName PrefsFile.ip PrefsFile.port
       PrefsFile.webUrl PrefsFile.netPrinters PrefsFile.enableMultiNet].
  set (prefs := match raw with
                | Some r => r
                | None => PrefsFile.no_prefs
                end).
  f_equal.
  destruct (match PrefsFile.netPrinters prefs with
            | Some l => l
            | None => []
            end) as [|q l] eqn:El.
  - destruct (PrefsFile.ip prefs) as [[|c h]|]; try reflexivity.
    cbn [map]. now rewrite normalizeProfile_idem.
  - cbn [map]. rewrite normalizeProfile_idem, map_normalizeProfile_idem.
    reflexivity.
Qed.

(** X21. The resolver that reads the stored preferences and the one that
    takes a list agree on the stored list. *)
Theorem resolvers_agree ipToken raw :
  PrefsFile.resolveSavedPrinterByIpToken ipToken raw
  = resolveSavedPrinterByIpTokenInList ipToken
      (PrefsFile.getNetPrinters raw).
Proof.
  unfold PrefsFile.resolveSavedPrinterByIpToken,
    resolveSavedPrinterByIpTokenInList.
  destruct (parseIpToken ipToken) as [[h port_opt]|]; [|reflexivity].
  f_equal. unfold PrefsFile.getNetPrinters, PrefsFile.normalizePrefs.
  cbn [PrefsFile.netPrinters]. now rewrite map_normalizeProfile_idem.
Qed.

(** X22. The printer list that [setNetPrinters] hands to the file is the
    given list in normal form, with one exception: for the empty list,
    while a legacy [ip] is set, it is the seeded [Default] profile, so
    that the last printer cannot be removed. *)
Theorem setNetPrinters_writes_normal_forms saved raw :
  PrefsFile.netPrinters (PrefsFile.setNetPrinters saved raw)
  = Some match saved, PrefsFile.ip (PrefsFile.normalizePrefs raw) with
         | [], Some (c :: h) =>
             [normalizeProfile
                (PrefsFile.seeded (c :: h)
                   (PrefsFile.port (PrefsFile.normalizePrefs raw)))]
         | _, _ => map normalizeProfile saved
         end.
Proof.
  unfold PrefsFile.setNetPrinters.
  set (curr := PrefsFile.normalizePrefs raw).
  unfold PrefsFile.normalizePrefs at 1.
  cbn [PrefsFile.btAddress PrefsFile.btName PrefsFile.ip PrefsFile.port
       PrefsFile.webUrl PrefsFile.netPrinters PrefsFile.enableMultiNet].
  f_equal. destruct saved as [|q l].
  - cbn [map]. destruct (PrefsFile.ip curr) as [[|c h]|]; reflexivity.
  - cbn [map]. rewrite normalizeProfile_idem, map_normalizeProfile_idem.
    reflexivity.
Qed.

(** *** Tokens *)

Lemma trim_start_clean s :
  match s with
  | c :: _ => is_ws c = false
  | [] => True
  end ->
  trim_start s = s.
Proof. destruct s as [|c r]; simpl; [reflexivity|]. now intros ->. Qed.

Lemma trim_clean s :
  Forall (fun c => is_ws c = false) s -> trim s = s.
Proof.
  intros H. unfold trim.
  rewrite (trim_start_clean s) by (destruct H; auto).
  rewrite trim_start_clean; [apply rev_involutive|].
  assert (Hr : Forall (fun c => is_ws c = false) (rev s)).
  { apply Forall_forall. intros c Hc. apply in_rev in Hc.
    rewrite Forall_forall in H. now apply H. }
  destruct Hr; auto.
Qed.

Lemma span_digits_spec s :
  forall ds rest,
    span_digits s = (ds, rest) ->
    s = ds ++ rest
    /\ Forall (fun c => is_decimal_digit c = true) ds
    /\ match rest with
       | c :: _ => is_decimal_digit c = false
       | [] => True
       end.
Proof.
  induction s as [|c r IH]; simpl; intros ds rest H.
  - inversion H; subst. auto.
  - destruct (digit_value c) as [d|] eqn:Ed.
    + destruct (span_digits r) as [ds' rest'].
      inversion H; subst. destruct (IH ds' rest eq_refl) as (E & F & R).
      split; [simpl; congruence|]. split; [|exact R].
      constructor; [|exact F]. unfold is_decimal_digit. now rewrite Ed.
    + inversion H; subst. split; [reflexivity|]. split; [constructor|].
      unfold is_decimal_digit. now rewrite Ed.
Qed.

Lemma parseIpToken_plain h :
  plain_host h = true -> parseIpToken h = Some (h, None).
Proof.
  unfold plain_host. intros H. apply andb_true_iff in H.
  destruct H as [Hne Hall]. rewrite forallb_forall in Hall.
  assert (Hws : Forall (fun c => is_ws c = false) h).
  { apply Forall_forall. intros c Hc. specialize (Hall c Hc).
    apply andb_true_iff in Hall. destruct Hall as [Hw _].
    now apply negb_true_iff in Hw. }
  unfold parseIpToken. rewrite (trim_clean h Hws).
  destruct h as [|c0 h0]; [discriminate|].
  destruct (span_digits (rev (c0 :: h0))) as [ds_rev rest_rev] eqn:Es.
  destruct (span_digits_spec _ _ _ Es) as (E & _ & _).
  destruct rest_rev as [|x host_rev]; [reflexivity|].
  assert (Hx : Ascii.eqb x ":"%char = false).
  { assert (Hin : In x (c0 :: h0)).
    { apply in_rev. rewrite E. apply in_or_app. right. now left. }
    specialize (Hall x Hin). apply andb_true_iff in Hall.
    destruct Hall as [_ Hc]. now apply negb_true_iff in Hc. }
  destruct x as [[|] [|] [|] [|] [|] [|] [|] [|]]; try reflexivity.
  discriminate Hx.
Qed.

(** X23. The legacy migration makes the old single printer reachable:
    when the preferences hold no printer list and a legacy [ip] that is
    a plain host, the token made of that host resolves to the seeded
    profile, which is enabled, is the default, has the host of [ip] and
    the legacy port when that is positive, and 9100 otherwise. *)
Theorem legacy_ip_resolves_to_seeded_profile prefs h :
  match PrefsFile.netPrinters prefs with
  | Some (_ :: _) => False
  | _ => True
  end ->
  PrefsFile.ip prefs = Some h ->
  plain_host h = true ->
  exists p,
    PrefsFile.resolveSavedPrinterByIpToken h (Some prefs) = Some p
    /\ PrefsFile.getNetPrinters (Some prefs) = [p]
    /\ host p = h
    /\ enabled p = Some true
    /\ isDefault p = Some true
    /\ port p = Some (positive_or (PrefsFile.port prefs) DEFAULT_NET_PORT).
Proof.
  intros Hl Hip Hh.
  assert (Hlist : PrefsFile.getNetPrinters (Some prefs)
                  = [normalizeProfile
                       (PrefsFile.seeded h (PrefsFile.port prefs))]).
  { unfold PrefsFile.getNetPrinters, PrefsFile.normalizePrefs.
    cbn [PrefsFile.netPrinters]. rewrite Hip.
    destruct h as [|c h]; [discriminate|].
    destruct (PrefsFile.netPrinters prefs) as [[|q l]|];
      [reflexivity|contradiction|reflexivity]. }
  exists (normalizeProfile (PrefsFile.seeded h (PrefsFile.port prefs))).
  split; [|split; [exact Hlist|]].
  - unfold PrefsFile.resolveSavedPrinterByIpToken.
    rewrite (parseIpToken_plain h Hh), Hlist. cbn [find].
    unfold token_matches. cbn [enabled normalizeProfile PrefsFile.seeded host].
    now rewrite RoutingSpec.str_eqb_refl.
  - cbn [host enabled isDefault port normalizeProfile PrefsFile.seeded].
    rewrite positive_or_idem by reflexivity.
    auto.
Qed.

Lemma legacy_ip_resolves_to_seeded_profile_witness :
  match PrefsFile.netPrinters legacy_prefs with
  | Some (_ :: _) => False
  | _ => True
  end
  /\ PrefsFile.ip legacy_prefs = Some (str "192.168.1.50")
  /\ plain_host (str "192.168.1.50") = true
  /\ exists p,
       PrefsFile.resolveSavedPrinterByIpToken (str "192.168.1.50")
         (Some legacy_prefs) = Some p
       /\ PrefsFile.getNetPrinters (Some legacy_prefs) = [p]
       /\ host p = str "192.168.1.50"
       /\ enabled p = Some true
       /\ isDefault p = Some true
       /\ port p
          = Some (positive_or (PrefsFile.port legacy_prefs) DEFAULT_NET_PORT).
Proof.
  split; [exact I|]. split; [reflexivity|]. split; [reflexivity|].
  apply (legacy_ip_resolves_to_seeded_profile legacy_prefs
           (str "192.168.1.50")); [exact I|reflexivity|reflexivity].
Defined.

Lemma take_digits_bound s :
  forall acc cnt,
    (0 <= acc)%Z ->
    let '(v, _, _) := take_digits s acc cnt in
    (0 <= v /\ v + 1 <= (acc + 1) * 10 ^ Z.of_nat (length s))%Z.
Proof.
  induction s as [|c r IH]; intros acc cnt Ha; simpl take_digits.
  - simpl. lia.
  - assert (Hp : (0 < 10 ^ Z.of_nat (length r))%Z)
      by (apply Z.pow_pos_nonneg; lia).
    replace (Z.of_nat (length (c :: r))) with (Z.succ (Z.of_nat (length r)))
      by (simpl length; lia).
    rewrite Z.pow_succ_r by lia.
    destruct (digit_value c) as [d|] eqn:Ed.
    + assert (Hd : (0 <= d <= 9)%Z).
      { unfold digit_value in Ed.
        destruct ((48 <=? nat_of_ascii c) && (nat_of_ascii c <=? 57)) eqn:E;
          [|discriminate].
        apply andb_true_iff in E. destruct E as [E1 E2].
        apply Nat.leb_le in E1. apply Nat.leb_le in E2.
        inversion Ed; subst. lia. }
      specialize (IH (acc * 10 + d)%Z (cnt + 1)%Z ltac:(lia)).
      destruct (take_digits r (acc * 10 + d) (cnt + 1)) as [[v n] rest].
      nia.
    + nia.
Qed.

Lemma span_digits_app ds rest :
  forallb is_decimal_digit ds = true ->
  match rest with
  | c :: _ => is_decimal_digit c = false
  | [] => True
  end ->
  span_digits (ds ++ rest) = (ds, rest).
Proof.
  intros Hd Hr. induction ds as [|c ds IH]; simpl.
  - destruct rest as [|x r]; [reflexivity|]. simpl.
    unfold is_decimal_digit in Hr. now destruct (digit_value x).
  - simpl in Hd. apply andb_true_iff in Hd. destruct Hd as [Hc Hd].
    unfold is_decimal_digit in Hc. destruct (digit_value c); [|discriminate].
    now rewrite (IH Hd).
Qed.

Lemma forallb_rev {A} (f : A -> bool) l :
  forallb f l = true -> forallb f (rev l) = true.
Proof.
  rewrite !forallb_forall. intros H x Hx. apply H. now apply in_rev.
Qed.

(** The answer for a token with a port suffix. *)
Lemma parseIpToken_suffix ipToken h ds :
  port_suffix (trim ipToken) h ds ->
  parseIpToken ipToken
  = match h with
    | [] => None
    | _ :: _ => Some (h, Some (parseInt_digits ds))
    end.
Proof.
  intros (Et & Hd & Hl). unfold parseIpToken. rewrite Et.
  destruct (h ++ ":"%char :: ds) as [|c0 t0] eqn:E;
    [destruct h; discriminate|].
  rewrite <- E. clear E.
  replace (rev (h ++ ":"%char :: ds)) with (rev ds ++ ":"%char :: rev h)
    by (rewrite rev_app_distr; simpl; now rewrite <- app_assoc).
  rewrite (span_digits_app (rev ds) (":"%char :: rev h));
    [|now apply forallb_rev|reflexivity].
  rewrite length_rev.
  replace ((2 <=? length ds) && (length ds <=? 5)) with true
    by (symmetry; apply andb_true_iff; split; apply Nat.leb_le; lia).
  rewrite !rev_involutive. destruct h; reflexivity.
Qed.

(** What a given answer tells about the token. *)
Lemma parseIpToken_forms ipToken :
  match parseIpToken ipToken with
  | None =>
      trim ipToken = [] \/ exists ds, port_suffix (trim ipToken) [] ds
  | Some (h, Some p) =>
      exists ds,
        port_suffix (trim ipToken) h ds
        /\ h <> []
        /\ p = parseInt_digits ds
  | Some (h, None) =>
      h = trim ipToken /\ h <> []
      /\ ~ exists h' ds, port_suffix (trim ipToken) h' ds
  end.
Proof.
  destruct (parseIpToken ipToken) as [[h [p|]]|] eqn:Ep.
  - revert Ep. unfold parseIpToken. set (t := trim ipToken).
    destruct t as [|c0 t0] eqn:Et; [discriminate|].
    destruct (span_digits (rev (c0 :: t0))) as [ds_rev rest_rev] eqn:Es.
    destruct (span_digits_spec _ _ _ Es) as (E & F & _).
    destruct rest_rev as [|x host_rev]; [discriminate|].
    destruct x as [[|] [|] [|] [|] [|] [|] [|] [|]]; try discriminate.
    destruct ((2 <=? length ds_rev) && (length ds_rev <=? 5)) eqn:El;
      [|discriminate].
    apply andb_true_iff in El. destruct El as [L1 L2].
    apply Nat.leb_le in L1. apply Nat.leb_le in L2.
    destruct (rev host_rev) as [|hc hr] eqn:Eh; [discriminate|].
    intros H. inversion H; subst. exists (rev ds_rev).
    split; [|split; [discriminate|reflexivity]].
    split; [|split; [|rewrite length_rev; lia]].
    + rewrite <- (rev_involutive (c0 :: t0)), E, rev_app_distr. simpl.
      now rewrite <- app_assoc, Eh.
    + apply forallb_forall. intros x Hx. apply in_rev in Hx.
      rewrite Forall_forall in F. now apply F.
  - assert (Hno : ~ exists h' ds, port_suffix (trim ipToken) h' ds).
    { intros (h' & ds & Hs). rewrite (parseIpToken_suffix _ _ _ Hs) in Ep.
      destruct h'; discriminate. }
    split; [|split; [|exact Hno]].
    + revert Ep. unfold parseIpToken.
      destruct (trim ipToken) as [|c0 t0]; [discriminate|].
      destruct (span_digits _) as [ds_rev rest_rev].
      destruct rest_rev as [|x host_rev]; [now intros [= <-]|].
      destruct x as [[|] [|] [|] [|] [|] [|] [|] [|]]; try now intros [= <-].
      destruct (_ && _); [|now intros [= <-]].
      destruct (rev host_rev); discriminate.
    + revert Ep. unfold parseIpToken.
      destruct (trim ipToken) as [|c0 t0]; [discriminate|].
      destruct (span_digits _) as [ds_rev rest_rev].
      destruct rest_rev as [|x host_rev]; [intros [= <-]; discriminate|].
      destruct x as [[|] [|] [|] [|] [|] [|] [|] [|]];
        try (intros [= <-]; discriminate).
      destruct (_ && _); [|intros [= <-]; discriminate].
      destruct (rev host_rev); discriminate.
  - revert Ep. unfold parseIpToken. set (t := trim ipToken).
    destruct t as [|c0 t0] eqn:Et; [now left|].
    destruct (span_digits (rev (c0 :: t0))) as [ds_rev rest_rev] eqn:Es.
    destruct (span_digits_spec _ _ _ Es) as (E & F & _).
    destruct rest_rev as [|x host_rev]; [discriminate|].
    destruct x as [[|] [|] [|] [|] [|] [|] [|] [|]]; try discriminate.
    destruct ((2 <=? length ds_rev) && (length ds_rev <=? 5)) eqn:El;
      [|discriminate].
    apply andb_true_iff in El. destruct El as [L1 L2].
    apply Nat.leb_le in L1. apply Nat.leb_le in L2.
    destruct (rev host_rev) as [|hc hr] eqn:Eh; [|discriminate].
    intros _. right. exists (rev ds_rev).
    split; [|split; [|rewrite length_rev; lia]].
    + rewrite <- (rev_involutive (c0 :: t0)), E, rev_app_distr. simpl.
      now rewrite <- app_assoc, Eh.
    + apply forallb_forall. intros x Hx. apply in_rev in Hx.
      rewrite Forall_forall in F. now apply F.
Qed.

Lemma parseInt_digits_bound ds :
  length ds <= 5 ->
  exists v, parseInt_digits ds = of_Z v /\ (0 <= v <= 99999)%Z.
Proof.
  intros Hl.
  pose proof (take_digits_bound ds 0 0 ltac:(lia)) as Hb.
  unfold parseInt_digits.
  destruct (take_digits ds 0 0) as [[v n] rest].
  exists v. split; [reflexivity|].
  assert (10 ^ Z.of_nat (length ds) <= 10 ^ 5)%Z
    by (apply Z.pow_le_mono_r; lia).
  change (10 ^ 5)%Z with 100000%Z in *. lia.
Qed.

(** X24. What [parseIpToken] of prefs.ts answers, for the trimmed token
    [t]. It answers nothing exactly when [t] is empty or is a colon and
    two to five digits. It answers the host [h] and a port [p] exactly
    when [t] is [h], a colon and two to five digits, with [h] not empty
    and [p] the value of the digits, which is an integer from 0 to
    99999. It answers a host without port exactly when [t] is not empty
    and does not end with a colon and two to five digits, and the host
    is then [t] itself. *)
Theorem parseIpToken_reads_a_port_suffix ipToken :
  let t := trim ipToken in
  (parseIpToken ipToken = None
   <-> t = [] \/ exists ds, port_suffix t [] ds)
  /\ (forall h p,
         parseIpToken ipToken = Some (h, Some p)
         <-> exists ds,
               port_suffix t h ds /\ h <> [] /\ p = parseInt_digits ds)
  /\ (forall h,
         parseIpToken ipToken = Some (h, None)
         <-> h = t /\ t <> []
             /\ ~ exists h' ds, port_suffix t h' ds)
  /\ (forall h p,
         parseIpToken ipToken = Some (h, Some p) ->
         exists v, p = of_Z v /\ (0 <= v <= 99999)%Z).
Proof.
  intros t. subst t. pose proof (parseIpToken_forms ipToken) as Hf.
  split; [|split; [|split]].
  - split.
    + intros E. now rewrite E in Hf.
    + intros [E|(ds & Hs)].
      * unfold parseIpToken. now rewrite E.
      * now rewrite (parseIpToken_suffix _ _ _ Hs).
  - intros h p. split.
    + intros E. rewrite E in Hf. exact Hf.
    + intros (ds & Hs & Hh & ->). rewrite (parseIpToken_suffix _ _ _ Hs).
      destruct h; [congruence|reflexivity].
  - intros h. split.
    + intros E. rewrite E in Hf. destruct Hf as (-> & H1 & H2). auto.
    + intros (-> & Hne & Hno).
      destruct (parseIpToken ipToken) as [[h [p|]]|].
      * destruct Hf as (ds & Hs & _). exfalso. apply Hno. eauto.
      * destruct Hf as (-> & _). reflexivity.
      * destruct Hf as [E|(ds & Hs)]; [congruence|].
        exfalso. apply Hno. eauto.
  - intros h p E. rewrite E in Hf. destruct Hf as (ds & Hs & _ & ->).
    apply parseInt_digits_bound. destruct Hs as (_ & _ & Hl). lia.
Qed.

Example parseIpToken_samples :
  parseIpToken (str " 192.168.1.10:9100 ")
  = Some (str "192.168.1.10", Some (of_Z 9100))
  /\ parseIpToken (str "192.168.1.10:9") = Some (str "192.168.1.10:9", None)
  /\ parseIpToken (str "192.168.1.10:123456")
     = Some (str "192.168.1.10:123456", None)
  /\ parseIpToken (str ":9100") = None
  /\ parseIpToken (str "printer") = Some (str "printer", None).
Proof. vm_compute. repeat split; reflexivity. Qed.

End PrefsFileSpec.

(** ** Properties of the hint tokens and of the execution of a job *)

Module RoutingMoreSpec.
Import JsString JsNumber JsValue Prefs Routing JsValueSpec RoutingSpec.

(** *** Vocabulary *)

(** A string without white space at either end. *)
Definition trimmed (s : jsstring) : Prop := trim s = s.

(** The jobs a target calls for when no print fails: as many copies of
    its payload as the profile asks for, none when its kitchen block is
    missing. *)
Definition jobs_of (json : value) (kblocks : list value) (t : target)
  : list print_job :=
  match payload_of json kblocks t, rounds (copies_of (profile t)) with
  | Some payload, Some n => repeat (profile t, payload) n
  | _, _ => []
  end.

(** A printer that fails on its second job. *)
Definition second_job_fails : list print_job -> print_job -> bool :=
  fun tr _ => Nat.eqb (length tr) 0.

(** A kitchen block with hints in two spellings of the key. *)
Definition hinted_block : value :=
  VObj [(str "type", VStr (str "kitchen_print"));
        (str "ip_address", VStr (str " 10.0.0.7 , 10.0.0.8,,10.0.0.7"));
        (str "data", VObj [(str "ipAddress",
                            VArr [VStr (str "10.0.0.8 "); VNull;
                                  VStr (str "10.0.0.9")])])].

(** The document of the examples: a cashier hint for one printer and a
    kitchen block, printed item by item, for another. *)
Definition order : value :=
  document
    [VObj [(str "type", VStr (str "setting"));
           (str "data", VObj [(str "ip_address", VStr (str "192.168.1.10"))])];
     kitchen_block "192.168.1.11" "1" tea_and_scone].

Definition two_printers : list NetPrinterProfile :=
  [lan_printer "192.168.1.10" 9100;
   lan_printer "192.168.1.11" 9100].

(** The targets of [order] on [two_printers], one for the cashier and
    one for each item of the kitchen block. *)
Definition order_targets : list target :=
  [{| profile := lan_printer "192.168.1.10" 9100; ttype := cashier;
      blockIdx := None; item := VUndefined |};
   item_target (lan_printer "192.168.1.11" 9100) 0
               (line_item "Tea" [(str "display_index", VNum (of_Z 1))]);
   item_target (lan_printer "192.168.1.11" 9100) 0
               (line_item "Scone" [(str "display_index", VNum (of_Z 2))])].

(** *** Trimming *)

Lemma trim_start_suffix s : exists w, s = w ++ trim_start s.
Proof.
  induction s as [|c r IH]; simpl; [exists []; reflexivity|].
  destruct (is_ws c).
  - destruct IH as (w & Hw). exists (c :: w). simpl. congruence.
  - exists []. reflexivity.
Qed.

Lemma trim_start_head s :
  match trim_start s with
  | c :: _ => is_ws c = false
  | [] => True
  end.
Proof.
  induction s as [|c r IH]; simpl; [exact I|].
  destruct (is_ws c) eqn:E; [exact IH|exact E].
Qed.

Lemma trim_start_fixed s :
  match s with
  | c :: _ => is_ws c = false
  | [] => True
  end ->
  trim_start s = s.
Proof. destruct s as [|c r]; simpl; [reflexivity|]. now intros ->. Qed.

Lemma trim_idem s : trimmed (trim s).
Proof.
  unfold trimmed, trim.
  set (a := trim_start s). set (b := trim_start (rev a)).
  assert (Hb : match b with
               | c :: _ => is_ws c = false
               | [] => True
               end) by apply trim_start_head.
  assert (Ha : match a with
               | c :: _ => is_ws c = false
               | [] => True
               end) by apply trim_start_head.
  assert (Hrb : trim_start (rev b) = rev b).
  { apply trim_start_fixed.
    destruct (trim_start_suffix (rev a)) as (w & Hw). fold b in Hw.
    assert (Ea : a = rev b ++ rev w).
    { rewrite <- (rev_involutive a), Hw. apply rev_app_distr. }
    destruct (rev b) as [|x rb] eqn:Er; [exact I|].
    rewrite Ea in Ha. exact Ha. }
  rewrite Hrb, rev_involutive, (trim_start_fixed b Hb). reflexivity.
Qed.

Lemma trim_start_incl s c : In c (trim_start s) -> In c s.
Proof.
  destruct (trim_start_suffix s) as (w & Hw). intros H. rewrite Hw.
  apply in_or_app. now right.
Qed.

Lemma trim_incl s c : In c (trim s) -> In c s.
Proof.
  unfold trim. intros H. apply in_rev in H.
  apply trim_start_incl in H. apply in_rev in H.
  now apply trim_start_incl in H.
Qed.

(** *** The hint tokens of a kitchen block *)

Lemma dedupe_strings_sound seen l x :
  In x (dedupe_strings seen l) -> In x l /\ ~ In x seen.
Proof.
  revert seen. induction l as [|a l IH]; simpl; intros seen; [tauto|].
  destruct (existsb (str_eqb a) seen) eqn:E.
  - intros H. destruct (IH _ H). auto.
  - intros [H|H].
    + subst a. split; [now left|]. intros Hin.
      assert (existsb (str_eqb x) seen = true); [|congruence].
      apply existsb_exists. exists x. split; [exact Hin|].
      apply RoutingSpec.str_eqb_refl.
    + destruct (IH _ H) as [H1 H2]. split; [now right|].
      intros Hin. apply H2. now right.
Qed.

Lemma dedupe_strings_nodup seen l : NoDup (dedupe_strings seen l).
Proof.
  revert seen. induction l as [|a l IH]; simpl; intros seen;
    [constructor|].
  destruct (existsb (str_eqb a) seen); [apply IH|].
  constructor; [|apply IH].
  intros H. apply dedupe_strings_sound in H. destruct H as [_ H].
  apply H. now left.
Qed.

Lemma dedupe_strings_complete seen l x :
  In x l -> In x seen \/ In x (dedupe_strings seen l).
Proof.
  revert seen. induction l as [|a l IH]; simpl; intros seen; [tauto|].
  intros [H|H].
  - subst a. destruct (existsb (str_eqb x) seen) eqn:E.
    + left. apply existsb_exists in E. destruct E as (y & Hy & He).
      apply RoutingSpec.str_eqb_eq in He. now subst.
    + right. now left.
  - destruct (existsb (str_eqb a) seen) eqn:E.
    + apply IH, H.
    + destruct (IH (a :: seen) H) as [[Hx|Hx]|Hx].
      * subst. right. now left.
      * now left.
      * right. now right.
Qed.

Lemma tokens_of_hint_clean v t :
  In t (tokens_of_hint v) -> str_truthy t = true /\ trimmed t.
Proof.
  destruct v as [| | | |s|l|]; simpl; try tauto.
  - intros H. apply filter_In in H. destruct H as [H Ht].
    split; [exact Ht|]. apply in_map_iff in H.
    destruct H as (x & <- & _). apply trim_idem.
  - intros H. apply in_flat_map in H. destruct H as (x & _ & Hx).
    destruct x as [| | | |s| |]; simpl in Hx; try tauto.
    destruct (str_truthy (trim s)) eqn:E; simpl in Hx; [|tauto].
    destruct Hx as [<-|[]]. split; [exact E|apply trim_idem].
Qed.

(** X25. The hint tokens [getKitchenIpsFromBlock] reads from a kitchen
    block are not empty, carry no white space at either end and are
    pairwise distinct; and every token of a hint value it reads is among
    them. *)
Theorem kitchen_tokens_are_clean_and_distinct k :
  NoDup (getKitchenIpsFromBlock k)
  /\ (forall t, In t (getKitchenIpsFromBlock k) ->
                str_truthy t = true /\ trimmed t)
  /\ (forall key t,
         In key ip_keys ->
         (In t (tokens_of_hint (get_prop k key))
          \/ In t (tokens_of_hint (get_prop (get_prop k (str "data")) key)))
         ->
         In t (getKitchenIpsFromBlock k)).
Proof.
  unfold getKitchenIpsFromBlock. split; [apply dedupe_strings_nodup|]. split.
  - intros t H. apply dedupe_strings_sound in H. destruct H as [H _].
    apply in_flat_map in H. destruct H as (v & _ & Hv).
    now apply tokens_of_hint_clean in Hv.
  - intros key t Hk Ht.
    assert (Hpres : forall o,
               In t (tokens_of_hint (get_prop o key)) ->
               In t (flat_map tokens_of_hint
                              (present (map (get_prop o) ip_keys)))).
    { intros o Ho. apply in_flat_map. exists (get_prop o key).
      split; [|exact Ho]. unfold present. apply filter_In. split.
      - apply in_map_iff. exists key. auto.
      - destruct (get_prop o key); simpl in *; tauto. }
    assert (Hin : In t (flat_map tokens_of_hint
                          (present (map (get_prop k) ip_keys)
                           ++ present (map (get_prop (get_prop k (str "data")))
                                           ip_keys)))).
    { rewrite flat_map_app. apply in_or_app.
      destruct Ht as [H|H]; [left|right]; now apply Hpres. }
    destruct (dedupe_strings_complete [] _ t Hin) as [[]|H]; exact H.
Qed.

(** X26. A hint token as [parseIpToken] of the drawer reads it: the
    host carries no white space at either end and no colon, and the port
    is never [0] or [NaN]; it is 9100 when the token names no port. *)
Theorem drawer_token_is_usable token :
  let t := parseIpToken token in
  trimmed (t_host t)
  /\ ~ In ":"%char (t_host t)
  /\ num_truthy (t_port t) = true
  /\ (hasPort t = false -> t_port t = DEFAULT_NET_PORT).
Proof.
  unfold parseIpToken.
  set (parts := map trim (split_on ":" (trim token))).
  assert (Hh : trimmed (nth 0 parts []) /\ ~ In ":"%char (nth 0 parts [])).
  { subst parts.
    pose proof (RendererSpec.split_on_sep_free ":"%char (trim token)) as Hf.
    destruct (split_on ":" (trim token)) as [|x r]; simpl.
    - split; [reflexivity|intros []].
    - inversion Hf; subst. split; [apply trim_idem|].
      intros Hin. apply trim_incl in Hin. contradiction. }
  destruct Hh as [H1 H2].
  destruct (nth_error parts 1) as [p|]; [destruct (str_truthy p)|];
    cbn [t_host t_port hasPort]; repeat split; auto; try discriminate.
  destruct (num_truthy (StringToNumber p)) eqn:E; [exact E|reflexivity].
Qed.

(** *** Execution *)

Section AnyPrinter.

Variable printer : list print_job -> print_job -> bool.
Variable observed : nat.

(** X27. Whatever the document and the printers do, every print call of
    a routed job goes to a profile of the stored list, and prints the
    whole document, or the document reduced to one of its kitchen
    blocks, or to one item of one of them. *)
Theorem jobs_go_to_stored_printers_only json saved tr (o : outcome result) :
  handleMultiLanPrint printer observed json saved = (tr, o) ->
  Forall (fun j =>
            In (fst j) saved
            /\ (snd j = json
                \/ exists blocks b,
                     data_blocks json = Some blocks
                     /\ In b (kitchen_blocks blocks)
                     /\ (snd j = buildKitchenPayload json b
                         \/ exists it,
                              snd j
                              = buildSingleKitchenItemPayload json b it)))
         tr.
Proof.
  intros H.
  destruct (handleMultiLanPrint_run printer observed json saved)
    as [E|[(h & E)|(blocks & entries & ts & us & ns & o' & Hd & _ & _
                     & Hr & _ & Hu & _ & _ & _ & E)]];
    rewrite E in H; inversion H; subst; try constructor.
  apply Forall_forall. intros j Hj.
  destruct (served_in _ _ _ _ _ Hj) as (t & Ht & Hp & Hpay). split.
  - rewrite Hp. destruct (dedupe_sound [] ts us t Hu Ht) as [Hin _].
    pose proof (resolve_targets_saved _ _ _ _ Hr) as Hs.
    rewrite Forall_forall in Hs. now apply Hs.
  - destruct (payload_of_forms _ _ _ _ Hpay) as [Hj'|(b & Hb & Hj')];
      [now left|right]. exists blocks, b. auto.
Qed.

(** X28. A print call that fails ends the routed job: the job throws,
    the failed call is the last one made, and the targets after it are
    not printed, although every call before it completed. A job that
    returns has seen every one of its print calls complete. *)
Theorem failed_print_ends_the_job json saved tr (o : outcome result) :
  handleMultiLanPrint printer observed json saved = (tr, o) ->
  tr <> [] ->
  match o with
  | Threw =>
      exists pre j,
        tr = pre ++ [j]
        /\ all_complete printer [] pre = true
        /\ printer pre j = false
  | _ => all_complete printer [] tr = true
  end.
Proof.
  intros H Hne.
  destruct (handleMultiLanPrint_run printer observed json saved)
    as [E|[(h & E)|(blocks & entries & ts & us & ns & o' & _ & _ & _
                     & _ & _ & _ & _ & W & _ & E)]];
    rewrite E in H; inversion H; subst; try congruence.
  destruct o' as [[]| |]; exact W.
Qed.

Lemma exec_targets_all json kblocks ts :
  (forall tr j, printer tr j = true) ->
  (forall t, In t ts -> rounds (copies_of (profile t)) <> None) ->
  forall tr,
    exec_targets printer observed json kblocks ts tr
    = (tr ++ flat_map (jobs_of json kblocks) ts, Returned tt).
Proof.
  intros Hp. induction ts as [|t ts IH]; intros Hr tr; simpl.
  - now rewrite app_nil_r.
  - unfold jobs_of at 1.
    destruct (payload_of json kblocks t) as [payload|].
    + destruct (rounds (copies_of (profile t))) as [n|] eqn:E.
      * rewrite (print_copies_all printer) by exact Hp.
        rewrite IH by (intros u Hu; apply Hr; now right).
        now rewrite <- app_assoc.
      * exfalso. apply (Hr t); [now left|exact E].
    + apply IH. intros u Hu. apply Hr. now right.
Qed.

(** X29. Take a job with hints, whose targets [ts] are resolved and
    deduplicated to [us] without an exception (every flag, name and
    display index is converted, every item list run through). When no
    print call fails and every copy count is at most [2^53], the job
    prints the targets of [us] in their order, each with as many
    consecutive copies of its payload as its profile asks for, and then
    returns [handled] and [matched]. *)
Theorem every_copy_is_printed_in_order json saved blocks entries ts us :
  data_blocks json = Some blocks ->
  kitchen_entries 0 (kitchen_blocks blocks) = Some entries ->
  all_tokens blocks <> [] ->
  resolve_targets saved (cashier_ips blocks) entries = Some ts ->
  ts <> [] ->
  uniqueTargets ts = Some us ->
  (forall tr j, printer tr j = true) ->
  (forall t, In t us -> ~ above_2_53 (copies_of (profile t))) ->
  handleMultiLanPrint printer observed json saved
  = (flat_map (jobs_of json (kitchen_blocks blocks)) us,
     Returned {| handled := true; matched := true |}).
Proof.
  intros Hd He Hn Hr Hne Hu Hp Hc'.
  assert (Hc : forall t, In t us -> rounds (copies_of (profile t)) <> None).
  { intros t Ht E. apply rounds_none in E. exact (Hc' t Ht E). }
  unfold handleMultiLanPrint.
  rewrite Hd. cbv zeta. rewrite He.
  assert (Hno : no_hints (cashier_ips blocks) entries = false).
  { destruct (no_hints (cashier_ips blocks) entries) eqn:E; [|reflexivity].
    apply (no_hints_spec _ _ He) in E. contradiction. }
  rewrite Hno, Hr. destruct ts as [|t0 ts0]; [congruence|].
  rewrite Hu, exec_targets_all; [reflexivity|exact Hp|exact Hc].
Qed.

End AnyPrinter.

(** X30. Deduplicating twice is deduplicating once, and [uniqueTargets]
    leaves a list without repeated keys as it is; it throws exactly
    when the key of one of the targets cannot be built. *)
Theorem uniqueTargets_is_idempotent ts :
  match uniqueTargets ts with
  | Some us => uniqueTargets us
  | None => None
  end = uniqueTargets ts
  /\ ((forall t, In t ts -> target_key t <> None) ->
      NoDup (map target_key ts) -> uniqueTargets ts = Some ts)
  /\ (uniqueTargets ts = None
      <-> exists t, In t ts /\ target_key t = None).
Proof.
  split; [|split].
  - destruct (uniqueTargets ts) as [us|] eqn:E; [|reflexivity].
    apply dedupe_fixed.
    + intros t Ht. destruct (dedupe_sound [] ts us t E Ht)
        as (_ & k & Hk & _). congruence.
    + exact (dedupe_nodup [] ts us E).
    + intros t k _ _ [].
  - intros Hdef H. apply dedupe_fixed; [exact Hdef|exact H|].
    intros t k _ _ [].
  - apply dedupe_none.
Qed.

Lemma uniqueTargets_is_idempotent_witness :
  uniqueTargets order_targets = Some order_targets.
Proof.
  apply (proj1 (proj2 (uniqueTargets_is_idempotent order_targets))).
  - intros t Ht. simpl in Ht. decompose [or] Ht; try contradiction;
      subst t; vm_compute; discriminate.
  - vm_compute.
    repeat (constructor; [simpl; intuition discriminate|]). constructor.
Defined.

Lemma jobs_go_to_stored_printers_only_witness :
  let run := handleMultiLanPrint reliable 0 order two_printers in
  run = (fst run, snd run)
  /\ length (fst run) = 3
  /\ Forall (fun j =>
               In (fst j) two_printers
               /\ (snd j = order
                   \/ exists blocks b,
                        data_blocks order = Some blocks
                        /\ In b (kitchen_blocks blocks)
                        /\ (snd j = buildKitchenPayload order b
                            \/ exists it,
                                 snd j
                                 = buildSingleKitchenItemPayload order b it)))
            (fst run).
Proof.
  intros run.
  assert (H : run = (fst run, snd run)) by (vm_compute; reflexivity).
  split; [exact H|]. split; [vm_compute; reflexivity|].
  apply (jobs_go_to_stored_printers_only reliable 0 order
           two_printers (fst run) (snd run) H).
Defined.

Lemma failed_print_ends_the_job_witness :
  let run := handleMultiLanPrint second_job_fails 0 order two_printers in
  run = (fst run, snd run)
  /\ fst run <> []
  /\ length (fst run) = 2
  /\ match snd run with
     | Threw =>
         exists pre j,
           fst run = pre ++ [j]
           /\ all_complete second_job_fails [] pre = true
           /\ second_job_fails pre j = false
     | _ => all_complete second_job_fails [] (fst run) = true
     end.
Proof.
  intros run.
  assert (H : run = (fst run, snd run)) by (vm_compute; reflexivity).
  assert (Hne : fst run <> []) by (vm_compute; discriminate).
  split; [exact H|]. split; [exact Hne|]. split; [vm_compute; reflexivity|].
  apply (failed_print_ends_the_job second_job_fails 0 order two_printers
           (fst run) (snd run) H Hne).
Defined.

Lemma every_copy_is_printed_in_order_witness :
  let blocks := match data_blocks order with
                | Some l => l
                | None => []
                end in
  let entries := match kitchen_entries 0 (kitchen_blocks blocks) with
                 | Some l => l
                 | None => []
                 end in
  data_blocks order = Some blocks
  /\ kitchen_entries 0 (kitchen_blocks blocks) = Some entries
  /\ all_tokens blocks <> []
  /\ resolve_targets two_printers (cashier_ips blocks) entries
     = Some order_targets
  /\ uniqueTargets order_targets = Some order_targets
  /\ handleMultiLanPrint reliable 0 order two_printers
     = (flat_map (jobs_of order (kitchen_blocks blocks)) order_targets,
        Returned {| handled := true; matched := true |}).
Proof.
  intros blocks entries.
  assert (H1 : data_blocks order = Some blocks) by reflexivity.
  assert (H2 : kitchen_entries 0 (kitchen_blocks blocks) = Some entries)
    by (vm_compute; reflexivity).
  assert (H3 : all_tokens blocks <> []) by (vm_compute; discriminate).
  assert (H4 : resolve_targets two_printers (cashier_ips blocks) entries
               = Some order_targets) by (vm_compute; reflexivity).
  assert (H5 : order_targets <> []) by discriminate.
  assert (H6 : uniqueTargets order_targets = Some order_targets)
    by (vm_compute; reflexivity).
  repeat (split; [assumption|]).
  apply (every_copy_is_printed_in_order reliable 0 order
           two_printers blocks entries order_targets order_targets
           H1 H2 H3 H4 H5 H6).
  - intros tr j. reflexivity.
  - intros t Ht. simpl in Ht. decompose [or] Ht; try contradiction;
      subst t; vm_compute; discriminate.
Defined.

End RoutingMoreSpec.
